(** * vmware_vm_inventory: a shallow embedding of the inventory plugin

    The development follows [plugins/inventory/vmware_vm_inventory.py]:

    - the Python values the plugin handles, exceptions, ordered dictionaries;
    - [BaseVMwareInventory._process_object_types] (the property flattener)
      and [BaseVMwareInventory._get_object_prop] (the dotted-path getter);
    - [InventoryModule._handle_error], [_get_vm_filter_spec],
      [_populate_from_cache], [_populate_from_source] and
      [_populate_host_properties], written in a state-and-exception monad
      over the inventory the plugin fills.

    Definitions come first, the theorems about them follow. *)

From Stdlib Require Import List String Ascii ZArith Bool Lia PeanoNat.
From Stdlib Require Import DecimalString PrimFloat.
Import ListNotations.

Set Warnings "-register-all".

Open Scope string_scope.

(* ================================================================== *)
(** * Python values, exceptions and outcomes *)

(** The values that flow through the plugin.  [PNone], [PBool], [PInt],
    [PFloat] (a binary64 number, nan and the infinities included), [PStr],
    lists and string-keyed dictionaries are the values [json.dumps]
    accepts; [PObj] is a reference to any other Python object (a pyVmomi
    managed or data object, a bound method, a type ...), known only through
    [dir], [getattr] and [callable].  Object references may form cycles. *)
Inductive pyval : Type :=
| PNone
| PBool (b : bool)
| PInt (z : Z)
| PFloat (x : float)
| PStr (s : string)
| PList (l : list pyval)
| PDict (d : list (string * pyval))
| PObj (id : nat).

(** The exception classes the plugin names, raises or lets through. *)
Inductive exn : Type :=
| AttributeError
| IndexError
| KeyError (key : string)
| NoPermission                 (* vim.fault.NoPermission *)
| AnsibleError (msg : string)
| RecursionError
| OtherError (name : string).

Inductive outcome (A : Type) : Type :=
| Ok (a : A)
| Raise (e : exn).
Arguments Ok {A} a.
Arguments Raise {A} e.

(** [except (AttributeError, IndexError)] *)
Definition is_attr_or_index (e : exn) : bool :=
  match e with
  | AttributeError | IndexError => true
  | _ => false
  end.

(** What Python lets a program observe of an object.  [dir] and
    [getattr] run code of the object and may raise. *)
Record world : Type := {
  py_dir : pyval -> outcome (list string);
  py_getattr : pyval -> string -> outcome pyval;
  py_callable : pyval -> bool
}.

(** [json.dumps(v)] succeeds exactly on the JSON-shaped values; with the
    default [allow_nan] it accepts every float. *)
Fixpoint json_dumps_ok (v : pyval) : bool :=
  match v with
  | PNone | PBool _ | PInt _ | PFloat _ | PStr _ => true
  | PList l => forallb json_dumps_ok l
  | PDict d => forallb (fun kv => json_dumps_ok (snd kv)) d
  | PObj _ => false
  end.

(* ================================================================== *)
(** * Ordered dictionaries

    A Python [dict] with string keys: an association list in insertion
    order.  Assigning to a key that is present keeps its position. *)
Module Dict.
Section Dict.
Context {V : Type}.

Definition t : Type := list (string * V).

Fixpoint get (k : string) (d : t) : option V :=
  match d with
  | [] => None
  | (k', v) :: d' => if String.eqb k' k then Some v else get k d'
  end.

(** [k in d] *)
Definition mem (k : string) (d : t) : bool :=
  match get k d with Some _ => true | None => false end.

(** [d[k] = v] *)
Fixpoint set (d : t) (k : string) (v : V) : t :=
  match d with
  | [] => [(k, v)]
  | (k', v') :: d' =>
      if String.eqb k' k then (k, v) :: d' else (k', v') :: set d' k v
  end.

(** what is left of [d] after [d.pop(k, default)] *)
Definition remove (k : string) (d : t) : t :=
  filter (fun kv => negb (String.eqb (fst kv) k)) d.

Definition keys (d : t) : list string := map fst d.
End Dict.
End Dict.

(* ================================================================== *)
(** * String helpers used by the flattener *)

(** [x.startswith('_')] *)
Definition startswith_underscore (x : string) : bool := prefix "_" x.

(** [x in ('Array', 'disabledMethod', 'declaredAlarmState')] *)
Definition denied (x : string) : bool :=
  existsb (String.eqb x) ["Array"; "disabledMethod"; "declaredAlarmState"].

Fixpoint insert_sorted (x : string) (l : list string) : list string :=
  match l with
  | [] => [x]
  | y :: l' => if (x <=? y)%string then x :: l else y :: insert_sorted x l'
  end.

(** [sorted(l)] on strings *)
Definition sorted (l : list string) : list string :=
  fold_right insert_sorted [] l.

Definition lower_ascii (c : ascii) : ascii :=
  let n := nat_of_ascii c in
  if (65 <=? n)%nat && (n <=? 90)%nat then ascii_of_nat (n + 32) else c.

(** [s.lower()], on the ASCII letters *)
Fixpoint lower (s : string) : string :=
  match s with
  | EmptyString => EmptyString
  | String c s' => String (lower_ascii c) (lower s')
  end.

(** The order in which keys end up in a dictionary filled by successive
    assignments: a key keeps the place of its first assignment. *)
Definition add_key (ks : list string) (k : string) : list string :=
  if existsb (String.eqb k) ks then ks else ks ++ [k].

Definition key_order (l : list string) : list string :=
  fold_left add_key l [].

(* ================================================================== *)
(** * BaseVMwareInventory: the flattener and the dotted-path getter *)

(** The two list comprehensions and [sorted] at the head of the [except]
    branch of [_process_object_types], applied to what [dir] returned. *)
Definition public_properties (properties : list string) : list string :=
  sorted
    (filter (fun x => negb (denied x))
       (filter (fun x => negb (startswith_underscore x)) properties)).

Section Flattener.
Variable W : world.

(** [_process_object_types(vobj, level)].  [fuel] bounds the nesting of
    calls; running out of it is Python's [RecursionError].  [dir(vobj)]
    is evaluated in the [except] branch, outside any [try]: what it raises
    leaves the function. *)
Fixpoint process_object_types_fuel
    (fuel : nat) (vobj : pyval) (level : nat) : outcome pyval :=
  if json_dumps_ok vobj then Ok vobj
  else
    match py_dir W vobj with
    | Raise e => Raise e
    | Ok properties =>
        let body (acc : outcome (Dict.t (V:=pyval))) (prop : string) :=
          match acc with
          | Raise e => Raise e
          | Ok rdata =>
              match py_getattr W vobj prop with
              | Raise _ => Ok rdata                    (* continue *)
              | Ok propToSerialize =>
                  if py_callable W propToSerialize then Ok rdata
                  else if (level + 1 <=? 2)%nat then
                    match fuel with
                    | O => Raise RecursionError
                    | S fuel' =>
                        match process_object_types_fuel
                                fuel' propToSerialize (level + 1) with
                        | Ok v => Ok (Dict.set rdata (lower prop) v)
                        | Raise NoPermission => Ok rdata   (* pass *)
                        | Raise e => Raise e
                        end
                    end
                  else Ok rdata
              end
          end in
        match fold_left body (public_properties properties) (Ok []) with
        | Ok rdata => Ok (PDict rdata)
        | Raise e => Raise e
        end
    end.

Definition _process_object_types (vobj : pyval) (level : nat)
  : outcome pyval :=
  process_object_types_fuel (2 - level) vobj level.

(** [_get_object_prop(vm, attributes)] *)
Fixpoint _get_object_prop (result : pyval) (attributes : list string)
  : outcome pyval :=
  match attributes with
  | [] => Ok result
  | attribute :: rest =>
      match py_getattr W result attribute with
      | Raise e => if is_attr_or_index e then Ok PNone else Raise e
      | Ok r =>
          match _process_object_types r 0 with
          | Ok r' => _get_object_prop r' rest
          | Raise e => Raise e
          end
      end
  end.
End Flattener.


(* ================================================================== *)
(** * A concrete Python world, for examples *)

(** An object of the table: whether it is callable, the exception its
    [__dir__] raises, if it raises one, and its attributes. *)
Record pyobject : Type := {
  ob_callable : bool;
  ob_dir_fault : option exn;
  ob_attrs : list (string * outcome pyval)
}.

(** The public attributes of the built-in [dict] and [list] types; all of
    them are methods. *)
Definition dict_methods : list string :=
  ["clear"; "copy"; "fromkeys"; "get"; "items"; "keys"; "pop"; "popitem";
   "setdefault"; "update"; "values"].

Definition list_methods : list string :=
  ["append"; "clear"; "copy"; "count"; "extend"; "index"; "insert"; "pop";
   "remove"; "reverse"; "sort"].

(** Object 0 stands for a bound built-in method: callable, and [dir] of it
    lists only names that start with an underscore. *)
Definition builtin_method : pyval := PObj 0.

Definition heap_lookup (h : list (nat * pyobject)) (id : nat)
  : option pyobject :=
  match find (fun e => Nat.eqb (fst e) id) h with
  | Some e => Some (snd e)
  | None => None
  end.

(** A world whose objects are given by a table; only the public names of
    the built-in types are tabulated. *)
Definition world_of_heap (h : list (nat * pyobject)) : world := {|
  py_dir := fun v =>
    match v with
    | PObj 0 => Ok ["__call__"; "__name__"; "__self__"]
    | PObj id =>
        match heap_lookup h id with
        | Some o =>
            match ob_dir_fault o with
            | Some e => Raise e
            | None => Ok (map fst (ob_attrs o))
            end
        | None => Ok []
        end
    | PDict _ => Ok dict_methods
    | PList _ => Ok list_methods
    | _ => Ok []
    end;
  py_getattr := fun v name =>
    match v with
    | PObj 0 => Raise AttributeError
    | PObj id =>
        match heap_lookup h id with
        | Some o =>
            match Dict.get name (ob_attrs o) with
            | Some r => r
            | None => Raise AttributeError
            end
        | None => Raise AttributeError
        end
    | PDict _ =>
        if existsb (String.eqb name) dict_methods
        then Ok builtin_method else Raise AttributeError
    | PList _ =>
        if existsb (String.eqb name) list_methods
        then Ok builtin_method else Raise AttributeError
    | _ => Raise AttributeError
    end;
  py_callable := fun v =>
    match v with
    | PObj 0 => true
    | PObj id =>
        match heap_lookup h id with
        | Some o => ob_callable o
        | None => false
        end
    | _ => false
    end
|}.

(** A virtual machine object as pyVmomi shows it: [name] is a string,
    [config] a data object holding [hardware], [Array] a type, [Reload] a
    method, [parent] a property the session may not read, [_stub] private. *)
Definition sample_heap : list (nat * pyobject) :=
  [ (1, {| ob_callable := false; ob_dir_fault := None;
           ob_attrs := [ ("Array", Ok (PObj 5));
                         ("Reload", Ok (PObj 4));
                         ("_stub", Ok (PObj 5));
                         ("config", Ok (PObj 2));
                         ("name", Ok (PStr "web1"));
                         ("parent", Raise NoPermission) ] |});
    (2, {| ob_callable := false; ob_dir_fault := None;
           ob_attrs := [ ("hardware", Ok (PObj 3));
                         ("uuid", Ok (PStr "u1")) ] |});
    (3, {| ob_callable := false; ob_dir_fault := None;
           ob_attrs := [ ("numCPU", Ok (PInt 2)) ] |});
    (4, {| ob_callable := true; ob_dir_fault := None;
           ob_attrs := [] |});
    (5, {| ob_callable := true; ob_dir_fault := None;
           ob_attrs := [] |});
    (6, {| ob_callable := false; ob_dir_fault := None;
           ob_attrs := [ ("config", Ok (PObj 2));
                         ("name", Ok (PStr "web2")) ] |}) ].

Definition sample_world : world := world_of_heap sample_heap.
Definition sample_vm : pyval := PObj 1.

(** The same machine seen through a session in which listing the
    attributes of the hardware object fails: [dir] of object 3 raises. *)
Definition guarded_heap : list (nat * pyobject) :=
  [ (1, {| ob_callable := false; ob_dir_fault := None;
           ob_attrs := [ ("config", Ok (PObj 2));
                         ("name", Ok (PStr "web1"));
                         ("runtime", Ok (PObj 7)) ] |});
    (2, {| ob_callable := false; ob_dir_fault := None;
           ob_attrs := [ ("hardware", Ok (PObj 3));
                         ("uuid", Ok (PStr "u1")) ] |});
    (3, {| ob_callable := false;
           ob_dir_fault := Some (OtherError "RuntimeError");
           ob_attrs := [ ("numCPU", Ok (PInt 2)) ] |});
    (7, {| ob_callable := false; ob_dir_fault := None;
           ob_attrs := [ ("host", Ok (PObj 8));
                         ("overhead", Ok (PFloat 2.5%float)) ] |});
    (8, {| ob_callable := false; ob_dir_fault := Some NoPermission;
           ob_attrs := [ ("name", Ok (PStr "esx1")) ] |}) ].

Definition guarded_world : world := world_of_heap guarded_heap.

(* ================================================================== *)
(** * The inventory, the run state and its monad *)

(** Modelled from the spec: the host inventory collaborator and its
    add-group / add-host / add-child / set-variable / get-host primitives,
    which live outside this repository.  Groups map to their members, hosts
    to their variables; the primitives are taken to succeed. *)
Record inventory : Type := {
  inv_groups : Dict.t (V:=list string);
  inv_hosts : Dict.t (V:=Dict.t (V:=pyval))
}.

Definition inv_add_group (g : string) (i : inventory) : inventory :=
  if Dict.mem g (inv_groups i) then i
  else {| inv_groups := Dict.set (inv_groups i) g [];
          inv_hosts := inv_hosts i |}.

Definition inv_add_child (g child : string) (i : inventory) : inventory :=
  let members :=
    match Dict.get g (inv_groups i) with Some m => m | None => [] end in
  {| inv_groups :=
       Dict.set (inv_groups i) g
         (if existsb (String.eqb child) members then members
          else (members ++ [child])%list);
     inv_hosts := inv_hosts i |}.

Definition inv_add_host (h : string) (group : option string) (i : inventory)
  : inventory :=
  let i' :=
    if Dict.mem h (inv_hosts i) then i
    else {| inv_groups := inv_groups i;
            inv_hosts := Dict.set (inv_hosts i) h [] |} in
  match group with
  | Some g => inv_add_child g h i'
  | None => i'
  end.

Definition inv_set_variable (h varname : string) (value : pyval)
    (i : inventory) : inventory :=
  let vars :=
    match Dict.get h (inv_hosts i) with Some v => v | None => [] end in
  {| inv_groups := inv_groups i;
     inv_hosts := Dict.set (inv_hosts i) h (Dict.set vars varname value) |}.

(** [inventory.get_host(h)]: the host's name and variables, or [None]. *)
Definition inv_get_host (h : string) (i : inventory)
  : option (string * Dict.t (V:=pyval)) :=
  match Dict.get h (inv_hosts i) with
  | Some vars => Some (h, vars)
  | None => None
  end.

(** [VM.FilterSpec]: an unset dimension is [None]. *)
Record filter_spec : Type := {
  fs_datacenters : option (list string);
  fs_clusters : option (list string);
  fs_folders : option (list string);
  fs_hosts : option (list string);
  fs_resource_pools : option (list string)
}.

Definition empty_filter_spec : filter_spec :=
  {| fs_datacenters := None; fs_clusters := None; fs_folders := None;
     fs_hosts := None; fs_resource_pools := None |}.

Definition set_datacenters (s : filter_spec) (v : list string) :=
  {| fs_datacenters := Some v; fs_clusters := fs_clusters s;
     fs_folders := fs_folders s; fs_hosts := fs_hosts s;
     fs_resource_pools := fs_resource_pools s |}.

Definition set_clusters (s : filter_spec) (v : list string) :=
  {| fs_datacenters := fs_datacenters s; fs_clusters := Some v;
     fs_folders := fs_folders s; fs_hosts := fs_hosts s;
     fs_resource_pools := fs_resource_pools s |}.

Definition set_folders (s : filter_spec) (v : list string) :=
  {| fs_datacenters := fs_datacenters s; fs_clusters := fs_clusters s;
     fs_folders := Some v; fs_hosts := fs_hosts s;
     fs_resource_pools := fs_resource_pools s |}.

(** [set(l)]: the elements of [l], each once. *)
Definition py_set (l : list string) : list string := nodup string_dec l.

(** What a run leaves behind besides its result: the inventory, the
    warnings shown and the enumeration requests sent. *)
Inductive event : Type :=
| Warning (msg : string)
| ListedVMs (spec : filter_spec).

Record state : Type := {
  st_inventory : inventory;
  st_log : list event
}.

Definition M (A : Type) : Type := state -> outcome A * state.

Definition ret {A} (a : A) : M A := fun s => (Ok a, s).

Definition bind {A B} (m : M A) (k : A -> M B) : M B :=
  fun s =>
    match m s with
    | (Ok a, s') => k a s'
    | (Raise e, s') => (Raise e, s')
    end.

Definition raise {A} (e : exn) : M A := fun s => (Raise e, s).

Definition lift {A} (o : outcome A) : M A := fun s => (o, s).

Definition on_inventory (f : inventory -> inventory) : M unit :=
  fun s => (Ok tt, {| st_inventory := f (st_inventory s);
                      st_log := st_log s |}).

Definition emit (e : event) : M unit :=
  fun s => (Ok tt, {| st_inventory := st_inventory s;
                      st_log := st_log s ++ [e] |}).

Declare Scope run_scope.
Delimit Scope run_scope with run.
Notation "x <- c ;; k" := (bind c (fun x => k))
  (at level 61, c at next level, right associativity) : run_scope.
Notation "c ;;; k" := (bind c (fun _ => k))
  (at level 61, right associativity) : run_scope.
Open Scope run_scope.

(** [for x in l: acc = f(acc, x)], stopping at the first exception. *)
Fixpoint for_fold {A S} (f : S -> A -> M S) (l : list A) (acc : S) : M S :=
  match l with
  | [] => ret acc
  | x :: l' => acc' <- f acc x ;; for_fold f l' acc'
  end.

Definition for_each {A} (f : A -> M unit) (l : list A) : M unit :=
  for_fold (fun _ x => f x) l tt.

(* ================================================================== *)
(** * The backend and the configuration *)

Record vm_config : Type := {
  cfg_uuid : string;
  cfg_guestId : option string
}.

(** What the populator reads of a virtual machine: [vm_ref] is the object
    handed to the property getter, the other fields are the attributes the
    populator reads directly. *)
Record vm : Type := {
  vm_ref : pyval;
  vm_moid : string;
  vm_name : string;
  vm_config_of : option vm_config;          (* vm_obj.config *)
  vm_guest_ipAddress : option string;       (* vm_obj.guest.ipAddress *)
  vm_powerState : string;           (* str(vm_obj.summary.runtime.powerState) *)
  vm_customValue : list (Z * string)        (* (key, value) *)
}.

Record tag_model : Type := { tag_id : string; tag_name : string }.

(** The answers of the virtualization API; every call is taken to return. *)
Record backend : Type := {
  be_world : world;
  be_datacenters : string -> list string;   (* Datacenter.list, by name *)
  be_clusters : string -> list string;
  be_folders : string -> list string;
  be_hosts : string -> list string;
  be_resource_pools : string -> list string;
  be_vm_list : filter_spec -> list vm;
  be_tag_list : list string;                (* tag_svc.list() *)
  be_tag_get : string -> tag_model;         (* tag_svc.get(tag) *)
  be_attached_tags : string -> list string; (* list_attached_tags *)
  be_field_mgr : list (Z * string)   (* customFieldsManager.field: key, name *)
}.

(** The options the populator reads.  A filter list that is unset reads as
    the empty list: both are false in [if names:]. *)
Record options : Type := {
  opt_with_tags : bool;
  opt_properties : list string;
  opt_datacenters : list string;
  opt_clusters : list string;
  opt_folders : list string;
  opt_esxi_hostsystems : list string;
  opt_resource_pools : list string;
  opt_no_object_failure : string
}.

(** The defaults of the DOCUMENTATION block. *)
Definition default_options : options := {|
  opt_with_tags := false;
  opt_properties :=
    ["name"; "config.cpuHotAddEnabled"; "config.cpuHotRemoveEnabled";
     "config.instanceUuid"; "config.hardware.numCPU"; "config.template";
     "config.name"; "guest.hostName"; "guest.ipAddress"; "guest.guestId";
     "guest.guestState"; "runtime.maxMemoryUsage"; "customValue"];
  opt_datacenters := [];
  opt_clusters := [];
  opt_folders := [];
  opt_esxi_hostsystems := [];
  opt_resource_pools := [];
  opt_no_object_failure := "silent"
|}.

(** The result of a run, as cached: group entries [{'hosts': [...]}] and
    the reserved ['_meta'] entry [{'hostvars': {...}}]. *)
Inductive entry : Type :=
| Group (hosts : list string)
| Meta (hostvars : Dict.t (V:=Dict.t (V:=pyval))).

Definition snapshot : Type := Dict.t (V:=entry).

(** [s.split(".")] *)
Fixpoint split_dot_aux (s : string) (cur : string) : list string :=
  match s with
  | EmptyString => [cur]
  | String c s' =>
      if Ascii.eqb c "."%char then cur :: split_dot_aux s' EmptyString
      else split_dot_aux s' (cur ++ String c EmptyString)
  end.

Definition split_dot (s : string) : list string := split_dot_aux s "".

(** Python truth of an optional string: [None] and [''] are false. *)
Definition truthy (s : option string) : bool :=
  match s with
  | Some x => negb (String.eqb x "")
  | None => false
  end.

(* ================================================================== *)
(** * InventoryModule *)

(** The local variables of [_populate_from_source]. *)
Record locals : Type := {
  cacheable_results : snapshot;
  hostvars : Dict.t (V:=Dict.t (V:=pyval));
  tags_info : Dict.t (V:=string)
}.

Definition with_results (loc : locals) (cr : snapshot) : locals :=
  {| cacheable_results := cr; hostvars := hostvars loc;
     tags_info := tags_info loc |}.

(** [cacheable_results[group]['hosts'].append(host)] *)
Definition append_host (cr : snapshot) (group host : string)
  : outcome snapshot :=
  match Dict.get group cr with
  | None => Raise (KeyError group)
  | Some (Meta _) => Raise (KeyError "hosts")
  | Some (Group hosts) => Ok (Dict.set cr group (Group (hosts ++ [host])))
  end.

(** [cacheable_results['_meta']['hostvars'][name] = vars] *)
Definition record_hostvars (cr : snapshot) (name : string)
    (vars : Dict.t (V:=pyval)) : outcome snapshot :=
  match Dict.get "_meta" cr with
  | None => Raise (KeyError "_meta")
  | Some (Group _) => Raise (KeyError "hostvars")
  | Some (Meta hv) => Ok (Dict.set cr "_meta" (Meta (Dict.set hv name vars)))
  end.

(** [vm_obj.name + "_" + vm_obj.config.uuid] *)
Definition host_key (name uuid : string) : string := name ++ "_" ++ uuid.

Section InventoryModule.
Variable cfg : options.
Variable be : backend.

Definition display_warning (message : string) : M unit :=
  emit (Warning message).

Definition _handle_error (message : string) : M unit :=
  let no_object_failure := opt_no_object_failure cfg in
  if no_object_failure =? "warn" then display_warning message
  else if no_object_failure =? "error" then raise (AnsibleError message)
  else ret tt.

(** The loop each of the five blocks of [_get_vm_filter_spec] runs over
    its names: keep the first match, report a name without one. *)
Definition collect_references (list_by_name : string -> list string)
    (what : string) (names : list string) : M (list string) :=
  for_fold
    (fun temp name =>
       match list_by_name name with
       | first :: _ => ret (temp ++ [first])%list
       | [] =>
           _handle_error ("Unable to find " ++ what ++ " " ++ name) ;;;
           ret temp
       end)
    names [].

Definition is_set (names : list string) : bool :=
  match names with [] => false | _ :: _ => true end.

Definition _get_vm_filter_spec : M filter_spec :=
  let vm_filter_spec := empty_filter_spec in
  vm_filter_spec <-
    (let datacenters := opt_datacenters cfg in
     if is_set datacenters then
       temp_dcs <-
         collect_references (be_datacenters be) "datacenter" datacenters ;;
       ret (set_datacenters vm_filter_spec (py_set temp_dcs))
     else ret vm_filter_spec) ;;
  vm_filter_spec <-
    (let clusters := opt_clusters cfg in
     if is_set clusters then
       temp_clusters <-
         collect_references (be_clusters be) "cluster" clusters ;;
       ret (set_clusters vm_filter_spec (py_set temp_clusters))
     else ret vm_filter_spec) ;;
  vm_filter_spec <-
    (let folders := opt_folders cfg in
     if is_set folders then
       temp_folders <-
         collect_references (be_folders be) "folder" folders ;;
       ret (set_folders vm_filter_spec (py_set temp_folders))
     else ret vm_filter_spec) ;;
  vm_filter_spec <-
    (let esxi_hosts := opt_esxi_hostsystems cfg in
     if is_set esxi_hosts then
       temp_hosts <-
         collect_references (be_hosts be) "esxi hostsystem" esxi_hosts ;;
       (* vm_filter_spec.folders = set(temp_hosts) *)
       ret (set_folders vm_filter_spec (py_set temp_hosts))
     else ret vm_filter_spec) ;;
  vm_filter_spec <-
    (let resource_pools := opt_resource_pools cfg in
     if is_set resource_pools then
       temp_rps <-
         collect_references (be_resource_pools be) "resource pool"
           resource_pools ;;
       (* vm_filter_spec.folders = set(temp_rps) *)
       ret (set_folders vm_filter_spec (py_set temp_rps))
     else ret vm_filter_spec) ;;
  ret vm_filter_spec.

(** Modelled from the spec: [BaseInventoryPlugin._populate_host_vars] of
    the orchestration host, which adds each host to the group and sets
    its variables. *)
Definition _populate_host_vars (hosts : list string)
    (variables : Dict.t (V:=pyval)) (group : string) : M unit :=
  for_each
    (fun host =>
       on_inventory (inv_add_host host (Some group)) ;;;
       for_each
         (fun kv => on_inventory (inv_set_variable host (fst kv) (snd kv)))
         variables)
    hosts.

(** [_populate_from_cache(source_data)].  [source_data] is mutated in
    place; the function returns the object as it leaves it. *)
Definition _populate_from_cache (source_data : snapshot) : M snapshot :=
  let hostvars :=
    match Dict.get "_meta" source_data with
    | Some (Meta hv) => hv
    | _ => []
    end in
  let source_data := Dict.remove "_meta" source_data in  (* pop('_meta') *)
  for_each
    (fun ge : string * entry =>
       let group := fst ge in
       if group =? "all" then ret tt
       else
         on_inventory (inv_add_group group) ;;;
         let hosts :=
           match snd ge with Group hs => hs | Meta _ => [] end in
         for_each
           (fun host =>
              _populate_host_vars [host]
                (match Dict.get host hostvars with
                 | Some vars => vars
                 | None => []
                 end)
                group)
           hosts ;;;
         on_inventory (inv_add_child "all" group))
    source_data ;;;
  ret source_data.

Definition _populate_host_properties (vm_obj : vm) (current_host : string)
  : M unit :=
  let vm_properties := opt_properties cfg in
  let field_mgr := be_field_mgr be in
  for_each
    (fun vm_prop =>
       if vm_prop =? "customValue" then
         for_each
           (fun cust_value : Z * string =>
              match
                filter (fun y => Z.eqb (fst y) (fst cust_value)) field_mgr
              with
              | y :: _ =>
                  on_inventory
                    (inv_set_variable current_host (snd y)
                       (PStr (snd cust_value)))
              | [] => raise IndexError
              end)
           (vm_customValue vm_obj)
       else
         vm_value <-
           lift (_get_object_prop (be_world be) (vm_ref vm_obj)
                   (split_dot vm_prop)) ;;
         on_inventory (inv_set_variable current_host vm_prop vm_value))
    vm_properties.

(** The tag pass that precedes the loop over the objects. *)
Definition load_tags (loc : locals) : M locals :=
  for_fold
    (fun loc tag =>
       let tag_obj := be_tag_get be tag in
       let tags_info' :=
         Dict.set (tags_info loc) (tag_id tag_obj) (tag_name tag_obj) in
       if negb (Dict.mem (tag_name tag_obj) (cacheable_results loc)) then
         on_inventory (inv_add_group (tag_name tag_obj)) ;;;
         ret {| cacheable_results :=
                  Dict.set (cacheable_results loc) (tag_name tag_obj)
                    (Group []);
                hostvars := hostvars loc;
                tags_info := tags_info' |}
       else
         ret {| cacheable_results := cacheable_results loc;
                hostvars := hostvars loc;
                tags_info := tags_info' |})
    (be_tag_list be) loc.

(** The group memberships of a host seen for the first time: tags, power
    state, guest id.  Returns the updated [cacheable_results]. *)
Definition tag_groups (tags : Dict.t (V:=string)) (vm_obj : vm)
    (current_host : string) (cr : snapshot) : M snapshot :=
  if opt_with_tags cfg then
    for_fold
      (fun cr tag_id =>
         match Dict.get tag_id tags with
         | None => raise (KeyError tag_id)
         | Some name =>
             on_inventory (inv_add_child name current_host) ;;;
             lift (append_host cr name current_host)
         end)
      (be_attached_tags be (vm_moid vm_obj)) cr
  else ret cr.

Definition power_group (vm_obj : vm) (current_host : string)
    (cr : snapshot) : M snapshot :=
  let vm_power := vm_powerState vm_obj in
  cr <-
    (if negb (Dict.mem vm_power cr) then
       on_inventory (inv_add_group vm_power) ;;;
       ret (Dict.set cr vm_power (Group []))
     else ret cr) ;;
  cr <- lift (append_host cr vm_power current_host) ;;
  on_inventory (inv_add_child vm_power current_host) ;;;
  ret cr.

Definition guest_group (c : vm_config) (current_host : string)
    (cr : snapshot) : M snapshot :=
  let vm_guest_id := cfg_guestId c in
  cr <-
    (match vm_guest_id with
     | Some g =>
         if truthy vm_guest_id && negb (Dict.mem g cr) then
           on_inventory (inv_add_group g) ;;;
           ret (Dict.set cr g (Group []))
         else ret cr
     | None => ret cr
     end) ;;
  (* cacheable_results[vm_guest_id]['hosts'].append(current_host) *)
  match vm_guest_id with
  | None => raise (KeyError "None")
  | Some g =>
      cr <- lift (append_host cr g current_host) ;;
      on_inventory (inv_add_child g current_host) ;;;
      ret cr
  end.

(** One turn of [for o in objects]. *)
Definition process_vm (loc : locals) (vm_obj : vm) : M locals :=
  match vm_config_of vm_obj with
  | None => ret loc                                      (* continue *)
  | Some c =>
      let current_host := host_key (vm_name vm_obj) (cfg_uuid c) in
      if negb (Dict.mem current_host (hostvars loc)) then
        let hostvars' := Dict.set (hostvars loc) current_host [] in
        on_inventory (inv_add_host current_host None) ;;;
        (let host_ip := vm_guest_ipAddress vm_obj in
         match host_ip with
         | Some ip =>
             if truthy host_ip then
               on_inventory
                 (inv_set_variable current_host "ansible_host" (PStr ip))
             else ret tt
         | None => ret tt
         end) ;;;
        _populate_host_properties vm_obj current_host ;;;
        cr <- tag_groups (tags_info loc) vm_obj current_host
                (cacheable_results loc) ;;
        cr <- power_group vm_obj current_host cr ;;
        cr <- guest_group c current_host cr ;;
        ret {| cacheable_results := cr; hostvars := hostvars';
               tags_info := tags_info loc |}
      else ret loc
  end.

Definition process_objects (objects : list vm) (loc : locals) : M locals :=
  for_fold process_vm objects loc.

(** The closing loop [for host in hostvars]. *)
Definition collect_hostvars (loc : locals) : M snapshot :=
  for_fold
    (fun cr host =>
       fun s =>
         match inv_get_host host (st_inventory s) with
         | None => (Raise AttributeError, s)     (* h is None: h.name *)
         | Some (name, vars) => (record_hostvars cr name vars, s)
         end)
    (Dict.keys (hostvars loc)) (cacheable_results loc).

(** The live branch of [_populate_from_source], from the call of
    [VM.list] on. *)
Definition enumerate (vm_filter_spec : filter_spec) : M snapshot :=
  let loc := {| cacheable_results := [("_meta", Meta [])];
                hostvars := [];
                tags_info := [] |} in
  emit (ListedVMs vm_filter_spec) ;;;
  let objects := be_vm_list be vm_filter_spec in
  loc <- (if opt_with_tags cfg then load_tags loc else ret loc) ;;
  loc <- process_objects objects loc ;;
  collect_hostvars loc.

Definition populate_live : M snapshot :=
  vm_filter_spec <- _get_vm_filter_spec ;;
  enumerate vm_filter_spec.

Definition _populate_from_source (source_data : option snapshot)
    (using_current_cache : bool) : M snapshot :=
  if using_current_cache then
    match source_data with
    | Some source_data => _populate_from_cache source_data
    | None => raise AttributeError           (* None has no pop *)
    end
  else populate_live.
End InventoryModule.

Definition initial_state : state :=
  {| st_inventory := {| inv_groups := [("all", []); ("ungrouped", [])];
                        inv_hosts := [] |};
     st_log := [] |}.

(* ================================================================== *)
(** * A small backend, for examples *)

Definition web1 : vm := {|
  vm_ref := PObj 1; vm_moid := "vm-1"; vm_name := "web1";
  vm_config_of :=
    Some {| cfg_uuid := "u1"; cfg_guestId := Some "otherLinux64Guest" |};
  vm_guest_ipAddress := Some "10.0.0.5";
  vm_powerState := "poweredOn";
  vm_customValue := [(101%Z, "alice")]
|}.

Definition web2 : vm := {|
  vm_ref := PObj 6; vm_moid := "vm-2"; vm_name := "web2";
  vm_config_of :=
    Some {| cfg_uuid := "u2"; cfg_guestId := Some "windows9Server64Guest" |};
  vm_guest_ipAddress := None;
  vm_powerState := "poweredOff";
  vm_customValue := []
|}.

(** A second machine named web1, with its own unique id. *)
Definition web1_clone : vm := {|
  vm_ref := PObj 1; vm_moid := "vm-3"; vm_name := "web1";
  vm_config_of :=
    Some {| cfg_uuid := "u3"; cfg_guestId := Some "otherLinux64Guest" |};
  vm_guest_ipAddress := None;
  vm_powerState := "poweredOff";
  vm_customValue := []
|}.

(** A machine whose configuration reports no guest OS id. *)
Definition no_guest_vm : vm := {|
  vm_ref := PObj 1; vm_moid := "vm-4"; vm_name := "bare";
  vm_config_of := Some {| cfg_uuid := "u4"; cfg_guestId := None |};
  vm_guest_ipAddress := None;
  vm_powerState := "poweredOff";
  vm_customValue := []
|}.

(** A machine carrying a custom value whose field definition is gone. *)
Definition stale_field_vm : vm := {|
  vm_ref := PObj 1; vm_moid := "vm-5"; vm_name := "old";
  vm_config_of :=
    Some {| cfg_uuid := "u5"; cfg_guestId := Some "otherLinux64Guest" |};
  vm_guest_ipAddress := None;
  vm_powerState := "poweredOn";
  vm_customValue := [(101%Z, "alice"); (202%Z, "orphan")]
|}.

Definition by_name (known ref : string) (name : string) : list string :=
  if name =? known then [ref] else [].

Definition sample_backend (vms : list vm) : backend := {|
  be_world := sample_world;
  be_datacenters := by_name "dc1" "datacenter-1";
  be_clusters := by_name "cl1" "domain-c1";
  be_folders := by_name "dev" "group-v1";
  be_hosts := by_name "esx1" "host-1";
  be_resource_pools := by_name "rp1" "resgroup-1";
  be_vm_list := fun _ => vms;
  be_tag_list := ["tag-1"];
  be_tag_get := fun id => {| tag_id := id; tag_name := "prod" |};
  be_attached_tags := fun moid => if moid =? "vm-1" then ["tag-1"] else [];
  be_field_mgr := [(101%Z, "owner")]
|}.

Definition sample_options : options := {|
  opt_with_tags := false;
  opt_properties := ["name"; "guest.ipAddress"];
  opt_datacenters := [];
  opt_clusters := [];
  opt_folders := [];
  opt_esxi_hostsystems := [];
  opt_resource_pools := [];
  opt_no_object_failure := "silent"
|}.

Definition with_filters (o : options) (folders esxi rps : list string)
    (policy : string) : options := {|
  opt_with_tags := opt_with_tags o;
  opt_properties := opt_properties o;
  opt_datacenters := opt_datacenters o;
  opt_clusters := opt_clusters o;
  opt_folders := folders;
  opt_esxi_hostsystems := esxi;
  opt_resource_pools := rps;
  opt_no_object_failure := policy
|}.

Definition with_properties (o : options) (tags : bool) (props : list string)
  : options := {|
  opt_with_tags := tags;
  opt_properties := props;
  opt_datacenters := opt_datacenters o;
  opt_clusters := opt_clusters o;
  opt_folders := opt_folders o;
  opt_esxi_hostsystems := opt_esxi_hostsystems o;
  opt_resource_pools := opt_resource_pools o;
  opt_no_object_failure := opt_no_object_failure o
|}.


(** A snapshot as a live run over web1 leaves it in the cache. *)
Definition sample_snapshot : snapshot :=
  [ ("_meta",
     Meta [("web1_u1", [("ansible_host", PStr "10.0.0.5");
                        ("name", PStr "web1")])]);
    ("poweredOn", Group ["web1_u1"]);
    ("otherLinux64Guest", Group ["web1_u1"]) ].

(* ================================================================== *)
(** * Definitions used to state the properties *)

(** The body of the loop of [_process_object_types], with the recursive
    call made explicit ([None]: no call is left). *)
Definition flatten_body (W : world)
    (recur : option (pyval -> nat -> outcome pyval))
    (vobj : pyval) (level : nat)
    (acc : outcome (Dict.t (V:=pyval))) (prop : string)
  : outcome (Dict.t (V:=pyval)) :=
  match acc with
  | Raise e => Raise e
  | Ok rdata =>
      match py_getattr W vobj prop with
      | Raise _ => Ok rdata
      | Ok propToSerialize =>
          if py_callable W propToSerialize then Ok rdata
          else if (level + 1 <=? 2)%nat then
            match recur with
            | None => Raise RecursionError
            | Some f =>
                match f propToSerialize (level + 1) with
                | Ok v => Ok (Dict.set rdata (lower prop) v)
                | Raise NoPermission => Ok rdata
                | Raise e => Raise e
                end
            end
          else Ok rdata
      end
  end.


(** The attribute is kept in the result: it can be read, it is not
    callable, and flattening it one level down returns. *)
Definition kept (W : world) (vobj : pyval) (level : nat) (prop : string)
  : bool :=
  match py_getattr W vobj prop with
  | Ok p =>
      negb (py_callable W p)
      && match _process_object_types W p (level + 1) with
         | Ok _ => true
         | Raise _ => false
         end
  | Raise _ => false
  end.

(** The keys a flattened object gets when [dir] returned [properties]:
    one per attribute that is kept, lower-cased, in the order of the sorted
    names. *)
Definition flattened_keys (W : world) (vobj : pyval) (level : nat)
    (properties : list string) : list string :=
  key_order
    (map lower (filter (kept W vobj level) (public_properties properties))).

(** Where an entry of a flattened object comes from: an attribute that was
    read, holds data, and was flattened one level down. *)
Definition entry_origin (W : world) (properties : list string)
    (vobj : pyval) (level : nat) (k : string) (v : pyval) : Prop :=
  exists prop p,
    In prop (public_properties properties) /\ lower prop = k
    /\ py_getattr W vobj prop = Ok p /\ py_callable W p = false
    /\ _process_object_types W p (level + 1) = Ok v.

(** The exception left a call of [dir]. *)
Definition raised_by_dir (W : world) (e : exn) : Prop :=
  exists v, py_dir W v = Raise e.

(** Where an exception of the loop of the flattener comes from: the
    flattening, one level down, of an attribute that was read and holds
    data; the permission fault is not among them. *)
Definition raise_origin (W : world) (vobj : pyval) (level : nat) (e : exn)
  : Prop :=
  e <> NoPermission /\ level + 1 <= 2
  /\ exists properties prop p,
       py_dir W vobj = Ok properties
       /\ In prop (public_properties properties)
       /\ py_getattr W vobj prop = Ok p /\ py_callable W p = false
       /\ _process_object_types W p (level + 1) = Raise e.

(** What a call of the flattener one level down may hand to the loop. *)
Definition flattened_or_dir_fault (W : world) (o : outcome pyval) : Prop :=
  match o with
  | Ok v => json_dumps_ok v = true
  | Raise e => raised_by_dir W e
  end.

(** One of the five blocks of [_get_vm_filter_spec]: [setter] is the field
    of the filter the block assigns. *)
Definition category_block (cfg : options)
    (list_by_name : string -> list string) (what : string)
    (names : list string) (setter : filter_spec -> list string -> filter_spec)
    (vm_filter_spec : filter_spec) : M filter_spec :=
  if is_set names then
    temp <- collect_references cfg list_by_name what names ;;
    ret (setter vm_filter_spec (py_set temp))
  else ret vm_filter_spec.

(** The references a category keeps: the first match of every name that
    has one. *)
Definition resolved (list_by_name : string -> list string)
    (names : list string) : list string :=
  flat_map
    (fun name =>
       match list_by_name name with first :: _ => [first] | [] => [] end)
    names.

(** The names of a category without any match, with the word the message
    uses for the category. *)
Definition misses (list_by_name : string -> list string) (what : string)
    (names : list string) : list (string * string) :=
  map (fun name => (what, name))
    (filter
       (fun name => match list_by_name name with [] => true | _ => false end)
       names).

(** All configured filter names without a match, in the order in which
    [_get_vm_filter_spec] looks them up. *)
Definition unresolved (cfg : options) (be : backend)
  : list (string * string) :=
  (misses (be_datacenters be) "datacenter" (opt_datacenters cfg)
   ++ misses (be_clusters be) "cluster" (opt_clusters cfg)
   ++ misses (be_folders be) "folder" (opt_folders cfg)
   ++ misses (be_hosts be) "esxi hostsystem" (opt_esxi_hostsystems cfg)
   ++ misses (be_resource_pools be) "resource pool"
        (opt_resource_pools cfg))%list.

Definition not_found_message (what name : string) : string :=
  "Unable to find " ++ what ++ " " ++ name.

(** The host key of a machine that has a configuration. *)
Definition key_of (o : vm) : option string :=
  match vm_config_of o with
  | Some c => Some (host_key (vm_name o) (cfg_uuid c))
  | None => None
  end.

(** What one turn of the loop over the objects does to [hostvars]. *)
Definition note_host (hv : Dict.t (V:=Dict.t (V:=pyval))) (o : vm)
  : Dict.t (V:=Dict.t (V:=pyval)) :=
  match key_of o with
  | Some k => if Dict.mem k hv then hv else Dict.set hv k []
  | None => hv
  end.

Definition note_hosts (hv : Dict.t (V:=Dict.t (V:=pyval)))
    (objects : list vm) : Dict.t (V:=Dict.t (V:=pyval)) :=
  fold_left note_host objects hv.

(** Every member of every group is a key of [hv]. *)
Definition groups_within (hv : Dict.t (V:=Dict.t (V:=pyval)))
    (cr : snapshot) : Prop :=
  forall g hosts h,
    In (g, Group hosts) cr -> In h hosts -> Dict.mem h hv = true.

(** The snapshot invariant: every member of a group has host variables. *)
Definition members_have_hostvars (snap : snapshot) : Prop :=
  forall g hosts h,
    In (g, Group hosts) snap -> In h hosts ->
    exists hv, Dict.get "_meta" snap = Some (Meta hv)
               /\ Dict.mem h hv = true.

(* ================================================================== *)
(** * BaseVMwareInventory: requirements and sessions *)

(** The two error classes the session code raises. *)
Inductive login_error : Type :=
| ParserError (msg : string)      (* AnsibleParserError *)
| PluginError (msg : string).     (* AnsibleError *)

Inductive result (A : Type) : Type :=
| Done (a : A)
| Failed (e : login_error).
Arguments Done {A} a.
Arguments Failed {A} e.

(** What the interpreter offers: which libraries import, the version the
    requests library reports, and whether ssl has SSLContext. *)
Record environment : Type := {
  HAS_REQUESTS : bool;
  HAS_PYVMOMI : bool;
  HAS_VSPHERE : bool;
  requests_version : string;
  has_SSLContext : bool
}.

(** The fields [BaseVMwareInventory.__init__] stores. *)
Record connection : Type := {
  conn_hostname : string;
  conn_username : string;
  conn_password : string;
  conn_port : option Z;
  conn_validate_certs : bool;
  conn_with_tags : bool
}.

Definition dquote : string := String (ascii_of_nat 34) EmptyString.

(** [str(port)] *)
Definition str_port (port : option Z) : string :=
  match port with
  | Some z => NilZero.string_of_int (Z.to_int z)
  | None => "None"
  end.

(** The truth of a port: [None] and 0 are false. *)
Definition port_is_set (port : option Z) : bool :=
  match port with
  | Some z => negb (Z.eqb z 0)
  | None => false
  end.

(** [a < b] on tuples of integers. *)
Fixpoint tuple_lt (a b : list Z) : bool :=
  match a, b with
  | _, [] => false
  | [], _ :: _ => true
  | x :: a', y :: b' =>
      if (x <? y)%Z then true
      else if (y <? x)%Z then false
      else tuple_lt a' b'
  end.

(** [tuple(map(int, l))]: [None] stands for the ValueError of a component
    that is not a number.  The conversion [int] is a parameter. *)
Fixpoint map_int (py_int : string -> option Z) (l : list string)
  : option (list Z) :=
  match l with
  | [] => Some []
  | x :: l' =>
      match py_int x with
      | None => None
      | Some z =>
          match map_int py_int l' with
          | None => None
          | Some zs => Some (z :: zs)
          end
      end
  end.

(** [int] on plain decimal numerals. *)
Definition decimal_int (x : string) : option Z :=
  option_map Z.of_int (NilZero.int_of_string x).

Definition check_requirements (py_int : string -> option Z)
    (env : environment) (c : connection) : result unit :=
  if negb (HAS_REQUESTS env) then
    Failed (ParserError
              ("Please install " ++ dquote ++ "requests" ++ dquote
               ++ " Python module as this is required"
               ++ " for VMware Guest dynamic inventory plugin."))
  else if negb (HAS_PYVMOMI env) then
    Failed (ParserError
              ("Please install " ++ dquote ++ "PyVmomi" ++ dquote
               ++ " Python module as this is required"
               ++ " for VMware Guest dynamic inventory plugin."))
  else
    let required_version := [2%Z; 3%Z] in
    let requests_version_parts :=
      firstn 2 (split_dot (requests_version env)) in
    match map_int py_int requests_version_parts with
    | None =>
        Failed (ParserError "Failed to parse 'requests' library version.")
    | Some requests_major_minor =>
        if tuple_lt requests_major_minor required_version then
          Failed (ParserError
                    ("'requests' library version should"
                     ++ " be >= " ++ "2.3" ++ ", found: "
                     ++ requests_version env ++ "."))
        else if negb (HAS_VSPHERE env) && conn_with_tags c then
          Failed (PluginError
                    ("Unable to find 'vSphere Automation SDK' Python library which is required."
                     ++ " Please refer this URL for installation steps"
                     ++ " - https://code.vmware.com/web/sdk/65/vsphere-automation-python"))
        else if negb (negb (conn_hostname c =? "")
                      && negb (conn_username c =? "")
                      && negb (conn_password c =? "")) then
          Failed (PluginError
                    ("Missing one of the following : hostname, username, password. Please read "
                     ++ "the documentation for more information."))
        else Done tt
    end.

(** The one TLS context the code builds: protocol SSLv23 with
    verify_mode CERT_NONE. *)
Inductive ssl_context : Type := PermissiveContext.

(** The exceptions of [connect.SmartConnect] the code tells apart; the
    text is [e.msg], or [str(e)] where the code formats [e]. *)
Inductive connect_fault : Type :=
| InvalidLogin (msg : string)
| NoPermissionFault (msg : string)
| ConnectionError (text : string)
| SSLError (text : string)
| InvalidRequest (msg : string)
| OtherException (text : string).

Inductive connect_answer : Type :=
| Connected (service_instance : option nat)
| Fault (f : connect_fault).

(** What the two client libraries answer; sessions are handles. *)
Record network : Type := {
  smart_connect :
    string -> string -> string -> option ssl_context -> option Z ->
    connect_answer;
  retrieve_content : nat -> nat;
  create_vsphere_client : string -> string -> string -> bool -> option nat
}.

(** The calls a login makes, in order. *)
Inductive call : Type :=
| SmartConnect (host user pwd : string) (sslContext : option ssl_context)
    (port : option Z)
| RegisterDisconnect (service_instance : nat)
| RetrieveContent (service_instance : nat)
| DisableWarnings
| CreateClient (server user pwd : string) (verify : bool).

Definition _login (env : environment) (net : network) (c : connection)
  : result (nat * nat) * list call :=
  if conn_validate_certs c && negb (has_SSLContext env) then
    (Failed (PluginError
               ("pyVim does not support changing verification mode with python < 2.7.9. Either update "
                ++ "python or set validate_certs to false in configuration YAML file.")),
     [])
  else
    let ssl_context :=
      if negb (conn_validate_certs c) && has_SSLContext env
      then Some PermissiveContext else None in
    let hostname := conn_hostname c in
    let username := conn_username c in
    let port := str_port (conn_port c) in
    let attempt :=
      SmartConnect hostname username (conn_password c) ssl_context
        (conn_port c) in
    match smart_connect net hostname username (conn_password c) ssl_context
            (conn_port c) with
    | Fault (InvalidLogin msg) =>
        (Failed (ParserError
                   ("Unable to log on to vCenter or ESXi API at " ++ hostname
                    ++ ":" ++ port ++ " as " ++ username ++ ": " ++ msg)),
         [attempt])
    | Fault (NoPermissionFault msg) =>
        (Failed (ParserError
                   ("User " ++ username ++ " does not have required permission"
                    ++ " to log on to vCenter or ESXi API at " ++ hostname
                    ++ ":" ++ port ++ " : " ++ msg)),
         [attempt])
    | Fault (ConnectionError text) | Fault (SSLError text) =>
        (Failed (ParserError
                   ("Unable to connect to vCenter or ESXi API at " ++ hostname
                    ++ " on TCP/" ++ port ++ ": " ++ text)),
         [attempt])
    | Fault (InvalidRequest msg) =>
        (Failed (ParserError
                   ("Failed to get a response from server " ++ hostname
                    ++ ":" ++ port ++ " as "
                    ++ "request is malformed: " ++ msg)),
         [attempt])
    | Fault (OtherException text) =>
        (Failed (ParserError
                   ("Unknown error while connecting to vCenter or ESXi API at "
                    ++ hostname ++ ":" ++ port ++ " : " ++ text)),
         [attempt])
    | Connected None =>
        (Failed (ParserError
                   ("Unknown error while connecting to vCenter or ESXi API at "
                    ++ hostname ++ ":" ++ port)),
         [attempt])
    | Connected (Some service_instance) =>
        (Done (service_instance, retrieve_content net service_instance),
         [attempt; RegisterDisconnect service_instance;
          RetrieveContent service_instance])
    end.

Definition _login_vapi (net : network) (c : connection)
  : result nat * list call :=
  let verify := conn_validate_certs c in
  let warnings := if negb (conn_validate_certs c) then [DisableWarnings]
                  else [] in
  let server := conn_hostname c in
  let server :=
    if port_is_set (conn_port c)
    then server ++ ":" ++ str_port (conn_port c) else server in
  let calls :=
    (warnings
     ++ [CreateClient server (conn_username c) (conn_password c) verify])%list
  in
  match create_vsphere_client net server (conn_username c) (conn_password c)
          verify with
  | None =>
      (Failed (PluginError
                 ("Failed to login to " ++ server ++ " using "
                  ++ conn_username c)), calls)
  | Some client => (Done client, calls)
  end.

(** The sessions [do_login] stores: [si], [content], [rest_content]. *)
Record sessions : Type := {
  si : nat;
  content : nat;
  rest_content : nat
}.

Definition do_login (py_int : string -> option Z) (env : environment)
    (net : network) (c : connection) : result sessions * list call :=
  match check_requirements py_int env c with
  | Failed e => (Failed e, [])
  | Done _ =>
      match _login env net c with
      | (Failed e, calls) => (Failed e, calls)
      | (Done (service_instance, content), calls) =>
          match _login_vapi net c with
          | (Failed e, calls') => (Failed e, (calls ++ calls')%list)
          | (Done client, calls') =>
              (Done {| si := service_instance; content := content;
                       rest_content := client |},
               (calls ++ calls')%list)
          end
      end
  end.

(* ================================================================== *)
(** * InventoryModule: the entry points *)




(** The connection options [parse] reads besides [with_tags]. *)
Record login_options : Type := {
  opt_hostname : string;
  opt_username : string;
  opt_password : string;
  opt_port : option Z;
  opt_validate_certs : bool
}.

(** [BaseVMwareInventory(hostname=..., with_tags=..., ...)] *)
Definition BaseVMwareInventory (lo : login_options) (with_tags : bool)
  : connection :=
  {| conn_hostname := opt_hostname lo;
     conn_username := opt_username lo;
     conn_password := opt_password lo;
     conn_port := opt_port lo;
     conn_validate_certs := opt_validate_certs lo;
     conn_with_tags := with_tags |}.

(** How [parse] ends: on a failed login, or with the outcome of the
    population, the value written to the cache, if any, and the state. *)
Inductive parse_result : Type :=
| LoginFailed (e : login_error)
| Populated (r : outcome snapshot) (cache_write : option snapshot)
    (s : state).

(** [parse(inventory, loader, path, cache)], from the construction of the
    connection on.  [opt_cache] is the option cache, [cached] is what the
    cache holds under the key of the run. *)
Definition parse (py_int : string -> option Z) (env : environment)
    (net : network) (lo : login_options) (cfg : options) (be : backend)
    (cache : bool) (opt_cache : bool) (cached : option snapshot)
    (s : state) : parse_result * list call :=
  let pyv := BaseVMwareInventory lo (opt_with_tags cfg) in
  match do_login py_int env net pyv with
  | (Failed e, calls) => (LoginFailed e, calls)
  | (Done _, calls) =>
      match check_requirements py_int env pyv with
      | Failed e => (LoginFailed e, calls)
      | Done _ =>
          let cache := if cache then opt_cache else cache in
          let lookup :=
            if cache then
              match cached with
              | Some source_data => (Some source_data, false)
              | None => (None, true)                    (* KeyError *)
              end
            else (None, false) in
          let source_data := fst lookup in
          let update_cache := snd lookup in
          let using_current_cache := cache && negb update_cache in
          match
            _populate_from_source cfg be source_data using_current_cache s
          with
          | (Ok cacheable_results, s') =>
              (Populated (Ok cacheable_results)
                 (if update_cache then Some cacheable_results else None) s',
               calls)
          | (Raise e, s') => (Populated (Raise e) None s', calls)
          end
      end
  end.

(** The message names [x]. *)
Definition mentions (msg x : string) : Prop :=
  exists pre post, msg = pre ++ x ++ post.

(** The server name the REST client is created for. *)
Definition rest_server (c : connection) : string :=
  if port_is_set (conn_port c)
  then conn_hostname c ++ ":" ++ str_port (conn_port c)
  else conn_hostname c.

(** The TLS context the enumeration login passes on. *)
Definition login_context (env : environment) (c : connection)
  : option ssl_context :=
  if negb (conn_validate_certs c) && has_SSLContext env
  then Some PermissiveContext else None.

(** A workstation with everything installed, and a server that answers. *)
Definition sample_environment : environment :=
  {| HAS_REQUESTS := true; HAS_PYVMOMI := true; HAS_VSPHERE := true;
     requests_version := "2.25.1"; has_SSLContext := true |}.

Definition sample_login_options : login_options :=
  {| opt_hostname := "vcenter.example"; opt_username := "admin";
     opt_password := "secret"; opt_port := Some 443%Z;
     opt_validate_certs := false |}.

Definition sample_network : network :=
  {| smart_connect := fun _ _ pwd _ _ =>
       if pwd =? "secret" then Connected (Some 7)
       else Fault (InvalidLogin "Cannot complete login.");
     retrieve_content := fun service_instance => service_instance + 1;
     create_vsphere_client := fun _ _ _ _ => Some 9 |}.

Definition with_version (env : environment) (version : string)
  : environment :=
  {| HAS_REQUESTS := HAS_REQUESTS env; HAS_PYVMOMI := HAS_PYVMOMI env;
     HAS_VSPHERE := HAS_VSPHERE env; requests_version := version;
     has_SSLContext := has_SSLContext env |}.

Definition with_password (lo : login_options) (pwd : string)
  : login_options :=
  {| opt_hostname := opt_hostname lo; opt_username := opt_username lo;
     opt_password := pwd; opt_port := opt_port lo;
     opt_validate_certs := opt_validate_certs lo |}.

(* ================================================================== *)
(** * Further definitions used to state properties of the code *)

(** A run keeps a property of the state, however it ends. *)
Definition preserves {A : Type} (P : state -> Prop) (m : M A) : Prop :=
  forall s r s', P s -> m s = (r, s') -> P s'.

(** One dimension of the filter, as a block computes it. *)
Definition dimension (list_by_name : string -> list string)
    (names : list string) : option (list string) :=
  if is_set names then Some (py_set (resolved list_by_name names)) else None.

(** The filter [_get_vm_filter_spec] returns when it returns: the folders
    dimension is assigned by the folder, host-system and resource-pool
    blocks in turn, so the last configured one of them is what it holds. *)
Definition expected_filter_spec (cfg : options) (be : backend)
  : filter_spec :=
  {| fs_datacenters := dimension (be_datacenters be) (opt_datacenters cfg);
     fs_clusters := dimension (be_clusters be) (opt_clusters cfg);
     fs_folders :=
       if is_set (opt_resource_pools cfg) then
         dimension (be_resource_pools be) (opt_resource_pools cfg)
       else if is_set (opt_esxi_hostsystems cfg) then
         dimension (be_hosts be) (opt_esxi_hostsystems cfg)
       else dimension (be_folders be) (opt_folders cfg);
     fs_hosts := None;
     fs_resource_pools := None |}.

(** The warnings of a run under the warn policy. *)
Definition warnings_of (cfg : options) (be : backend) : list event :=
  map (fun m => Warning (not_found_message (fst m) (snd m)))
    (unresolved cfg be).

Definition log_more (s : state) (events : list event) : state :=
  {| st_inventory := st_inventory s;
     st_log := (st_log s ++ events)%list |}.

(** The host keys of the machines that have a configuration, in the order
    of the objects. *)
Definition keys_of (objects : list vm) : list string :=
  flat_map (fun o => match key_of o with Some k => [k] | None => [] end)
    objects.

(** The tag table the tag pass builds: tag id to tag name. *)
Definition tag_table (be : backend) : Dict.t (V:=string) :=
  fold_left
    (fun d tag =>
       Dict.set d (tag_id (be_tag_get be tag)) (tag_name (be_tag_get be tag)))
    (be_tag_list be) [].

(** What the passes over tags and objects do to [cacheable_results]:
    the _meta entry stays, groups stay and only gain members, and no
    entry of the _meta kind appears. *)
Definition grows (cr cr' : snapshot) : Prop :=
  (forall g,
     match Dict.get g cr with
     | Some (Meta hv) => Dict.get g cr' = Some (Meta hv)
     | Some (Group hosts) =>
         exists hosts', Dict.get g cr' = Some (Group hosts')
                        /\ incl hosts hosts'
     | None => True
     end)
  /\ (forall g hv, In (g, Meta hv) cr' -> In (g, Meta hv) cr).

(** Every host variable kept under an entry of the _meta kind is
    JSON-serializable. *)
Definition meta_json (cr : snapshot) : Prop :=
  forall g hv h vars k v,
    In (g, Meta hv) cr -> In (h, vars) hv -> In (k, v) vars ->
    json_dumps_ok v = true.

(** Membership in an inventory group. *)
Definition inv_member (i : inventory) (g child : string) : Prop :=
  exists members, Dict.get g (inv_groups i) = Some members /\ In child members.

(** The second inventory has every group, host and membership of the
    first, and every host of the first has in the second every variable
    it had, under the same name. *)
Definition inv_le (i i' : inventory) : Prop :=
  (forall g, Dict.mem g (inv_groups i) = true ->
             Dict.mem g (inv_groups i') = true)
  /\ (forall h, Dict.mem h (inv_hosts i) = true ->
                Dict.mem h (inv_hosts i') = true)
  /\ (forall g child, inv_member i g child -> inv_member i' g child)
  /\ (forall h vars k,
        Dict.get h (inv_hosts i) = Some vars -> Dict.mem k vars = true ->
        exists vars', Dict.get h (inv_hosts i') = Some vars'
                      /\ Dict.mem k vars' = true).

(** The host [h] has the variable [k], with the value [v]. *)
Definition holds_variable (h k : string) (v : pyval) (i : inventory)
  : Prop :=
  exists vars, Dict.get h (inv_hosts i) = Some vars
               /\ Dict.get k vars = Some v.

(** The variables the snapshot stores for a host. *)
Definition stored_variables (source_data : snapshot) (h : string)
  : Dict.t (V:=pyval) :=
  match Dict.get "_meta" source_data with
  | Some (Meta hv) =>
      match Dict.get h hv with
      | Some vars => vars
      | None => []
      end
  | _ => []
  end.

(** A property of inventories that every primitive of the inventory
    keeps. *)
Definition kept_by_primitives (Q : inventory -> Prop) : Prop :=
  (forall g i, Q i -> Q (inv_add_group g i))
  /\ (forall g child i, Q i -> Q (inv_add_child g child i))
  /\ (forall h group i, Q i -> Q (inv_add_host h group i))
  /\ (forall h k v i, Q i -> Q (inv_set_variable h k v i)).

(** The backend that lists the machines [vms], whatever the filter. *)
Definition with_vm_list (be : backend) (vms : list vm) : backend :=
  {| be_world := be_world be;
     be_datacenters := be_datacenters be;
     be_clusters := be_clusters be;
     be_folders := be_folders be;
     be_hosts := be_hosts be;
     be_resource_pools := be_resource_pools be;
     be_vm_list := fun _ => vms;
     be_tag_list := be_tag_list be;
     be_tag_get := be_tag_get be;
     be_attached_tags := be_attached_tags be;
     be_field_mgr := be_field_mgr be |}.

(** A backend with another tag service. *)
Definition with_tag_service (be : backend) (tags : list string)
    (get : string -> tag_model) (attached : string -> list string)
  : backend :=
  {| be_world := be_world be;
     be_datacenters := be_datacenters be;
     be_clusters := be_clusters be;
     be_folders := be_folders be;
     be_hosts := be_hosts be;
     be_resource_pools := be_resource_pools be;
     be_vm_list := be_vm_list be;
     be_tag_list := tags;
     be_tag_get := get;
     be_attached_tags := attached;
     be_field_mgr := be_field_mgr be |}.

(** The snapshot as the Python value the cache stores. *)
Definition entry_value (e : entry) : pyval :=
  match e with
  | Group hosts => PDict [("hosts", PList (map PStr hosts))]
  | Meta hv =>
      PDict [("hostvars", PDict (map (fun x => (fst x, PDict (snd x))) hv))]
  end.

Definition snapshot_value (snap : snapshot) : pyval :=
  PDict (map (fun ge => (fst ge, entry_value (snd ge))) snap).

(** Every variable of every host of the inventory is JSON-serializable. *)
Definition inventory_json (i : inventory) : Prop :=
  forall h vars k v,
    In (h, vars) (inv_hosts i) -> In (k, v) vars -> json_dumps_ok v = true.

Definition state_json (s : state) : Prop := inventory_json (st_inventory s).

(** The hosts an entry of a snapshot lists. *)
Definition entry_hosts (e : entry) : list string :=
  match e with Group hosts => hosts | Meta _ => [] end.

(** The inventory knows the group, has it under the group all, and knows
    every host the entry lists as a member of the group. *)
Definition registered (i : inventory) (g : string) (e : entry) : Prop :=
  Dict.mem g (inv_groups i) = true
  /\ inv_member i "all" g
  /\ forall h, In h (entry_hosts e) ->
       Dict.mem h (inv_hosts i) = true /\ inv_member i g h.

(** Two worlds that answer alike about every attribute the flattener may
    read: the names that are neither private nor on the deny-list. *)
Definition same_public_view (W W' : world) : Prop :=
  (forall v, py_dir W v = py_dir W' v)
  /\ (forall v, py_callable W v = py_callable W' v)
  /\ (forall v name,
        startswith_underscore name = false -> denied name = false ->
        py_getattr W v name = py_getattr W' v name).

Definition with_datacenters (o : options) (dcs clusters : list string)
  : options := {|
  opt_with_tags := opt_with_tags o;
  opt_properties := opt_properties o;
  opt_datacenters := dcs;
  opt_clusters := clusters;
  opt_folders := opt_folders o;
  opt_esxi_hostsystems := opt_esxi_hostsystems o;
  opt_resource_pools := opt_resource_pools o;
  opt_no_object_failure := opt_no_object_failure o
|}.

(** The world in which reading a private or deny-listed attribute always
    fails. *)
Definition without_private (W : world) : world := {|
  py_dir := py_dir W;
  py_getattr := fun v name =>
    if startswith_underscore name || denied name
    then Raise (OtherError "unreadable")
    else py_getattr W v name;
  py_callable := py_callable W
|}.

(** A machine that was deleted from the inventory of the backend but is
    still listed: it has no configuration. *)
Definition orphan_vm : vm := {|
  vm_ref := PObj 1; vm_moid := "vm-9"; vm_name := "gone";
  vm_config_of := None;
  vm_guest_ipAddress := None;
  vm_powerState := "poweredOff";
  vm_customValue := []
|}.

(* ================================================================== *)
(** * Facts about dictionaries and folds *)

Section DictFacts.
Context {V : Type}.
Implicit Types (d : Dict.t (V:=V)) (k : string) (v : V).

Lemma get_set_same d k v : Dict.get k (Dict.set d k v) = Some v.
Proof.
  induction d as [|[k' v'] d IH]; simpl.
  - now rewrite String.eqb_refl.
  - destruct (String.eqb k' k) eqn:E; simpl.
    + now rewrite String.eqb_refl.
    + now rewrite E.
Qed.

Lemma get_set_other d k k' v :
  k' <> k -> Dict.get k' (Dict.set d k v) = Dict.get k' d.
Proof.
  intros N. induction d as [|[k0 v0] d IH]; simpl.
  - destruct (String.eqb_spec k k'); congruence.
  - destruct (String.eqb_spec k0 k) as [->|N0]; simpl.
    + destruct (String.eqb_spec k k'); congruence.
    + now rewrite IH.
Qed.

Lemma mem_set_same d k v : Dict.mem k (Dict.set d k v) = true.
Proof. unfold Dict.mem. now rewrite get_set_same. Qed.

Lemma mem_set_mono d k k' v :
  Dict.mem k' d = true -> Dict.mem k' (Dict.set d k v) = true.
Proof.
  destruct (string_dec k' k) as [->|N].
  - intros _. apply mem_set_same.
  - unfold Dict.mem. now rewrite get_set_other.
Qed.

Lemma mem_set_inv d k k' v :
  Dict.mem k' (Dict.set d k v) = true -> k' = k \/ Dict.mem k' d = true.
Proof.
  destruct (string_dec k' k) as [->|N]; [now left|].
  unfold Dict.mem. rewrite get_set_other by assumption. now right.
Qed.

Lemma in_set d k v k' v' :
  In (k', v') (Dict.set d k v) -> (k' = k /\ v' = v) \/ In (k', v') d.
Proof.
  induction d as [|[k0 v0] d IH]; simpl.
  - intros [E|[]]. inversion E. now left.
  - destruct (String.eqb k0 k); simpl.
    + intros [E|H]; [inversion E; now left | right; now right].
    + intros [E|H]; [right; now left|].
      destruct (IH H) as [?|?]; [now left | right; now right].
Qed.

Lemma get_in d k v : Dict.get k d = Some v -> In (k, v) d.
Proof.
  induction d as [|[k0 v0] d IH]; simpl; [discriminate|].
  destruct (String.eqb_spec k0 k) as [->|N].
  - intros E. inversion E. now left.
  - intros H. right. now apply IH.
Qed.

Lemma mem_in_keys d k : Dict.mem k d = true <-> In k (Dict.keys d).
Proof.
  unfold Dict.mem. induction d as [|[k0 v0] d IH]; simpl.
  - split; [discriminate | tauto].
  - destruct (String.eqb_spec k0 k) as [->|N].
    + split; auto.
    + rewrite IH. split; [now right | intros [?|?]; congruence].
Qed.

Lemma keys_set d k v :
  Dict.keys (Dict.set d k v) = add_key (Dict.keys d) k.
Proof.
  unfold add_key. induction d as [|[k0 v0] d IH]; simpl; [reflexivity|].
  rewrite (String.eqb_sym k k0).
  destruct (String.eqb_spec k0 k) as [->|N]; simpl; [reflexivity|].
  rewrite IH. now destruct (existsb (String.eqb k) (Dict.keys d)).
Qed.

Lemma get_remove_same d k : Dict.get k (Dict.remove k d) = None.
Proof.
  induction d as [|[k0 v0] d IH]; simpl; [reflexivity|].
  destruct (String.eqb k0 k) eqn:E; simpl; [assumption|].
  now rewrite E.
Qed.

Lemma get_remove_other d k k' :
  k' <> k -> Dict.get k' (Dict.remove k d) = Dict.get k' d.
Proof.
  intros N. induction d as [|[k0 v0] d IH]; simpl; [reflexivity|].
  destruct (String.eqb_spec k0 k) as [->|N0]; simpl.
  - destruct (String.eqb_spec k k'); [congruence | assumption].
  - now rewrite IH.
Qed.
End DictFacts.

(** Two folds over the same list keep related accumulators related. *)
Lemma fold_left_rel {A B X : Type} (R : A -> B -> Prop)
    (f : A -> X -> A) (g : B -> X -> B) (l : list X) :
  (forall a b x, In x l -> R a b -> R (f a x) (g b x)) ->
  forall a b, R a b -> R (fold_left f l a) (fold_left g l b).
Proof.
  induction l as [|x l IH]; simpl; intros Hstep a b Hab; [assumption|].
  apply IH; [intros; apply Hstep; auto | apply Hstep; auto].
Qed.

Lemma fold_add_key_filter (keep : string -> bool) (l ks : list string) :
  fold_left (fun ks p => if keep p then add_key ks (lower p) else ks) l ks
  = fold_left add_key (map lower (filter keep l)) ks.
Proof.
  revert ks. induction l as [|p l IH]; simpl; intros ks; [reflexivity|].
  destruct (keep p); simpl; apply IH.
Qed.

(* ================================================================== *)
(** * The property flattener *)

Section FlattenerFacts.
Variable W : world.

Lemma process_object_types_fuel_unfold fuel vobj level :
  process_object_types_fuel W fuel vobj level =
  if json_dumps_ok vobj then Ok vobj
  else
    match py_dir W vobj with
    | Raise e => Raise e
    | Ok properties =>
        match
          fold_left
            (flatten_body W
               (match fuel with
                | O => None
                | S fuel' => Some (process_object_types_fuel W fuel')
                end)
               vobj level)
            (public_properties properties) (Ok [])
        with
        | Ok rdata => Ok (PDict rdata)
        | Raise e => Raise e
        end
    end.
Proof. destruct fuel; reflexivity. Qed.

Lemma json_dumps_ok_set (rdata : Dict.t (V:=pyval)) k v :
  json_dumps_ok (PDict rdata) = true ->
  json_dumps_ok v = true ->
  json_dumps_ok (PDict (Dict.set rdata k v)) = true.
Proof.
  simpl. induction rdata as [|[k0 v0] d IH]; simpl; intros Hd Hv.
  - now rewrite Hv.
  - apply andb_true_iff in Hd as [H0 Hd].
    destruct (String.eqb k0 k); simpl.
    + now rewrite Hv, Hd.
    + rewrite H0. now apply IH.
Qed.

(** More fuel than the levels need changes nothing. *)
Lemma process_object_types_fuel_enough fuel :
  forall vobj level, 2 <= level + fuel ->
  process_object_types_fuel W fuel vobj level
  = _process_object_types W vobj level.
Proof.
  induction fuel as [|fuel IH]; intros vobj level Hfuel.
  - unfold _process_object_types.
    replace (2 - level) with 0 by lia. reflexivity.
  - unfold _process_object_types.
    destruct (Nat.le_gt_cases 2 level) as [L|L].
    + replace (2 - level) with 0 by lia.
      rewrite !process_object_types_fuel_unfold.
      destruct (json_dumps_ok vobj); [reflexivity|].
      destruct (py_dir W vobj) as [properties|e]; [|reflexivity].
      assert (E : forall r r' l acc,
                fold_left (flatten_body W r vobj level) l acc
                = fold_left (flatten_body W r' vobj level) l acc).
      { intros r r' l. induction l as [|x l IHl]; intros acc;
          [reflexivity|]. simpl. rewrite <- IHl. f_equal.
        unfold flatten_body. destruct acc; [|reflexivity].
        destruct (py_getattr W vobj x); [|reflexivity].
        destruct (py_callable W a0); [reflexivity|].
        replace (level + 1 <=? 2)%nat with false; [reflexivity|].
        symmetry. apply Nat.leb_gt. lia. }
      now rewrite (E _ None).
    + replace (2 - level) with (S (2 - (level + 1))) by lia.
      rewrite !process_object_types_fuel_unfold.
      destruct (json_dumps_ok vobj); [reflexivity|].
      destruct (py_dir W vobj) as [properties|e]; [|reflexivity].
      assert (E : forall l acc,
                fold_left
                  (flatten_body W
                     (Some (process_object_types_fuel W fuel)) vobj level)
                  l acc
                = fold_left
                    (flatten_body W
                       (Some (process_object_types_fuel W
                                (2 - (level + 1)))) vobj level)
                    l acc).
      { induction l as [|x l IHl]; intros acc; [reflexivity|].
        simpl. rewrite <- IHl. f_equal.
        unfold flatten_body. destruct acc; [|reflexivity].
        destruct (py_getattr W vobj x); [|reflexivity].
        destruct (py_callable W a0); [reflexivity|].
        destruct (level + 1 <=? 2)%nat; [|reflexivity].
        rewrite IH by lia. reflexivity. }
      now rewrite E.
Qed.

(** A serializable value comes back as it is, whatever [dir] would do. *)
Lemma process_object_types_json vobj level :
  json_dumps_ok vobj = true -> _process_object_types W vobj level = Ok vobj.
Proof.
  intros J. unfold _process_object_types.
  rewrite process_object_types_fuel_unfold. now rewrite J.
Qed.

(** What [dir] raises on the value itself leaves the flattener. *)
Lemma process_object_types_dir_fault vobj level e :
  json_dumps_ok vobj = false -> py_dir W vobj = Raise e ->
  _process_object_types W vobj level = Raise e.
Proof.
  intros J D. unfold _process_object_types.
  rewrite process_object_types_fuel_unfold. now rewrite J, D.
Qed.

Lemma filter_andb_true {A} (f : A -> bool) (l : list A) :
  filter (fun x => f x && true) l = filter f l.
Proof.
  apply filter_ext. intros x. apply andb_true_r.
Qed.

Lemma filter_andb_false {A} (f : A -> bool) (l : list A) :
  filter (fun x => f x && false) l = [].
Proof.
  induction l as [|x l IH]; simpl; [reflexivity|].
  now rewrite andb_false_r.
Qed.

(** The loop, when the calls it makes one level down are the flattener at
    that level and hand back a JSON value or what a [dir] raised: it ends
    with a mapping of JSON values under the expected keys, or with the
    exception of one of those calls that is not the permission fault. *)
Lemma flatten_loop_spec recur vobj level properties :
  py_dir W vobj = Ok properties ->
  ((level + 1 <=? 2)%nat = true ->
   exists f, recur = Some f /\
     forall p, f p (level + 1) = _process_object_types W p (level + 1)
               /\ flattened_or_dir_fault W (f p (level + 1))) ->
  match
    fold_left (flatten_body W recur vobj level)
      (public_properties properties) (Ok [])
  with
  | Ok rdata =>
      json_dumps_ok (PDict rdata) = true
      /\ Dict.keys rdata =
         (if (level + 1 <=? 2)%nat
          then flattened_keys W vobj level properties else [])
      /\ (forall k v, In (k, v) rdata ->
          entry_origin W properties vobj level k v)
  | Raise e => raised_by_dir W e /\ raise_origin W vobj level e
  end.
Proof.
  intros Hdir Hrec.
  pose (R := fun (acc : outcome (Dict.t (V:=pyval))) (ks : list string) =>
               match acc with
               | Ok rdata =>
                   json_dumps_ok (PDict rdata) = true
                   /\ Dict.keys rdata = ks
                   /\ (forall k v, In (k, v) rdata ->
                       entry_origin W properties vobj level k v)
               | Raise e => raised_by_dir W e /\ raise_origin W vobj level e
               end).
  assert (HR : R
    (fold_left (flatten_body W recur vobj level)
       (public_properties properties) (Ok []))
    (fold_left
       (fun ks p =>
          if kept W vobj level p && (level + 1 <=? 2)%nat
          then add_key ks (lower p) else ks)
       (public_properties properties) [])).
  { apply fold_left_rel.
    - intros a b x Hx Hab. destruct a as [rdata|e]; [|exact Hab].
      destruct Hab as (Jd & <- & Ho).
      unfold flatten_body, kept.
      destruct (py_getattr W vobj x) as [p|e0] eqn:G;
        [|simpl; auto].
      destruct (py_callable W p) eqn:C; [simpl; auto|]. simpl negb.
      destruct (level + 1 <=? 2)%nat eqn:L;
        [|rewrite andb_false_r; simpl; auto].
      destruct (Hrec eq_refl) as (f & -> & Hf).
      destruct (Hf p) as (Ef & Hgood). rewrite <- Ef.
      destruct (f p (level + 1)) as [v|e] eqn:Ev; simpl in Hgood.
      + simpl. split; [now apply json_dumps_ok_set|].
        split; [apply keys_set|].
        intros k v' Hkv.
        apply in_set in Hkv as [[-> ->]|Hkv]; [|now apply Ho].
        exists x, p. rewrite <- Ef. auto.
      + assert (Horigin : e <> NoPermission -> raise_origin W vobj level e).
        { intros Ne. split; [exact Ne|].
          split; [apply Nat.leb_le in L; exact L|].
          exists properties, x, p. rewrite <- Ef. auto. }
        destruct e; simpl; auto; split; auto; apply Horigin; discriminate.
    - simpl. repeat split; auto. intros k v []. }
  unfold R in HR.
  destruct (fold_left (flatten_body W recur vobj level)
              (public_properties properties) (Ok [])) as [rdata|e];
    [|exact HR].
  destruct HR as (Jd & K & Ho). repeat split; auto.
  rewrite K, fold_add_key_filter. unfold flattened_keys, key_order.
  destruct (level + 1 <=? 2)%nat.
  - now rewrite filter_andb_true.
  - now rewrite filter_andb_false.
Qed.

(** With enough fuel for the levels that are left, the flattener returns
    a JSON value (the value itself, or a mapping with the expected keys
    whose values are the attributes flattened one level down), or it
    raises what a [dir] raised: on the value itself, or one level down and
    then not the permission fault. *)
Lemma process_object_types_fuel_spec fuel :
  forall vobj level, 2 <= level + fuel ->
  match process_object_types_fuel W fuel vobj level with
  | Ok r =>
      json_dumps_ok r = true
      /\ (json_dumps_ok vobj = true -> r = vobj)
      /\ (json_dumps_ok vobj = false ->
          exists properties rdata,
            py_dir W vobj = Ok properties /\ r = PDict rdata
            /\ Dict.keys rdata =
               (if (level + 1 <=? 2)%nat
                then flattened_keys W vobj level properties else [])
            /\ (forall k v, In (k, v) rdata ->
                entry_origin W properties vobj level k v))
  | Raise e =>
      json_dumps_ok vobj = false /\ raised_by_dir W e
      /\ (py_dir W vobj = Raise e \/ raise_origin W vobj level e)
  end.
Proof.
  induction fuel as [|fuel IH]; intros vobj level Hfuel;
    rewrite process_object_types_fuel_unfold;
    destruct (json_dumps_ok vobj) eqn:J;
    try (repeat split; auto; discriminate);
    destruct (py_dir W vobj) as [properties|e] eqn:D;
    try (split; [reflexivity|]; split; [now exists vobj | now left]).
  - pose proof (flatten_loop_spec None vobj level properties D) as H.
    destruct (fold_left (flatten_body W None vobj level)
                (public_properties properties) (Ok [])) as [rdata|e].
    + destruct H as (Jd & K & Ho).
      { intros L. apply Nat.leb_le in L. lia. }
      repeat split; auto; try discriminate.
      intros _. exists properties, rdata. auto.
    + destruct H as (Hd & Hr).
      { intros L. apply Nat.leb_le in L. lia. }
      auto.
  - pose proof (flatten_loop_spec
                  (Some (process_object_types_fuel W fuel)) vobj level
                  properties D) as H.
    assert (Hrec : (level + 1 <=? 2)%nat = true ->
              exists f, Some (process_object_types_fuel W fuel) = Some f /\
                forall p, f p (level + 1)
                          = _process_object_types W p (level + 1)
                          /\ flattened_or_dir_fault W (f p (level + 1))).
    { intros L. apply Nat.leb_le in L.
      eexists. split; [reflexivity|]. intros p.
      split; [apply process_object_types_fuel_enough; lia|].
      specialize (IH p (level + 1)).
      destruct (process_object_types_fuel W fuel p (level + 1));
        simpl; apply IH; lia. }
    specialize (H Hrec).
    destruct (fold_left
                (flatten_body W (Some (process_object_types_fuel W fuel))
                   vobj level)
                (public_properties properties) (Ok [])) as [rdata|e].
    + destruct H as (Jd & K & Ho).
      repeat split; auto; try discriminate.
      intros _. exists properties, rdata. auto.
    + destruct H as (Hd & Hr). auto.
Qed.

Lemma process_object_types_spec vobj level :
  match _process_object_types W vobj level with
  | Ok r =>
      json_dumps_ok r = true
      /\ (json_dumps_ok vobj = true -> r = vobj)
      /\ (json_dumps_ok vobj = false ->
          exists properties rdata,
            py_dir W vobj = Ok properties /\ r = PDict rdata
            /\ Dict.keys rdata =
               (if (level + 1 <=? 2)%nat
                then flattened_keys W vobj level properties else [])
            /\ (forall k v, In (k, v) rdata ->
                entry_origin W properties vobj level k v))
  | Raise e =>
      json_dumps_ok vobj = false /\ raised_by_dir W e
      /\ (py_dir W vobj = Raise e \/ raise_origin W vobj level e)
  end.
Proof.
  unfold _process_object_types.
  apply process_object_types_fuel_spec. lia.
Qed.

(** What the flattener returns is a JSON value: the value it was given
    when that is one, a mapping otherwise. *)
Lemma process_object_types_ok vobj level r :
  _process_object_types W vobj level = Ok r ->
  json_dumps_ok r = true
  /\ (json_dumps_ok vobj = true -> r = vobj)
  /\ (json_dumps_ok vobj = false -> exists rdata, r = PDict rdata).
Proof.
  intros E. pose proof (process_object_types_spec vobj level) as H.
  rewrite E in H. destruct H as (J & Hsame & Hmap).
  repeat split; auto.
  intros Jv. destruct (Hmap Jv) as (properties & rdata & _ & -> & _).
  now exists rdata.
Qed.

(** What the flattener raises, a [dir] raised. *)
Lemma process_object_types_raise vobj level e :
  _process_object_types W vobj level = Raise e ->
  json_dumps_ok vobj = false /\ raised_by_dir W e.
Proof.
  intros E. pose proof (process_object_types_spec vobj level) as H.
  rewrite E in H. destruct H as (J & Hd & _). auto.
Qed.


End FlattenerFacts.





(* ================================================================== *)
(** * The dotted-path getter *)

(** The getter raises only what an attribute read raised, and then never
    an AttributeError or an IndexError, or what a [dir] raised while an
    intermediate value was flattened. *)
Lemma get_object_prop_raise_inv (W : world) (attributes : list string) :
  forall root e,
    _get_object_prop W root attributes = Raise e ->
    (is_attr_or_index e = false
     /\ exists v name, py_getattr W v name = Raise e)
    \/ exists v, py_dir W v = Raise e.
Proof.
  induction attributes as [|a rest IH]; intros root e; simpl; [discriminate|].
  destruct (py_getattr W root a) as [v|e0] eqn:G.
  - destruct (_process_object_types W v 0) as [r|e1] eqn:F; [apply IH|].
    intros E. inversion E; subst e1. right.
    now apply process_object_types_raise in F as (_ & Hd).
  - destruct (is_attr_or_index e0) eqn:I; [discriminate|].
    intros E. inversion E; subst e0. left. eauto.
Qed.

(** One step of the walk. *)
Lemma get_object_prop_step (W : world) (root : pyval) (a : string)
    (rest : list string) :
  _get_object_prop W root (a :: rest)
  = match py_getattr W root a with
    | Raise e => if is_attr_or_index e then Ok PNone else Raise e
    | Ok r =>
        match _process_object_types W r 0 with
        | Ok r' => _get_object_prop W r' rest
        | Raise e => Raise e
        end
    end.
Proof. reflexivity. Qed.

(** C3 (the code departs from it).  The getter does raise.  An exception
    of an attribute read that is neither AttributeError nor IndexError is
    not caught by the handler of the read, and the flattening of the value
    that was read runs outside the [try], so what it raises is not caught
    either: in both cases the exception reaches the caller, whatever the
    rest of the path is. *)
Theorem get_object_prop_lets_faults_through (W : world) (root : pyval)
    (a : string) (rest : list string) (e : exn) :
  (py_getattr W root a = Raise e /\ is_attr_or_index e = false)
  \/ (exists v, py_getattr W root a = Ok v
                /\ _process_object_types W v 0 = Raise e) ->
  _get_object_prop W root (a :: rest) = Raise e.
Proof.
  rewrite get_object_prop_step.
  intros [[G I]|(v & G & F)]; rewrite G; [now rewrite I | now rewrite F].
Qed.

Lemma get_object_prop_lets_faults_through_witness :
  _get_object_prop sample_world sample_vm ["parent"] = Raise NoPermission
  /\ _get_object_prop guarded_world (PObj 1) ["config"; "hardware"; "numCPU"]
     = Raise (OtherError "RuntimeError").
Proof.
  split.
  - apply get_object_prop_lets_faults_through. left. split; reflexivity.
  - apply get_object_prop_lets_faults_through. right.
    exists (PObj 2). split; reflexivity.
Defined.

(** C9, as amended.  When the first component of a path resolves to an
    object that is not JSON-serializable and whose flattening returns, the
    object is flattened to a plain mapping and the rest of the path is
    walked from that mapping, not from the object.  The getter returns
    null when reading the second component from the mapping raises
    AttributeError or IndexError, that is, when it is not an attribute of
    the built-in mapping.  When it is one, the walk goes on from that
    attribute flattened, which is the result when the path ends there.
    Where an attribute read on a mapping does not depend on the entries
    of the mapping, the result is just what the rest of the path gives on
    the empty mapping: nothing of the object is in it. *)
Theorem get_object_prop_through_object (W : world) (root o r : pyval)
    (a b : string) (rest : list string) :
  py_getattr W root a = Ok o ->
  json_dumps_ok o = false ->
  _process_object_types W o 0 = Ok r ->
  exists rdata,
    r = PDict rdata
    /\ _get_object_prop W root (a :: b :: rest)
       = _get_object_prop W (PDict rdata) (b :: rest)
    /\ (forall e, py_getattr W (PDict rdata) b = Raise e ->
        is_attr_or_index e = true ->
        _get_object_prop W root (a :: b :: rest) = Ok PNone)
    /\ (forall m m', py_getattr W (PDict rdata) b = Ok m ->
        _process_object_types W m 0 = Ok m' ->
        _get_object_prop W root (a :: b :: rest)
        = _get_object_prop W m' rest
        /\ (rest = [] -> _get_object_prop W root [a; b] = Ok m'))
    /\ ((forall d name,
           py_getattr W (PDict d) name = py_getattr W (PDict []) name) ->
        _get_object_prop W root (a :: b :: rest)
        = _get_object_prop W (PDict []) (b :: rest)).
Proof.
  intros G J E.
  destruct (process_object_types_ok W o 0 r E) as (_ & _ & Hmap).
  destruct (Hmap J) as (rdata & ->).
  exists rdata. split; [reflexivity|].
  assert (Hwalk : forall more,
            _get_object_prop W root (a :: b :: more)
            = _get_object_prop W (PDict rdata) (b :: more))
    by (intros more; rewrite get_object_prop_step; now rewrite G, E).
  split; [apply Hwalk|].
  split; [|split].
  - intros e Ge I. rewrite Hwalk, get_object_prop_step. now rewrite Ge, I.
  - intros m m' Gm Fm.
    assert (Hon : forall more,
              _get_object_prop W root (a :: b :: more)
              = _get_object_prop W m' more)
      by (intros more; rewrite Hwalk, get_object_prop_step;
          now rewrite Gm, Fm).
    split; [apply Hon|]. intros _. apply (Hon []).
  - intros Hsame. rewrite Hwalk, !get_object_prop_step.
    now rewrite Hsame.
Qed.

Lemma get_object_prop_through_object_witness :
  _get_object_prop sample_world sample_vm ["config"; "hardware"; "numCPU"]
  = Ok PNone
  /\ _get_object_prop sample_world sample_vm ["config"; "keys"]
     = Ok (PDict []).
Proof.
  destruct (_process_object_types sample_world (PObj 2) 0) as [r|e] eqn:E;
    [|vm_compute in E; discriminate E].
  split.
  - destruct (get_object_prop_through_object sample_world sample_vm (PObj 2)
                r "config" "hardware" ["numCPU"] eq_refl eq_refl E)
      as (rdata & _ & _ & Hnull & _).
    vm_compute in E. inversion E; subst r. clear E.
    apply (Hnull AttributeError); [|reflexivity].
    destruct rdata; reflexivity.
  - destruct (get_object_prop_through_object sample_world sample_vm (PObj 2)
                r "config" "keys" [] eq_refl eq_refl E)
      as (rdata & _ & _ & _ & Hon & _).
    apply (proj2 (Hon builtin_method (PDict []) eq_refl eq_refl) eq_refl).
Defined.

(** C9 as stated fails: a path through a non-serializable object does not
    always give null.  The second component keys names a method of the
    built-in mapping; the getter returns that method flattened, the empty
    mapping. *)
Lemma get_object_prop_through_object_not_always_null :
  ~ (forall W root o a b rest,
       py_getattr W root a = Ok o ->
       json_dumps_ok o = false ->
       _get_object_prop W root (a :: b :: rest) = Ok PNone).
Proof.
  intros H.
  specialize (H sample_world sample_vm (PObj 2) "config" "keys" []
                eq_refl eq_refl).
  vm_compute in H. discriminate H.
Qed.

(* ================================================================== *)
(** * Facts about the run monad *)

Lemma bind_ok {A B} {m : M A} (k : A -> M B) {s a s'} :
  m s = (Ok a, s') -> bind m k s = k a s'.
Proof. unfold bind. now intros ->. Qed.

Lemma bind_raise {A B} {m : M A} (k : A -> M B) {s e s'} :
  m s = (Raise e, s') -> bind m k s = (Raise e, s').
Proof. unfold bind. now intros ->. Qed.

Lemma bind_ok_inv {A B} (m : M A) (k : A -> M B) s b s' :
  bind m k s = (Ok b, s') ->
  exists a s1, m s = (Ok a, s1) /\ k a s1 = (Ok b, s').
Proof.
  unfold bind. destruct (m s) as [[a|e] s1]; [|discriminate].
  intros H. now exists a, s1.
Qed.

Lemma for_fold_app {A S} (f : S -> A -> M S) (l1 l2 : list A) acc s :
  for_fold f (l1 ++ l2) acc s
  = bind (for_fold f l1 acc) (for_fold f l2) s.
Proof.
  revert acc s. induction l1 as [|x l1 IH]; intros acc s; simpl.
  - reflexivity.
  - unfold bind in *. destruct (f acc x s) as [[acc'|e] s1]; [|reflexivity].
    apply IH.
Qed.

(** A loop whose body always returns, returns. *)
Lemma for_each_returns {A} (f : A -> M unit) (l : list A) :
  (forall x s, exists s', f x s = (Ok tt, s')) ->
  forall s, exists s', for_each f l s = (Ok tt, s').
Proof.
  intros Hf. unfold for_each.
  induction l as [|x l IH]; intros s; simpl.
  - now exists s.
  - destruct (Hf x s) as (s1 & E). unfold bind. rewrite E. apply IH.
Qed.

Lemma on_inventory_returns (f : inventory -> inventory) s :
  exists s', on_inventory f s = (Ok tt, s').
Proof. eexists. reflexivity. Qed.

Lemma then_returns (m k : M unit) :
  (forall s, exists s', m s = (Ok tt, s')) ->
  (forall s, exists s', k s = (Ok tt, s')) ->
  forall s, exists s', bind m (fun _ => k) s = (Ok tt, s').
Proof.
  intros Hm Hk s. destruct (Hm s) as (s1 & E).
  unfold bind. rewrite E. apply Hk.
Qed.

(* ================================================================== *)
(** * The filter-spec builder and the unresolved-name policy *)

Section FilterFacts.
Variable cfg : options.
Variable be : backend.

Lemma get_vm_filter_spec_blocks :
  _get_vm_filter_spec cfg be =
  (s1 <- category_block cfg (be_datacenters be) "datacenter"
           (opt_datacenters cfg) set_datacenters empty_filter_spec ;;
   s2 <- category_block cfg (be_clusters be) "cluster"
           (opt_clusters cfg) set_clusters s1 ;;
   s3 <- category_block cfg (be_folders be) "folder"
           (opt_folders cfg) set_folders s2 ;;
   s4 <- category_block cfg (be_hosts be) "esxi hostsystem"
           (opt_esxi_hostsystems cfg) set_folders s3 ;;
   s5 <- category_block cfg (be_resource_pools be) "resource pool"
           (opt_resource_pools cfg) set_folders s4 ;;
   ret s5).
Proof. reflexivity. Qed.

Lemma handle_error_silent message s :
  opt_no_object_failure cfg = "silent" ->
  _handle_error cfg message s = (Ok tt, s).
Proof. unfold _handle_error. now intros ->. Qed.

Lemma handle_error_error message s :
  opt_no_object_failure cfg = "error" ->
  _handle_error cfg message s = (Raise (AnsibleError message), s).
Proof. unfold _handle_error. now intros ->. Qed.

Lemma collect_references_silent_from list_by_name what names :
  opt_no_object_failure cfg = "silent" ->
  forall temp s,
    for_fold
      (fun temp name =>
         match list_by_name name with
         | first :: _ => ret (temp ++ [first])%list
         | [] =>
             _handle_error cfg ("Unable to find " ++ what ++ " " ++ name) ;;;
             ret temp
         end)
      names temp s
    = (Ok (temp ++ resolved list_by_name names)%list, s).
Proof.
  intros P. induction names as [|n names IH]; intros temp s; simpl.
  - now rewrite app_nil_r.
  - destruct (list_by_name n) as [|first others]; simpl.
    + unfold bind at 1 2. rewrite handle_error_silent by assumption.
      simpl. apply IH.
    + unfold bind at 1. simpl. rewrite IH. now rewrite <- app_assoc.
Qed.

Lemma collect_references_silent list_by_name what names s :
  opt_no_object_failure cfg = "silent" ->
  collect_references cfg list_by_name what names s
  = (Ok (resolved list_by_name names), s).
Proof.
  intros P. unfold collect_references.
  now rewrite collect_references_silent_from.
Qed.

Lemma collect_references_error_from list_by_name what names :
  opt_no_object_failure cfg = "error" ->
  forall temp s,
    for_fold
      (fun temp name =>
         match list_by_name name with
         | first :: _ => ret (temp ++ [first])%list
         | [] =>
             _handle_error cfg ("Unable to find " ++ what ++ " " ++ name) ;;;
             ret temp
         end)
      names temp s
    = match misses list_by_name what names with
      | [] => (Ok (temp ++ resolved list_by_name names)%list, s)
      | (w, n) :: _ => (Raise (AnsibleError (not_found_message w n)), s)
      end.
Proof.
  intros P. induction names as [|n names IH]; intros temp s; simpl.
  - now rewrite app_nil_r.
  - unfold misses. simpl.
    destruct (list_by_name n) as [|first others]; simpl.
    + unfold bind at 1 2. rewrite handle_error_error by assumption.
      reflexivity.
    + unfold bind at 1. simpl. rewrite IH. unfold misses.
      now rewrite <- app_assoc.
Qed.

Lemma collect_references_error list_by_name what names s :
  opt_no_object_failure cfg = "error" ->
  collect_references cfg list_by_name what names s
  = match misses list_by_name what names with
    | [] => (Ok (resolved list_by_name names), s)
    | (w, n) :: _ => (Raise (AnsibleError (not_found_message w n)), s)
    end.
Proof.
  intros P. unfold collect_references.
  now rewrite collect_references_error_from.
Qed.

Lemma category_block_silent list_by_name what names setter spec s :
  opt_no_object_failure cfg = "silent" ->
  category_block cfg list_by_name what names setter spec s
  = (Ok (if is_set names
         then setter spec (py_set (resolved list_by_name names))
         else spec), s).
Proof.
  intros P. unfold category_block.
  destruct (is_set names); [|reflexivity].
  now rewrite (bind_ok _ (collect_references_silent _ _ _ _ P)).
Qed.

Lemma misses_unset list_by_name what names :
  is_set names = false -> misses list_by_name what names = [].
Proof. destruct names; [reflexivity | discriminate]. Qed.

Lemma category_block_error list_by_name what names setter spec s :
  opt_no_object_failure cfg = "error" ->
  category_block cfg list_by_name what names setter spec s
  = match misses list_by_name what names with
    | [] => (Ok (if is_set names
                 then setter spec (py_set (resolved list_by_name names))
                 else spec), s)
    | (w, n) :: _ => (Raise (AnsibleError (not_found_message w n)), s)
    end.
Proof.
  intros P. unfold category_block.
  destruct (is_set names) eqn:I.
  - pose proof (collect_references_error list_by_name what names s P) as E.
    destruct (misses list_by_name what names) as [|[w n] ?].
    + now rewrite (bind_ok _ E).
    + now rewrite (bind_raise _ E).
  - now rewrite misses_unset.
Qed.

(** Under the silent policy the builder returns and leaves no trace. *)
Lemma get_vm_filter_spec_silent s :
  opt_no_object_failure cfg = "silent" ->
  exists spec, _get_vm_filter_spec cfg be s = (Ok spec, s).
Proof.
  intros P. rewrite get_vm_filter_spec_blocks.
  repeat (erewrite bind_ok by (apply category_block_silent; exact P)).
  eexists. reflexivity.
Qed.

(** Under the error policy the builder stops at the first name without a
    match, before anything else happens. *)
Lemma get_vm_filter_spec_error s what name rest :
  opt_no_object_failure cfg = "error" ->
  unresolved cfg be = (what, name) :: rest ->
  _get_vm_filter_spec cfg be s
  = (Raise (AnsibleError (not_found_message what name)), s).
Proof.
  intros P. unfold unresolved. rewrite get_vm_filter_spec_blocks.
  repeat
    match goal with
    | |- (misses ?lk ?w ?ns ++ _)%list = _ ->
         bind (category_block _ ?lk ?w ?ns ?st ?sp) _ _ = _ =>
        let E := fresh "E" in
        pose proof (category_block_error lk w ns st sp s P) as E;
        destruct (misses lk w ns) as [|[w0 n0] ?];
        [ rewrite (bind_ok _ E); clear E; simpl app
        | simpl app; intros U; inversion U; subst;
          now rewrite (bind_raise _ E) ]
    end.
  match goal with
  | |- misses ?lk ?w ?ns = _ ->
       bind (category_block _ ?lk ?w ?ns ?st ?sp) _ _ = _ =>
      pose proof (category_block_error lk w ns st sp s P) as E;
      destruct (misses lk w ns) as [|[w0 n0] ?];
      [ discriminate
      | intros U; inversion U; subst; now rewrite (bind_raise _ E) ]
  end.
Qed.

(** Whatever the policy, the builder never fills the host and
    resource-pool dimensions. *)
Lemma category_block_keeps setter spec list_by_name what names s spec' s' :
  (forall sp v, fs_hosts (setter sp v) = fs_hosts sp
                /\ fs_resource_pools (setter sp v) = fs_resource_pools sp) ->
  category_block cfg list_by_name what names setter spec s = (Ok spec', s') ->
  fs_hosts spec' = fs_hosts spec
  /\ fs_resource_pools spec' = fs_resource_pools spec.
Proof.
  intros Hs. unfold category_block.
  destruct (is_set names).
  - intros H. apply bind_ok_inv in H as (temp & s1 & _ & H).
    inversion H; subst. apply Hs.
  - intros H. inversion H; subst. auto.
Qed.

Lemma get_vm_filter_spec_dimensions s spec s' :
  _get_vm_filter_spec cfg be s = (Ok spec, s') ->
  fs_hosts spec = None /\ fs_resource_pools spec = None.
Proof.
  rewrite get_vm_filter_spec_blocks. intros H.
  apply bind_ok_inv in H as (s1 & t1 & H1 & H).
  apply bind_ok_inv in H as (s2 & t2 & H2 & H).
  apply bind_ok_inv in H as (s3 & t3 & H3 & H).
  apply bind_ok_inv in H as (s4 & t4 & H4 & H).
  apply bind_ok_inv in H as (s5 & t5 & H5 & H).
  inversion H; subst.
  apply category_block_keeps in H1 as [A1 B1]; [|now split].
  apply category_block_keeps in H2 as [A2 B2]; [|now split].
  apply category_block_keeps in H3 as [A3 B3]; [|now split].
  apply category_block_keeps in H4 as [A4 B4]; [|now split].
  apply category_block_keeps in H5 as [A5 B5]; [|now split].
  simpl in A1, B1. split; congruence.
Qed.
End FilterFacts.

(** C1 (the code departs from it).  With the folder dev and the host
    system esx1 configured and both found, the builder leaves the host
    reference in the folders dimension, where it replaces the folder
    reference, and the hosts dimension stays unset; a resource pool does
    the same. *)
Theorem host_and_pool_matches_overwrite_folders :
  _get_vm_filter_spec
    (with_filters sample_options ["dev"] ["esx1"] [] "silent")
    (sample_backend []) initial_state
  = (Ok {| fs_datacenters := None; fs_clusters := None;
           fs_folders := Some ["host-1"];
           fs_hosts := None; fs_resource_pools := None |}, initial_state)
  /\ _get_vm_filter_spec
       (with_filters sample_options ["dev"] [] ["rp1"] "silent")
       (sample_backend []) initial_state
     = (Ok {| fs_datacenters := None; fs_clusters := None;
              fs_folders := Some ["resgroup-1"];
              fs_hosts := None; fs_resource_pools := None |}, initial_state).
Proof. split; reflexivity. Qed.

(* ================================================================== *)
(** * Replaying the cache *)

Lemma populate_host_vars_returns hosts variables group s :
  exists s', _populate_host_vars hosts variables group s = (Ok tt, s').
Proof.
  unfold _populate_host_vars. apply for_each_returns. intros host.
  apply then_returns.
  - apply on_inventory_returns.
  - apply for_each_returns. intros kv. apply on_inventory_returns.
Qed.

Lemma populate_from_cache_returns source_data s :
  exists s',
    _populate_from_cache source_data s
    = (Ok (Dict.remove "_meta" source_data), s').
Proof.
  unfold _populate_from_cache.
  match goal with
  | |- exists s', bind (for_each ?f ?l) _ _ = _ =>
      destruct (for_each_returns f l) with (s := s) as (s1 & E)
  end.
  - intros [group e] s0. cbn [fst snd].
    destruct (group =? "all"); [now exists s0|].
    apply then_returns; [apply on_inventory_returns|].
    apply then_returns; [|apply on_inventory_returns].
    apply for_each_returns. intros host. apply populate_host_vars_returns.
  - exists s1. now rewrite (bind_ok _ E).
Qed.

(** C5, as amended.  On a cache hit the run returns the snapshot it was
    given with the reserved _meta entry removed, which is the one change
    the replay makes to it: every other entry is returned as it was
    stored. *)
Theorem cache_replay_returns_snapshot_without_meta (cfg : options)
    (be : backend) (source_data : snapshot) (s : state) :
  (exists s',
     _populate_from_source cfg be (Some source_data) true s
     = (Ok (Dict.remove "_meta" source_data), s'))
  /\ Dict.get "_meta" (Dict.remove "_meta" source_data) = None
  /\ (forall g, g <> "_meta" ->
      Dict.get g (Dict.remove "_meta" source_data) = Dict.get g source_data)
  /\ (forall g e, In (g, e) (Dict.remove "_meta" source_data) <->
                  In (g, e) source_data /\ g <> "_meta").
Proof.
  split; [|split; [|split]].
  - simpl. apply populate_from_cache_returns.
  - apply get_remove_same.
  - intros g N. now apply get_remove_other.
  - intros g e. unfold Dict.remove. rewrite filter_In. simpl.
    rewrite negb_true_iff. now destruct (String.eqb_spec g "_meta").
Qed.

Lemma cache_replay_returns_snapshot_without_meta_witness :
  Dict.get "poweredOn" (Dict.remove "_meta" sample_snapshot)
  = Some (Group ["web1_u1"]).
Proof.
  rewrite (proj1 (proj2 (proj2 (cache_replay_returns_snapshot_without_meta
             sample_options (sample_backend []) sample_snapshot
             initial_state))) "poweredOn").
  - reflexivity.
  - discriminate.
Defined.

(** C5 as stated fails: the mapping a cache hit returns is not the stored
    snapshot, it has lost the _meta entry. *)
Lemma cache_replay_does_not_return_snapshot_unchanged :
  ~ (forall cfg be source_data s,
       fst (_populate_from_source cfg be (Some source_data) true s)
       = Ok source_data).
Proof.
  intros H.
  specialize (H sample_options (sample_backend []) sample_snapshot
                initial_state).
  vm_compute in H. discriminate H.
Qed.

(* ================================================================== *)
(** * Group membership by guest id *)

Lemma guest_group_without_id (c : vm_config) current_host cr s :
  cfg_guestId c = None ->
  guest_group c current_host cr s = (Raise (KeyError "None"), s).
Proof. unfold guest_group. now intros ->. Qed.

(** With a guest id that is present, the host joins the group of that
    id, which is created when it is missing. *)
Lemma guest_group_with_id (c : vm_config) g current_host cr s :
  cfg_guestId c = Some g -> g <> "" -> Dict.get g cr = None ->
  exists s',
    guest_group c current_host cr s
    = (Ok (Dict.set (Dict.set cr g (Group [])) g (Group [current_host])), s').
Proof.
  intros Hg Hne Hnew. unfold guest_group. rewrite Hg. unfold truthy.
  destruct (String.eqb_spec g "") as [->|_]; [congruence|].
  unfold Dict.mem. rewrite Hnew. simpl.
  unfold bind, lift, append_host. simpl.
  rewrite get_set_same. eexists. reflexivity.
Qed.

(** C2 (the code departs from it).  A machine whose guest OS id is absent
    is not processed successfully: the unguarded append to the guest-id
    group looks up the key None and the run ends with that KeyError. *)
Theorem absent_guest_id_fails_the_run :
  fst (_populate_from_source sample_options (sample_backend [no_guest_vm])
         None false initial_state)
  = Raise (KeyError "None").
Proof. reflexivity. Qed.

(* ================================================================== *)
(** * The loop over the objects *)

Lemma app_inj_left (a b c : string) : (a ++ b = a ++ c)%string -> b = c.
Proof.
  induction a as [|ch a IH]; simpl; intros H; [assumption|].
  inversion H. auto.
Qed.

Lemma host_key_inj name u1 u2 :
  host_key name u1 = host_key name u2 -> u1 = u2.
Proof.
  unfold host_key. intros H.
  apply app_inj_left in H. now apply app_inj_left in H.
Qed.

Section LoopFacts.
Variable cfg : options.
Variable be : backend.

(** A turn of the loop changes [hostvars] as [note_host] says and leaves
    the tag table alone. *)
Lemma process_vm_hostvars loc o s loc' s' :
  process_vm cfg be loc o s = (Ok loc', s') ->
  hostvars loc' = note_host (hostvars loc) o
  /\ tags_info loc' = tags_info loc.
Proof.
  unfold process_vm, note_host, key_of.
  destruct (vm_config_of o) as [c|]; [|intros H; inversion H; auto].
  destruct (Dict.mem (host_key (vm_name o) (cfg_uuid c)) (hostvars loc));
    simpl negb; cbv iota; [intros H; inversion H; auto|].
  intros H.
  repeat (apply bind_ok_inv in H as (? & ? & _ & H)).
  inversion H; subst. auto.
Qed.

(** A machine whose key has been seen is skipped. *)
Lemma process_vm_seen loc o k s :
  key_of o = Some k ->
  Dict.mem k (hostvars loc) = true ->
  process_vm cfg be loc o s = (Ok loc, s).
Proof.
  unfold process_vm, key_of.
  destruct (vm_config_of o) as [c|]; [|discriminate].
  intros E. inversion E; subst k. now intros ->.
Qed.

Lemma process_objects_hostvars objects :
  forall loc s loc' s',
    process_objects cfg be objects loc s = (Ok loc', s') ->
    hostvars loc' = note_hosts (hostvars loc) objects
    /\ tags_info loc' = tags_info loc.
Proof.
  unfold process_objects, note_hosts.
  induction objects as [|o objects IH]; intros loc s loc' s' H; simpl in *.
  - inversion H; auto.
  - apply bind_ok_inv in H as (loc1 & s1 & H1 & H).
    apply process_vm_hostvars in H1 as [E1 T1].
    apply IH in H as [E T]. rewrite E, T, E1. auto.
Qed.

Lemma note_host_mono hv o k :
  Dict.mem k hv = true -> Dict.mem k (note_host hv o) = true.
Proof.
  unfold note_host. destruct (key_of o) as [k0|]; [|auto].
  destruct (Dict.mem k0 hv); [auto|]. apply mem_set_mono.
Qed.

Lemma note_host_here hv o k :
  key_of o = Some k -> Dict.mem k (note_host hv o) = true.
Proof.
  unfold note_host. intros ->.
  destruct (Dict.mem k hv) eqn:E; [assumption | apply mem_set_same].
Qed.

Lemma note_hosts_mono objects :
  forall hv k, Dict.mem k hv = true ->
               Dict.mem k (note_hosts hv objects) = true.
Proof.
  unfold note_hosts.
  induction objects as [|o objects IH]; intros hv k H; simpl; [assumption|].
  apply IH. now apply note_host_mono.
Qed.

Lemma note_hosts_seen objects :
  forall hv o k, In o objects -> key_of o = Some k ->
                 Dict.mem k (note_hosts hv objects) = true.
Proof.
  unfold note_hosts.
  induction objects as [|o0 objects IH]; intros hv o k Hin K; simpl;
    [destruct Hin|].
  destruct Hin as [->|Hin].
  - apply (note_hosts_mono objects). now apply note_host_here.
  - now apply (IH _ o).
Qed.

(** Only the keys of the objects are added. *)
Lemma note_hosts_inv objects :
  forall hv k, Dict.mem k (note_hosts hv objects) = true ->
               Dict.mem k hv = true
               \/ exists o, In o objects /\ key_of o = Some k.
Proof.
  unfold note_hosts.
  induction objects as [|o objects IH]; intros hv k H; simpl in *;
    [now left|].
  apply IH in H as [H|(o' & Hin & K)].
  - unfold note_host in H. destruct (key_of o) as [k0|] eqn:K0; [|now left].
    destruct (Dict.mem k0 hv); [now left|].
    apply mem_set_inv in H as [->|H]; [|now left].
    right. exists o. auto.
  - right. exists o'. auto.
Qed.

Lemma process_objects_skips_seen objs o o' more k loc s :
  In o objs -> key_of o = Some k -> key_of o' = Some k ->
  process_objects cfg be (objs ++ o' :: more) loc s
  = process_objects cfg be (objs ++ more) loc s.
Proof.
  intros Hin K K'. unfold process_objects. rewrite !for_fold_app.
  destruct (for_fold (process_vm cfg be) objs loc s) as [[loc1|e] s1] eqn:E.
  - rewrite !(bind_ok _ E). cbn [for_fold].
    apply process_objects_hostvars in E as [E _].
    assert (Hseen : Dict.mem k (hostvars loc1) = true)
      by (rewrite E; now apply (note_hosts_seen objs _ o)).
    now rewrite (bind_ok _ (process_vm_seen loc1 o' k s1 K' Hseen)).
  - now rewrite !(bind_raise _ E).
Qed.
End LoopFacts.

(* ================================================================== *)
(** * The snapshot invariant *)

Lemma groups_within_mono hv hv' cr :
  (forall h, Dict.mem h hv = true -> Dict.mem h hv' = true) ->
  groups_within hv cr -> groups_within hv' cr.
Proof. intros Hsub H g hosts h Hg Hh. apply Hsub. now apply (H g hosts). Qed.

Lemma groups_within_new_group hv cr g :
  groups_within hv cr -> groups_within hv (Dict.set cr g (Group [])).
Proof.
  intros H g' hosts h Hg Hh.
  apply in_set in Hg as [[_ E]|Hg].
  - inversion E; subst. destruct Hh.
  - now apply (H g' hosts).
Qed.

Lemma groups_within_append hv cr g host cr' :
  groups_within hv cr ->
  Dict.mem host hv = true ->
  append_host cr g host = Ok cr' ->
  groups_within hv cr'.
Proof.
  intros H Hhost. unfold append_host.
  destruct (Dict.get g cr) as [[hs|m]|] eqn:G; try discriminate.
  intros E. inversion E; subst cr'. clear E.
  intros g' hosts h Hg Hh.
  apply in_set in Hg as [[_ E]|Hg].
  - inversion E; subst hosts. apply in_app_or in Hh as [Hh|[<-|[]]].
    + apply (H g hs); [now apply get_in | assumption].
    + assumption.
  - now apply (H g' hosts).
Qed.

Section SnapshotFacts.
Variable cfg : options.
Variable be : backend.

Lemma tag_groups_within hv tags o host cr s cr' s' :
  groups_within hv cr ->
  Dict.mem host hv = true ->
  tag_groups cfg be tags o host cr s = (Ok cr', s') ->
  groups_within hv cr'.
Proof.
  intros H Hhost. unfold tag_groups.
  destruct (opt_with_tags cfg); [|intros E; inversion E; now subst].
  generalize (be_attached_tags be (vm_moid o)). intros l.
  revert cr s H. induction l as [|t l IH]; intros cr s H E; simpl in E.
  - inversion E; now subst.
  - apply bind_ok_inv in E as (cr1 & s1 & E1 & E).
    destruct (Dict.get t tags) as [name|]; [|discriminate].
    apply bind_ok_inv in E1 as ([] & s0 & _ & E1).
    unfold lift in E1. inversion E1 as [[A B]].
    apply (IH cr1 s1); [|assumption].
    now apply (groups_within_append hv cr name host).
Qed.

Lemma power_group_within hv o host cr s cr' s' :
  groups_within hv cr ->
  Dict.mem host hv = true ->
  power_group o host cr s = (Ok cr', s') ->
  groups_within hv cr'.
Proof.
  intros H Hhost. unfold power_group. intros E.
  apply bind_ok_inv in E as (cr1 & s1 & E1 & E).
  apply bind_ok_inv in E as (cr2 & s2 & E2 & E).
  apply bind_ok_inv in E as ([] & s3 & _ & E).
  inversion E; subst cr2. unfold lift in E2. inversion E2 as [[A B]].
  apply (groups_within_append hv cr1 (vm_powerState o) host); auto.
  destruct (Dict.mem (vm_powerState o) cr); simpl in E1.
  - inversion E1; now subst.
  - apply bind_ok_inv in E1 as ([] & s0 & _ & E1). inversion E1.
    now apply groups_within_new_group.
Qed.

Lemma guest_group_within hv c host cr s cr' s' :
  groups_within hv cr ->
  Dict.mem host hv = true ->
  guest_group c host cr s = (Ok cr', s') ->
  groups_within hv cr'.
Proof.
  intros H Hhost. unfold guest_group. intros E.
  apply bind_ok_inv in E as (cr1 & s1 & E1 & E).
  destruct (cfg_guestId c) as [g|]; [|discriminate].
  apply bind_ok_inv in E as (cr2 & s2 & E2 & E).
  apply bind_ok_inv in E as ([] & s3 & _ & E).
  inversion E; subst cr2. unfold lift in E2. inversion E2 as [[A B]].
  apply (groups_within_append hv cr1 g host); auto.
  destruct (truthy (Some g) && negb (Dict.mem g cr)); simpl in E1.
  - apply bind_ok_inv in E1 as ([] & s0 & _ & E1). inversion E1.
    now apply groups_within_new_group.
  - inversion E1; now subst.
Qed.

Lemma process_vm_within loc o s loc' s' :
  groups_within (hostvars loc) (cacheable_results loc) ->
  process_vm cfg be loc o s = (Ok loc', s') ->
  groups_within (hostvars loc') (cacheable_results loc').
Proof.
  intros H. unfold process_vm.
  destruct (vm_config_of o) as [c|]; [|intros E; inversion E; now subst].
  destruct (Dict.mem (host_key (vm_name o) (cfg_uuid c)) (hostvars loc));
    simpl negb; cbv iota; [intros E; inversion E; now subst|].
  intros E.
  apply bind_ok_inv in E as ([] & s1 & _ & E).
  apply bind_ok_inv in E as ([] & s2 & _ & E).
  apply bind_ok_inv in E as ([] & s3 & _ & E).
  apply bind_ok_inv in E as (cr1 & s4 & E1 & E).
  apply bind_ok_inv in E as (cr2 & s5 & E2 & E).
  apply bind_ok_inv in E as (cr3 & s6 & E3 & E).
  inversion E; subst; simpl. clear E.
  set (host := host_key (vm_name o) (cfg_uuid c)) in *.
  set (hv := Dict.set (hostvars loc) host []).
  assert (Hhost : Dict.mem host hv = true) by apply mem_set_same.
  assert (H0 : groups_within hv (cacheable_results loc))
    by (apply (groups_within_mono (hostvars loc)); auto;
        intros h; apply mem_set_mono).
  apply (guest_group_within hv c host cr2 s5 cr3 s'); auto.
  apply (power_group_within hv o host cr1 s4 cr2 s5); auto.
  now apply (tag_groups_within hv (tags_info loc) o host
               (cacheable_results loc) s3 cr1 s4).
Qed.

Lemma process_objects_within objects :
  forall loc s loc' s',
    groups_within (hostvars loc) (cacheable_results loc) ->
    process_objects cfg be objects loc s = (Ok loc', s') ->
    groups_within (hostvars loc') (cacheable_results loc').
Proof.
  unfold process_objects.
  induction objects as [|o objects IH]; intros loc s loc' s' H E;
    simpl in E.
  - inversion E; now subst.
  - apply bind_ok_inv in E as (loc1 & s1 & E1 & E).
    apply (IH loc1 s1 loc' s'); [|assumption].
    now apply (process_vm_within loc o s loc1 s1).
Qed.

(** The tag pass creates empty groups and always returns. *)
Lemma load_tags_spec_from tags :
  forall loc s,
    exists loc' s',
      for_fold
        (fun loc tag =>
           let tag_obj := be_tag_get be tag in
           let tags_info' :=
             Dict.set (tags_info loc) (tag_id tag_obj)
               (tag_name tag_obj) in
           if negb (Dict.mem (tag_name tag_obj) (cacheable_results loc))
           then
             on_inventory (inv_add_group (tag_name tag_obj)) ;;;
             ret {| cacheable_results :=
                      Dict.set (cacheable_results loc) (tag_name tag_obj)
                        (Group []);
                    hostvars := hostvars loc;
                    tags_info := tags_info' |}
           else
             ret {| cacheable_results := cacheable_results loc;
                    hostvars := hostvars loc;
                    tags_info := tags_info' |})
        tags loc s = (Ok loc', s')
      /\ hostvars loc' = hostvars loc
      /\ (groups_within (hostvars loc) (cacheable_results loc) ->
          groups_within (hostvars loc') (cacheable_results loc')).
Proof.
  induction tags as [|t tags IH]; intros loc s; simpl.
  - exists loc, s. auto.
  - destruct (Dict.mem (tag_name (be_tag_get be t))
                (cacheable_results loc)); simpl negb; cbv iota.
    + unfold bind at 1. simpl.
      match goal with
      | |- context [for_fold _ tags ?l ?st] =>
          destruct (IH l st) as (loc' & s' & E & Hv & Hg)
      end.
      exists loc', s'. split; [exact E|]. split; [exact Hv|].
      intros H. now apply Hg.
    + unfold bind at 1 2. simpl.
      match goal with
      | |- context [for_fold _ tags ?l ?st] =>
          destruct (IH l st) as (loc' & s' & E & Hv & Hg)
      end.
      exists loc', s'. split; [exact E|]. split; [exact Hv|].
      intros H. apply Hg. simpl. now apply groups_within_new_group.
Qed.

Lemma load_tags_spec loc s :
  exists loc' s',
    load_tags be loc s = (Ok loc', s')
    /\ hostvars loc' = hostvars loc
    /\ (groups_within (hostvars loc) (cacheable_results loc) ->
        groups_within (hostvars loc') (cacheable_results loc')).
Proof. unfold load_tags. apply load_tags_spec_from. Qed.

(** The closing loop touches the _meta entry only, and gives every host
    it visits an entry there. *)
Lemma collect_hostvars_loop (l : list string) :
  forall cr s snap s',
    for_fold
      (fun cr host =>
         fun s =>
           match inv_get_host host (st_inventory s) with
           | None => (Raise AttributeError, s)
           | Some (name, vars) => (record_hostvars cr name vars, s)
           end)
      l cr s = (Ok snap, s') ->
    (forall g hosts, In (g, Group hosts) snap -> In (g, Group hosts) cr)
    /\ (forall h, In h l ->
        exists hv, Dict.get "_meta" snap = Some (Meta hv)
                   /\ Dict.mem h hv = true)
    /\ (forall hv h, Dict.get "_meta" cr = Some (Meta hv) ->
        Dict.mem h hv = true ->
        exists hv', Dict.get "_meta" snap = Some (Meta hv')
                    /\ Dict.mem h hv' = true).
Proof.
  induction l as [|x l IH]; intros cr s snap s' E; simpl in E.
  - inversion E; subst. repeat split; auto.
    + intros h [].
    + intros hv h G Hm. now exists hv.
  - apply bind_ok_inv in E as (cr1 & s1 & E1 & E).
    unfold inv_get_host in E1.
    destruct (Dict.get x (inv_hosts (st_inventory s))) as [vars|];
      [|discriminate].
    unfold record_hostvars in E1.
    destruct (Dict.get "_meta" cr) as [[hs|hv0]|] eqn:G; try discriminate.
    inversion E1; subst cr1 s1. clear E1.
    destruct (IH _ _ _ _ E) as (Hgroups & Hvisited & Hkept).
    assert (Gm : Dict.get "_meta"
                   (Dict.set cr "_meta" (Meta (Dict.set hv0 x vars)))
                 = Some (Meta (Dict.set hv0 x vars)))
      by apply get_set_same.
    repeat split.
    + intros g hosts Hin. apply Hgroups in Hin.
      apply in_set in Hin as [[_ Bad]|Hin]; [discriminate | assumption].
    + intros h [<-|Hin]; [|now apply Hvisited].
      apply (Hkept _ x Gm). apply mem_set_same.
    + intros hv h Ghv Hm. inversion Ghv; subst hv.
      apply (Hkept _ h Gm). now apply mem_set_mono.
Qed.

Lemma populate_live_invariant s snap s' :
  populate_live cfg be s = (Ok snap, s') ->
  members_have_hostvars snap.
Proof.
  unfold populate_live, enumerate. intros E.
  apply bind_ok_inv in E as (spec & s1 & _ & E).
  apply bind_ok_inv in E as ([] & s2 & _ & E).
  apply bind_ok_inv in E as (loc1 & s3 & E1 & E).
  apply bind_ok_inv in E as (loc2 & s4 & E2 & E).
  set (loc0 := {| cacheable_results := [("_meta", Meta [])];
                  hostvars := []; tags_info := [] |}) in *.
  assert (H0 : groups_within (hostvars loc0) (cacheable_results loc0)).
  { intros g hosts h [Bad|[]]. discriminate. }
  assert (H1 : groups_within (hostvars loc1) (cacheable_results loc1)).
  { destruct (opt_with_tags cfg).
    - destruct (load_tags_spec loc0 s2) as (l' & t' & El & _ & Hg).
      rewrite El in E1. inversion E1; subst. now apply Hg.
    - inversion E1; now subst. }
  pose proof (process_objects_within _ _ _ _ _ H1 E2) as H2.
  unfold collect_hostvars in E.
  apply collect_hostvars_loop in E as (Hgroups & Hvisited & _).
  intros g hosts h Hg Hh.
  apply Hvisited. apply mem_in_keys.
  apply (H2 g hosts); [now apply Hgroups | assumption].
Qed.
End SnapshotFacts.

(** C8.  In the snapshot a live run returns, every host key found in the
    member list of a group has an entry under _meta, hostvars. *)
Theorem live_snapshot_members_have_hostvars (cfg : options) (be : backend)
    (source_data : option snapshot) (s : state) (snap : snapshot)
    (s' : state) :
  _populate_from_source cfg be source_data false s = (Ok snap, s') ->
  forall g hosts h,
    In (g, Group hosts) snap -> In h hosts ->
    exists hv vars,
      Dict.get "_meta" snap = Some (Meta hv) /\ Dict.get h hv = Some vars.
Proof.
  simpl. intros E g hosts h Hg Hh.
  destruct (populate_live_invariant cfg be s snap s' E g hosts h Hg Hh)
    as (hv & G & Hm).
  unfold Dict.mem in Hm.
  destruct (Dict.get h hv) as [vars|] eqn:Gh; [|discriminate].
  now exists hv, vars.
Qed.

Lemma live_snapshot_members_have_hostvars_witness :
  exists snap s',
    _populate_from_source sample_options (sample_backend [web1; web2])
      None false initial_state = (Ok snap, s')
    /\ In ("poweredOff", Group ["web2_u2"]) snap
    /\ exists hv vars,
         Dict.get "_meta" snap = Some (Meta hv)
         /\ Dict.get "web2_u2" hv = Some vars.
Proof.
  eexists. eexists. split; [vm_compute; reflexivity|].
  split; [simpl; tauto|].
  apply (live_snapshot_members_have_hostvars sample_options
           (sample_backend [web1; web2]) None initial_state _ _ eq_refl
           "poweredOff" ["web2_u2"] "web2_u2").
  - simpl. tauto.
  - now left.
Defined.

(* ================================================================== *)
(** * The customValue expansion *)

Section CustomValueFacts.
Variable cfg : options.
Variable be : backend.

(** The expansion stops with IndexError at the first custom value whose
    key the field definitions do not list. *)
Lemma custom_values_raise current_host (cvs : list (Z * string)) :
  forall cv,
    In cv cvs ->
    filter (fun y => Z.eqb (fst y) (fst cv)) (be_field_mgr be) = [] ->
    forall s, exists s',
      for_each
        (fun cust_value : Z * string =>
           match
             filter (fun y => Z.eqb (fst y) (fst cust_value))
               (be_field_mgr be)
           with
           | y :: _ =>
               on_inventory
                 (inv_set_variable current_host (snd y)
                    (PStr (snd cust_value)))
           | [] => raise IndexError
           end)
        cvs s = (Raise IndexError, s').
Proof.
  unfold for_each.
  induction cvs as [|c cvs IH]; intros cv Hin Hnone s; [destruct Hin|].
  simpl.
  destruct (filter (fun y => Z.eqb (fst y) (fst c)) (be_field_mgr be))
    as [|y ys] eqn:F.
  - exists s. reflexivity.
  - destruct Hin as [->|Hin]; [congruence|].
    unfold bind at 1. simpl. now apply (IH cv).
Qed.

Lemma populate_host_properties_raises o current_host cv :
  In "customValue" (opt_properties cfg) ->
  In cv (vm_customValue o) ->
  filter (fun y => Z.eqb (fst y) (fst cv)) (be_field_mgr be) = [] ->
  forall s, exists e s',
    _populate_host_properties cfg be o current_host s = (Raise e, s')
    /\ (e = IndexError
        \/ (is_attr_or_index e = false
            /\ exists v name, py_getattr (be_world be) v name = Raise e)
        \/ exists v, py_dir (be_world be) v = Raise e).
Proof.
  intros Hprop Hcv Hnone. unfold _populate_host_properties, for_each.
  induction (opt_properties cfg) as [|p props IH]; [destruct Hprop|].
  intros s. simpl.
  destruct (String.eqb_spec p "customValue") as [->|N].
  - destruct (custom_values_raise current_host (vm_customValue o) cv
                Hcv Hnone s) as (s' & E).
    exists IndexError, s'. split; [|now left].
    unfold for_each in E. now rewrite (bind_raise _ E).
  - destruct Hprop as [->|Hprop]; [congruence|].
    unfold bind at 1 2. unfold lift.
    destruct (_get_object_prop (be_world be) (vm_ref o) (split_dot p))
      as [v|e] eqn:G.
    + simpl. now apply IH.
    + exists e, s. split; [reflexivity|]. right.
      exact (get_object_prop_raise_inv _ _ _ _ G).
Qed.

(** When the properties before customValue are read without a fault,
    the exception is the IndexError of the expansion. *)
Lemma populate_host_properties_index_error o current_host cv pre post :
  opt_properties cfg = (pre ++ "customValue" :: post)%list ->
  (forall p, In p pre ->
     p <> "customValue"
     /\ exists v, _get_object_prop (be_world be) (vm_ref o) (split_dot p)
                  = Ok v) ->
  In cv (vm_customValue o) ->
  filter (fun y => Z.eqb (fst y) (fst cv)) (be_field_mgr be) = [] ->
  forall s, exists s',
    _populate_host_properties cfg be o current_host s
    = (Raise IndexError, s').
Proof.
  intros Hprops Hpre Hcv Hnone. unfold _populate_host_properties, for_each.
  rewrite Hprops. clear Hprops.
  induction pre as [|p pre IH]; intros s; simpl.
  - destruct (custom_values_raise current_host (vm_customValue o) cv
                Hcv Hnone s) as (s' & E).
    exists s'. unfold for_each in E. now rewrite (bind_raise _ E).
  - destruct (Hpre p (or_introl eq_refl)) as (N & v & G).
    destruct (String.eqb_spec p "customValue") as [->|_]; [congruence|].
    unfold bind at 1 2. unfold lift. rewrite G. simpl.
    apply IH. intros q Hq. apply Hpre. now right.
Qed.

(** A turn of the loop on such a machine, met for the first time, ends
    the run. *)
Lemma process_vm_raises loc o c cv s :
  In "customValue" (opt_properties cfg) ->
  In cv (vm_customValue o) ->
  filter (fun y => Z.eqb (fst y) (fst cv)) (be_field_mgr be) = [] ->
  vm_config_of o = Some c ->
  Dict.mem (host_key (vm_name o) (cfg_uuid c)) (hostvars loc) = false ->
  exists e s', process_vm cfg be loc o s = (Raise e, s').
Proof.
  intros Hprop Hcv Hnone Hc Hnew. unfold process_vm.
  rewrite Hc, Hnew. simpl negb. cbv iota.
  unfold bind at 1. simpl.
  match goal with
  | |- exists e s', bind ?m _ ?st = _ =>
      assert (Hip : exists s1, m st = (Ok tt, s1))
  end.
  { destruct (vm_guest_ipAddress o) as [ip|]; [|eexists; reflexivity].
    destruct (truthy (Some ip)); eexists; reflexivity. }
  destruct Hip as (s1 & Eip). rewrite (bind_ok _ Eip).
  destruct (populate_host_properties_raises o
              (host_key (vm_name o) (cfg_uuid c)) cv Hprop Hcv Hnone s1)
    as (e & s' & E & _).
  exists e, s'. now rewrite (bind_raise _ E).
Qed.

Lemma populate_live_raises o c cv xs ys s :
  In "customValue" (opt_properties cfg) ->
  In cv (vm_customValue o) ->
  filter (fun y => Z.eqb (fst y) (fst cv)) (be_field_mgr be) = [] ->
  vm_config_of o = Some c ->
  (forall spec, be_vm_list be spec = (xs ++ o :: ys)%list) ->
  (forall x, In x xs -> key_of x <> key_of o) ->
  exists e s', populate_live cfg be s = (Raise e, s').
Proof.
  intros Hprop Hcv Hnone Hc Hlist Hfirst. unfold populate_live.
  destruct (_get_vm_filter_spec cfg be s) as [[spec|e] s1] eqn:Ef;
    [|exists e, s1; now rewrite (bind_raise _ Ef)].
  rewrite (bind_ok _ Ef). unfold enumerate.
  unfold bind at 1. simpl. rewrite Hlist.
  set (loc0 := {| cacheable_results := [("_meta", Meta [])];
                  hostvars := []; tags_info := [] |}).
  match goal with
  | |- exists e s', bind ?m _ ?st = _ =>
      assert (Ht : exists loc1 s2, m st = (Ok loc1, s2)
                                   /\ hostvars loc1 = [])
  end.
  { destruct (opt_with_tags cfg).
    - destruct (load_tags_spec be loc0
                  {| st_inventory := st_inventory s1;
                     st_log := (st_log s1 ++ [ListedVMs spec])%list |})
        as (loc1 & s2 & E & Hv & _).
      exists loc1, s2. split; [exact E | exact Hv].
    - eexists. eexists. split; reflexivity. }
  destruct Ht as (loc1 & s2 & Et & Hv). rewrite (bind_ok _ Et).
  assert (Hloop : exists e s',
            process_objects cfg be (xs ++ o :: ys) loc1 s2 = (Raise e, s')).
  { unfold process_objects. rewrite for_fold_app.
    destruct (for_fold (process_vm cfg be) xs loc1 s2)
      as [[loc2|e] s3] eqn:Ex;
      [|exists e, s3; now rewrite (bind_raise _ Ex)].
    rewrite (bind_ok _ Ex). cbn [for_fold].
    apply (process_objects_hostvars cfg be) in Ex as [Ehv _].
    assert (Hnew : Dict.mem (host_key (vm_name o) (cfg_uuid c))
                     (hostvars loc2) = false).
    { destruct (Dict.mem (host_key (vm_name o) (cfg_uuid c))
                  (hostvars loc2)) eqn:Hm; [|reflexivity].
      rewrite Ehv, Hv in Hm.
      apply note_hosts_inv in Hm as [Hm|(x & Hin & K)]; [discriminate|].
      exfalso. apply (Hfirst x Hin). rewrite K. unfold key_of.
      now rewrite Hc. }
    destruct (process_vm_raises loc2 o c cv s3 Hprop Hcv Hnone Hc Hnew)
      as (e & s' & E).
    exists e, s'. now rewrite (bind_raise _ E). }
  destruct Hloop as (e & s' & E).
  exists e, s'. now rewrite (bind_raise _ E).
Qed.
End CustomValueFacts.

(** C10.  With customValue among the properties, a machine that carries a
    custom value whose key no field definition has makes the property
    population raise, and nothing catches it, so a run that meets such a
    machine for the first time fails.  The exception is the IndexError of
    taking the first element of the empty list of matching names (it can
    only be another one when an attribute read of an earlier property, or
    a [dir] in its flattening, has already let a fault through). *)
Theorem custom_value_without_definition_fails (cfg : options) (be : backend)
    (o : vm) (cv : Z * string) :
  In "customValue" (opt_properties cfg) ->
  In cv (vm_customValue o) ->
  filter (fun y => Z.eqb (fst y) (fst cv)) (be_field_mgr be) = [] ->
  (forall current_host s, exists e s',
     _populate_host_properties cfg be o current_host s = (Raise e, s')
     /\ (e = IndexError
         \/ (is_attr_or_index e = false
             /\ exists v name, py_getattr (be_world be) v name = Raise e)
         \/ exists v, py_dir (be_world be) v = Raise e))
  /\ (forall pre post current_host s,
        opt_properties cfg = (pre ++ "customValue" :: post)%list ->
        (forall p, In p pre ->
           p <> "customValue"
           /\ exists v, _get_object_prop (be_world be) (vm_ref o)
                          (split_dot p) = Ok v) ->
        exists s',
          _populate_host_properties cfg be o current_host s
          = (Raise IndexError, s'))
  /\ (forall c xs ys source_data s,
        vm_config_of o = Some c ->
        (forall spec, be_vm_list be spec = (xs ++ o :: ys)%list) ->
        (forall x, In x xs -> key_of x <> key_of o) ->
        exists e s',
          _populate_from_source cfg be source_data false s = (Raise e, s')).
Proof.
  intros Hprop Hcv Hnone. split; [|split].
  - intros current_host s.
    now apply (populate_host_properties_raises cfg be o current_host cv).
  - intros pre post current_host s Hprops Hpre.
    now apply (populate_host_properties_index_error cfg be o current_host cv
                 pre post).
  - intros c xs ys source_data s Hc Hlist Hfirst. simpl.
    now apply (populate_live_raises cfg be o c cv xs ys s).
Qed.

Lemma custom_value_without_definition_fails_witness :
  (exists s',
     _populate_host_properties
       (with_properties sample_options false ["name"; "customValue"])
       (sample_backend [web1; stale_field_vm; web2]) stale_field_vm
       "old_u5" initial_state
     = (Raise IndexError, s'))
  /\ exists e s',
       _populate_from_source
         (with_properties sample_options false ["name"; "customValue"])
         (sample_backend [web1; stale_field_vm; web2]) None false
         initial_state
       = (Raise e, s').
Proof.
  destruct (custom_value_without_definition_fails
              (with_properties sample_options false ["name"; "customValue"])
              (sample_backend [web1; stale_field_vm; web2])
              stale_field_vm (202%Z, "orphan")
              (or_intror (or_introl eq_refl))
              (or_intror (or_introl eq_refl))
              eq_refl) as (_ & Hindex & Hrun).
  split.
  - apply (Hindex ["name"] [] "old_u5" initial_state eq_refl).
    intros p [<-|[]]. split; [discriminate|].
    exists (PStr "web1"). reflexivity.
  - apply (Hrun {| cfg_uuid := "u5";
                   cfg_guestId := Some "otherLinux64Guest" |}
             [web1] [web2] None initial_state eq_refl).
    + intros spec. reflexivity.
    + intros x [<-|[]]. discriminate.
Defined.

(* ================================================================== *)
(** * More on the filter-spec builder *)

Lemma log_more_nil s : log_more s [] = s.
Proof. destruct s. unfold log_more. simpl. now rewrite app_nil_r. Qed.

Lemma log_more_app s a b :
  log_more (log_more s a) b = log_more s (a ++ b).
Proof. unfold log_more. simpl. now rewrite app_assoc. Qed.

Section BuilderFacts.
Variable cfg : options.
Variable be : backend.

Lemma handle_error_warn message s :
  opt_no_object_failure cfg = "warn" ->
  _handle_error cfg message s = (Ok tt, log_more s [Warning message]).
Proof. unfold _handle_error. now intros ->. Qed.

Lemma handle_error_quiet message s :
  opt_no_object_failure cfg <> "warn" ->
  opt_no_object_failure cfg <> "error" ->
  _handle_error cfg message s = (Ok tt, s).
Proof.
  unfold _handle_error. intros Nw Ne.
  destruct (String.eqb_spec (opt_no_object_failure cfg) "warn");
    [congruence|].
  destruct (String.eqb_spec (opt_no_object_failure cfg) "error");
    [congruence | reflexivity].
Qed.

Lemma collect_references_result_from list_by_name what names :
  forall temp0 s temp s',
    for_fold
      (fun temp name =>
         match list_by_name name with
         | first :: _ => ret (temp ++ [first])%list
         | [] =>
             _handle_error cfg ("Unable to find " ++ what ++ " " ++ name) ;;;
             ret temp
         end)
      names temp0 s = (Ok temp, s') ->
    temp = (temp0 ++ resolved list_by_name names)%list.
Proof.
  induction names as [|n names IH]; intros temp0 s temp s' H;
    cbn [for_fold] in H.
  - inversion H. simpl. now rewrite app_nil_r.
  - apply bind_ok_inv in H as (acc1 & s1 & H1 & H).
    apply IH in H. subst temp. simpl.
    destruct (list_by_name n) as [|first others].
    + apply bind_ok_inv in H1 as ([] & s0 & _ & H1). inversion H1.
      reflexivity.
    + inversion H1. simpl. now rewrite <- app_assoc.
Qed.

(** Whatever the policy, the references a block collects are the first
    matches of its names. *)
Lemma collect_references_result list_by_name what names s temp s' :
  collect_references cfg list_by_name what names s = (Ok temp, s') ->
  temp = resolved list_by_name names.
Proof.
  unfold collect_references. intros H.
  now apply collect_references_result_from in H.
Qed.

Lemma category_block_result list_by_name what names setter spec s spec' s' :
  category_block cfg list_by_name what names setter spec s = (Ok spec', s') ->
  spec' = if is_set names
          then setter spec (py_set (resolved list_by_name names))
          else spec.
Proof.
  unfold category_block. destruct (is_set names).
  - intros H. apply bind_ok_inv in H as (temp & s1 & H1 & H).
    apply collect_references_result in H1. subst temp. now inversion H.
  - intros H. now inversion H.
Qed.

Lemma collect_references_warn_from list_by_name what names :
  opt_no_object_failure cfg = "warn" ->
  forall temp s,
    for_fold
      (fun temp name =>
         match list_by_name name with
         | first :: _ => ret (temp ++ [first])%list
         | [] =>
             _handle_error cfg ("Unable to find " ++ what ++ " " ++ name) ;;;
             ret temp
         end)
      names temp s
    = (Ok (temp ++ resolved list_by_name names)%list,
       log_more s
         (map (fun m => Warning (not_found_message (fst m) (snd m)))
            (misses list_by_name what names))).
Proof.
  intros P. induction names as [|n names IH]; intros temp s; simpl.
  - now rewrite app_nil_r, log_more_nil.
  - unfold misses. simpl.
    destruct (list_by_name n) as [|first others]; simpl.
    + unfold bind at 1 2. rewrite handle_error_warn by assumption.
      simpl. rewrite IH. unfold misses.
      now rewrite log_more_app.
    + unfold bind at 1. simpl. rewrite IH. unfold misses.
      now rewrite <- app_assoc.
Qed.

Lemma category_block_warn list_by_name what names setter spec s :
  opt_no_object_failure cfg = "warn" ->
  category_block cfg list_by_name what names setter spec s
  = (Ok (if is_set names
         then setter spec (py_set (resolved list_by_name names))
         else spec),
     log_more s
       (map (fun m => Warning (not_found_message (fst m) (snd m)))
          (misses list_by_name what names))).
Proof.
  intros P. unfold category_block.
  destruct (is_set names) eqn:I.
  - unfold collect_references, bind.
    now rewrite (collect_references_warn_from list_by_name what names P).
  - rewrite misses_unset by assumption. simpl. now rewrite log_more_nil.
Qed.

Lemma collect_references_quiet_from list_by_name what names :
  opt_no_object_failure cfg <> "warn" ->
  opt_no_object_failure cfg <> "error" ->
  forall temp s,
    for_fold
      (fun temp name =>
         match list_by_name name with
         | first :: _ => ret (temp ++ [first])%list
         | [] =>
             _handle_error cfg ("Unable to find " ++ what ++ " " ++ name) ;;;
             ret temp
         end)
      names temp s
    = (Ok (temp ++ resolved list_by_name names)%list, s).
Proof.
  intros Nw Ne. induction names as [|n names IH]; intros temp s; simpl.
  - now rewrite app_nil_r.
  - destruct (list_by_name n) as [|first others]; simpl.
    + unfold bind at 1 2. rewrite handle_error_quiet by assumption.
      simpl. apply IH.
    + unfold bind at 1. simpl. rewrite IH. now rewrite <- app_assoc.
Qed.

Lemma category_block_quiet list_by_name what names setter spec s :
  opt_no_object_failure cfg <> "warn" ->
  opt_no_object_failure cfg <> "error" ->
  category_block cfg list_by_name what names setter spec s
  = (Ok (if is_set names
         then setter spec (py_set (resolved list_by_name names))
         else spec), s).
Proof.
  intros Nw Ne. unfold category_block.
  destruct (is_set names); [|reflexivity].
  unfold collect_references, bind.
  now rewrite (collect_references_quiet_from list_by_name what names Nw Ne).
Qed.

(** The five blocks, run on their results, give the expected filter. *)
Lemma blocks_give_expected_filter_spec :
  (let s1 := if is_set (opt_datacenters cfg)
             then set_datacenters empty_filter_spec
                    (py_set (resolved (be_datacenters be)
                               (opt_datacenters cfg)))
             else empty_filter_spec in
   let s2 := if is_set (opt_clusters cfg)
             then set_clusters s1
                    (py_set (resolved (be_clusters be) (opt_clusters cfg)))
             else s1 in
   let s3 := if is_set (opt_folders cfg)
             then set_folders s2
                    (py_set (resolved (be_folders be) (opt_folders cfg)))
             else s2 in
   let s4 := if is_set (opt_esxi_hostsystems cfg)
             then set_folders s3
                    (py_set (resolved (be_hosts be)
                               (opt_esxi_hostsystems cfg)))
             else s3 in
   if is_set (opt_resource_pools cfg)
   then set_folders s4
          (py_set (resolved (be_resource_pools be) (opt_resource_pools cfg)))
   else s4)
  = expected_filter_spec cfg be.
Proof.
  unfold expected_filter_spec, dimension.
  destruct (is_set (opt_datacenters cfg)), (is_set (opt_clusters cfg)),
    (is_set (opt_folders cfg)), (is_set (opt_esxi_hostsystems cfg)),
    (is_set (opt_resource_pools cfg)); reflexivity.
Qed.

Lemma get_vm_filter_spec_result s spec s' :
  _get_vm_filter_spec cfg be s = (Ok spec, s') ->
  spec = expected_filter_spec cfg be.
Proof.
  rewrite get_vm_filter_spec_blocks. intros H.
  apply bind_ok_inv in H as (s1 & t1 & H1 & H).
  apply bind_ok_inv in H as (s2 & t2 & H2 & H).
  apply bind_ok_inv in H as (s3 & t3 & H3 & H).
  apply bind_ok_inv in H as (s4 & t4 & H4 & H).
  apply bind_ok_inv in H as (s5 & t5 & H5 & H).
  inversion H; subst spec.
  apply category_block_result in H1, H2, H3, H4, H5.
  rewrite <- blocks_give_expected_filter_spec. cbv zeta.
  now subst s1 s2 s3 s4 s5.
Qed.

Lemma get_vm_filter_spec_warn s :
  opt_no_object_failure cfg = "warn" ->
  _get_vm_filter_spec cfg be s
  = (Ok (expected_filter_spec cfg be), log_more s (warnings_of cfg be)).
Proof.
  intros P. rewrite get_vm_filter_spec_blocks.
  repeat (erewrite bind_ok by (apply category_block_warn; exact P)).
  unfold ret. rewrite !log_more_app.
  rewrite <- blocks_give_expected_filter_spec. cbv zeta.
  unfold warnings_of, unresolved. now rewrite !map_app.
Qed.

Lemma get_vm_filter_spec_quiet s :
  opt_no_object_failure cfg <> "warn" ->
  opt_no_object_failure cfg <> "error" ->
  _get_vm_filter_spec cfg be s = (Ok (expected_filter_spec cfg be), s).
Proof.
  intros Nw Ne. rewrite get_vm_filter_spec_blocks.
  repeat (erewrite bind_ok by (apply category_block_quiet; assumption)).
  unfold ret. now rewrite <- blocks_give_expected_filter_spec.
Qed.
End BuilderFacts.

(* ================================================================== *)
(** * How the result of a live run is built up *)

Lemma grows_refl cr : grows cr cr.
Proof.
  split; [|auto]. intros g.
  destruct (Dict.get g cr) as [[hosts|hv]|]; auto.
  exists hosts. split; [reflexivity | apply incl_refl].
Qed.

Lemma grows_trans cr1 cr2 cr3 : grows cr1 cr2 -> grows cr2 cr3 -> grows cr1 cr3.
Proof.
  intros [H12 M12] [H23 M23]. split; [|auto].
  intros g. specialize (H12 g). specialize (H23 g).
  destruct (Dict.get g cr1) as [[hosts|hv]|]; auto.
  - destruct H12 as (hosts2 & E2 & I2). rewrite E2 in H23.
    destruct H23 as (hosts3 & E3 & I3).
    exists hosts3. split; [assumption | now apply incl_tran with hosts2].
  - now rewrite H12 in H23.
Qed.

Lemma grows_new_group cr g :
  Dict.mem g cr = false -> grows cr (Dict.set cr g (Group [])).
Proof.
  intros Hnew. split.
  - intros g'. destruct (string_dec g' g) as [->|N].
    + unfold Dict.mem in Hnew. now destruct (Dict.get g cr).
    + rewrite get_set_other by assumption.
      destruct (Dict.get g' cr) as [[hosts|hv]|]; auto.
      exists hosts. split; [reflexivity | apply incl_refl].
  - intros g' hv Hin. apply in_set in Hin as [[_ Bad]|Hin];
      [discriminate | assumption].
Qed.

Lemma append_host_inv cr g host cr' :
  append_host cr g host = Ok cr' ->
  exists hosts,
    Dict.get g cr = Some (Group hosts)
    /\ cr' = Dict.set cr g (Group (hosts ++ [host])).
Proof.
  unfold append_host.
  destruct (Dict.get g cr) as [[hosts|hv]|]; try discriminate.
  intros E. inversion E. now exists hosts.
Qed.

Lemma grows_append cr g host cr' :
  append_host cr g host = Ok cr' -> grows cr cr'.
Proof.
  intros H. apply append_host_inv in H as (hosts & G & ->). split.
  - intros g'. destruct (string_dec g' g) as [->|N].
    + rewrite G, get_set_same. eexists. split; [reflexivity|].
      apply incl_appl, incl_refl.
    + rewrite get_set_other by assumption.
      destruct (Dict.get g' cr) as [[hs|hv]|]; auto.
      exists hs. split; [reflexivity | apply incl_refl].
  - intros g' hv Hin. apply in_set in Hin as [[_ Bad]|Hin];
      [discriminate | assumption].
Qed.

Lemma append_host_member cr g host cr' :
  append_host cr g host = Ok cr' ->
  exists hosts, Dict.get g cr' = Some (Group hosts) /\ In host hosts.
Proof.
  intros H. apply append_host_inv in H as (hosts & G & ->).
  rewrite get_set_same. eexists. split; [reflexivity|].
  apply in_or_app. right. now left.
Qed.

Lemma grows_member cr cr' g hosts h :
  grows cr cr' ->
  Dict.get g cr = Some (Group hosts) -> In h hosts ->
  exists hosts', Dict.get g cr' = Some (Group hosts') /\ In h hosts'.
Proof.
  intros [H _] G Hin. specialize (H g). rewrite G in H.
  destruct H as (hosts' & E & I). exists hosts'. auto.
Qed.

Lemma grows_mem cr cr' g :
  grows cr cr' -> Dict.mem g cr = true -> Dict.mem g cr' = true.
Proof.
  intros [H _]. specialize (H g). unfold Dict.mem.
  destruct (Dict.get g cr) as [[hosts|hv]|]; [| |discriminate].
  - destruct H as (hosts' & -> & _). auto.
  - now rewrite H.
Qed.

Lemma grows_meta cr cr' g hv :
  grows cr cr' ->
  Dict.get g cr = Some (Meta hv) -> Dict.get g cr' = Some (Meta hv).
Proof. intros [H _] G. specialize (H g). now rewrite G in H. Qed.

Lemma grows_no_new_meta cr cr' g hv :
  grows cr cr' -> In (g, Meta hv) cr' -> In (g, Meta hv) cr.
Proof. intros [_ H]. apply H. Qed.

Section GrowthFacts.
Variable cfg : options.
Variable be : backend.

Lemma tag_groups_grows tags o host cr s cr' s' :
  tag_groups cfg be tags o host cr s = (Ok cr', s') ->
  grows cr cr'
  /\ (opt_with_tags cfg = true ->
      forall t, In t (be_attached_tags be (vm_moid o)) ->
      exists name hosts,
        Dict.get t tags = Some name
        /\ Dict.get name cr' = Some (Group hosts) /\ In host hosts).
Proof.
  unfold tag_groups.
  destruct (opt_with_tags cfg);
    [|intros E; inversion E; subst; split;
      [apply grows_refl | discriminate]].
  generalize (be_attached_tags be (vm_moid o)). intros l.
  revert cr s. induction l as [|t l IH]; intros cr s E; cbn [for_fold] in E.
  - inversion E; subst. split; [apply grows_refl|]. intros _ t [].
  - apply bind_ok_inv in E as (cr1 & s1 & E1 & E).
    destruct (Dict.get t tags) as [name|] eqn:G; [|discriminate].
    apply bind_ok_inv in E1 as ([] & s0 & _ & E1).
    unfold lift in E1. inversion E1 as [[A B]]. clear E1.
    destruct (IH _ _ E) as (Hg & Hm).
    pose proof (grows_append _ _ _ _ A) as Hg1.
    split; [now apply grows_trans with cr1|].
    intros _ t' [<-|Hin].
    + destruct (append_host_member _ _ _ _ A) as (hosts & G1 & Hin1).
      destruct (grows_member _ _ _ _ _ Hg G1 Hin1) as (hosts' & G' & Hin').
      exists name, hosts'. auto.
    + now apply Hm.
Qed.

Lemma power_group_grows o host cr s cr' s' :
  power_group o host cr s = (Ok cr', s') ->
  grows cr cr'
  /\ exists hosts,
       Dict.get (vm_powerState o) cr' = Some (Group hosts) /\ In host hosts.
Proof.
  unfold power_group. intros E.
  apply bind_ok_inv in E as (cr1 & s1 & E1 & E).
  apply bind_ok_inv in E as (cr2 & s2 & E2 & E).
  apply bind_ok_inv in E as ([] & s3 & _ & E).
  inversion E; subst cr2. unfold lift in E2. inversion E2 as [[A B]].
  assert (Hgrow : grows cr cr1).
  { destruct (Dict.mem (vm_powerState o) cr) eqn:Hm; simpl in E1.
    - inversion E1; subst. apply grows_refl.
    - apply bind_ok_inv in E1 as ([] & s0 & _ & E1). inversion E1.
      now apply grows_new_group. }
  split.
  - apply grows_trans with cr1; [assumption | now apply grows_append in A].
  - now apply append_host_member in A.
Qed.

Lemma guest_group_grows c host cr s cr' s' :
  guest_group c host cr s = (Ok cr', s') ->
  grows cr cr'
  /\ exists g hosts,
       cfg_guestId c = Some g
       /\ Dict.get g cr' = Some (Group hosts) /\ In host hosts.
Proof.
  unfold guest_group. intros E.
  apply bind_ok_inv in E as (cr1 & s1 & E1 & E).
  destruct (cfg_guestId c) as [g|]; [|discriminate].
  apply bind_ok_inv in E as (cr2 & s2 & E2 & E).
  apply bind_ok_inv in E as ([] & s3 & _ & E).
  inversion E; subst cr2. unfold lift in E2. inversion E2 as [[A B]].
  assert (Hgrow : grows cr cr1).
  { destruct (truthy (Some g)); simpl in E1;
      [|inversion E1; subst; apply grows_refl].
    destruct (Dict.mem g cr) eqn:Hm; simpl in E1.
    - inversion E1; subst. apply grows_refl.
    - apply bind_ok_inv in E1 as ([] & s0 & _ & E1). inversion E1.
      now apply grows_new_group. }
  split.
  - apply grows_trans with cr1; [assumption | now apply grows_append in A].
  - apply append_host_member in A as (hosts & G & Hin).
    exists g, hosts. auto.
Qed.

(** What a turn of the loop does for a machine it meets for the first
    time: the key joins the group of the power state, the group of the
    guest id and, with tags, the group of every attached tag. *)
Lemma process_vm_first loc o c s loc' s' :
  vm_config_of o = Some c ->
  Dict.mem (host_key (vm_name o) (cfg_uuid c)) (hostvars loc) = false ->
  process_vm cfg be loc o s = (Ok loc', s') ->
  grows (cacheable_results loc) (cacheable_results loc')
  /\ (exists hosts,
        Dict.get (vm_powerState o) (cacheable_results loc')
        = Some (Group hosts)
        /\ In (host_key (vm_name o) (cfg_uuid c)) hosts)
  /\ (exists g hosts,
        cfg_guestId c = Some g
        /\ Dict.get g (cacheable_results loc') = Some (Group hosts)
        /\ In (host_key (vm_name o) (cfg_uuid c)) hosts)
  /\ (opt_with_tags cfg = true ->
      forall t, In t (be_attached_tags be (vm_moid o)) ->
      exists name hosts,
        Dict.get t (tags_info loc) = Some name
        /\ Dict.get name (cacheable_results loc') = Some (Group hosts)
        /\ In (host_key (vm_name o) (cfg_uuid c)) hosts).
Proof.
  intros Hc Hnew. unfold process_vm. rewrite Hc, Hnew. simpl negb. cbv iota.
  intros E.
  apply bind_ok_inv in E as ([] & s1 & _ & E).
  apply bind_ok_inv in E as ([] & s2 & _ & E).
  apply bind_ok_inv in E as ([] & s3 & _ & E).
  apply bind_ok_inv in E as (cr1 & s4 & E1 & E).
  apply bind_ok_inv in E as (cr2 & s5 & E2 & E).
  apply bind_ok_inv in E as (cr3 & s6 & E3 & E).
  inversion E; subst; simpl. clear E.
  apply tag_groups_grows in E1 as (G1 & T1).
  apply power_group_grows in E2 as (G2 & (hp & Pp & Ip)).
  apply guest_group_grows in E3 as (G3 & (g & hg & Eg & Pg & Ig)).
  split; [|split; [|split]].
  - apply grows_trans with cr1; [assumption|].
    now apply grows_trans with cr2.
  - now apply (grows_member cr2 cr3 _ hp).
  - exists g, hg. auto.
  - intros Ht t Hin. destruct (T1 Ht t Hin) as (name & hosts & Gt & Gn & Hh).
    destruct (grows_member cr1 cr2 _ _ _ G2 Gn Hh) as (h2 & Gn2 & Hh2).
    destruct (grows_member cr2 cr3 _ _ _ G3 Gn2 Hh2) as (h3 & Gn3 & Hh3).
    exists name, h3. auto.
Qed.

Lemma process_vm_grows loc o s loc' s' :
  process_vm cfg be loc o s = (Ok loc', s') ->
  grows (cacheable_results loc) (cacheable_results loc').
Proof.
  intros E. destruct (vm_config_of o) as [c|] eqn:Hc.
  - destruct (Dict.mem (host_key (vm_name o) (cfg_uuid c)) (hostvars loc))
      eqn:Hm.
    + unfold process_vm in E. rewrite Hc, Hm in E. inversion E; subst.
      apply grows_refl.
    + now destruct (process_vm_first loc o c s loc' s' Hc Hm E).
  - unfold process_vm in E. rewrite Hc in E. inversion E; subst.
    apply grows_refl.
Qed.

Lemma process_objects_grows objects :
  forall loc s loc' s',
    process_objects cfg be objects loc s = (Ok loc', s') ->
    grows (cacheable_results loc) (cacheable_results loc').
Proof.
  unfold process_objects.
  induction objects as [|o objects IH]; intros loc s loc' s' E;
    cbn [for_fold] in E.
  - inversion E; subst. apply grows_refl.
  - apply bind_ok_inv in E as (loc1 & s1 & E1 & E).
    apply grows_trans with (cacheable_results loc1).
    + now apply process_vm_grows in E1.
    + now apply IH in E.
Qed.

(** The tag pass: it fills the tag table, gives every tag name an entry
    and leaves [hostvars] alone. *)
Lemma load_tags_result_from tags :
  forall loc s loc' s',
    for_fold
      (fun loc tag =>
         let tag_obj := be_tag_get be tag in
         let tags_info' :=
           Dict.set (tags_info loc) (tag_id tag_obj) (tag_name tag_obj) in
         if negb (Dict.mem (tag_name tag_obj) (cacheable_results loc))
         then
           on_inventory (inv_add_group (tag_name tag_obj)) ;;;
           ret {| cacheable_results :=
                    Dict.set (cacheable_results loc) (tag_name tag_obj)
                      (Group []);
                  hostvars := hostvars loc;
                  tags_info := tags_info' |}
         else
           ret {| cacheable_results := cacheable_results loc;
                  hostvars := hostvars loc;
                  tags_info := tags_info' |})
      tags loc s = (Ok loc', s') ->
    grows (cacheable_results loc) (cacheable_results loc')
    /\ hostvars loc' = hostvars loc
    /\ tags_info loc' =
       fold_left
         (fun d tag =>
            Dict.set d (tag_id (be_tag_get be tag))
              (tag_name (be_tag_get be tag)))
         tags (tags_info loc)
    /\ (forall t, In t tags ->
        Dict.mem (tag_name (be_tag_get be t)) (cacheable_results loc') = true)
    /\ st_log s' = st_log s.
Proof.
  induction tags as [|t tags IH]; intros loc s loc' s' E;
    cbn [for_fold] in E.
  - inversion E; subst. split; [apply grows_refl|]. repeat split; auto.
  - apply bind_ok_inv in E as (loc1 & s1 & E1 & E).
    apply IH in E as (Hg & Hv & Ht & Hm & Hl).
    cbv zeta in E1.
    destruct (Dict.mem (tag_name (be_tag_get be t)) (cacheable_results loc))
      eqn:M; simpl negb in E1; cbv iota in E1.
    + inversion E1; subst loc1 s1. clear E1. simpl in *.
      split; [assumption|]. repeat split; auto.
      intros t' [<-|Hin]; [|now apply Hm].
      now apply (grows_mem _ _ _ Hg).
    + apply bind_ok_inv in E1 as ([] & s0 & E0 & E1).
      inversion E1; subst loc1 s1. clear E1. simpl in *.
      inversion E0; subst s0. simpl in Hl.
      split.
      { apply grows_trans with
          (Dict.set (cacheable_results loc) (tag_name (be_tag_get be t))
             (Group [])); [now apply grows_new_group | assumption]. }
      repeat split; auto.
      intros t' [<-|Hin]; [|now apply Hm].
      apply (grows_mem _ _ _ Hg). apply mem_set_same.
Qed.

Lemma load_tags_result loc s loc' s' :
  load_tags be loc s = (Ok loc', s') ->
  grows (cacheable_results loc) (cacheable_results loc')
  /\ hostvars loc' = hostvars loc
  /\ tags_info loc' =
     fold_left
       (fun d tag =>
          Dict.set d (tag_id (be_tag_get be tag))
            (tag_name (be_tag_get be tag)))
       (be_tag_list be) (tags_info loc)
  /\ (forall t, In t (be_tag_list be) ->
      Dict.mem (tag_name (be_tag_get be t)) (cacheable_results loc') = true)
  /\ st_log s' = st_log s.
Proof. unfold load_tags. apply load_tags_result_from. Qed.
End GrowthFacts.

(* ================================================================== *)
(** * Key order *)

Lemma existsb_eqb_in (k : string) (l : list string) :
  existsb (String.eqb k) l = true <-> In k l.
Proof.
  rewrite existsb_exists. split.
  - intros (x & Hin & E). apply String.eqb_eq in E. now subst.
  - intros Hin. exists k. split; [assumption | apply String.eqb_refl].
Qed.

Lemma add_key_in ks k x : In x (add_key ks k) <-> In x ks \/ x = k.
Proof.
  unfold add_key. destruct (existsb (String.eqb k) ks) eqn:E.
  - apply existsb_eqb_in in E. split; [now left | intros [H| ->]; auto].
  - rewrite in_app_iff. simpl. intuition (subst; auto).
Qed.

Lemma add_key_nodup ks k : NoDup ks -> NoDup (add_key ks k).
Proof.
  intros H. unfold add_key. destruct (existsb (String.eqb k) ks) eqn:E;
    [assumption|].
  apply NoDup_app; auto.
  - repeat constructor. intros [].
  - intros x Hin [<-|[]].
    apply existsb_eqb_in in Hin. congruence.
Qed.

Lemma fold_add_key_in l : forall acc x,
  In x (fold_left add_key l acc) <-> In x acc \/ In x l.
Proof.
  induction l as [|k l IH]; intros acc x; simpl; [tauto|].
  rewrite IH, add_key_in. intuition.
Qed.

Lemma fold_add_key_nodup l : forall acc,
  NoDup acc -> NoDup (fold_left add_key l acc).
Proof.
  induction l as [|k l IH]; intros acc H; simpl; [assumption|].
  apply IH. now apply add_key_nodup.
Qed.

Lemma fold_add_key_fresh l : forall acc,
  NoDup (acc ++ l) -> fold_left add_key l acc = (acc ++ l)%list.
Proof.
  induction l as [|k l IH]; intros acc H; simpl.
  - now rewrite app_nil_r.
  - assert (Hk : existsb (String.eqb k) acc = false).
    { destruct (existsb (String.eqb k) acc) eqn:E; [|reflexivity].
      apply existsb_eqb_in in E. apply NoDup_remove_2 in H.
      exfalso. apply H. apply in_or_app. now left. }
    unfold add_key at 2. rewrite Hk. rewrite IH.
    + now rewrite <- app_assoc.
    + now rewrite <- app_assoc.
Qed.

Lemma key_order_nodup l : NoDup (key_order l).
Proof. apply fold_add_key_nodup. constructor. Qed.

Lemma key_order_idem l : key_order (key_order l) = key_order l.
Proof.
  unfold key_order at 1. rewrite fold_add_key_fresh; [reflexivity|].
  apply key_order_nodup.
Qed.

Lemma mem_existsb {V : Type} (d : Dict.t (V:=V)) k :
  Dict.mem k d = existsb (String.eqb k) (Dict.keys d).
Proof.
  unfold Dict.mem. induction d as [|[k0 v0] d IH]; simpl; [reflexivity|].
  rewrite (String.eqb_sym k k0).
  destruct (String.eqb k0 k); [reflexivity | assumption].
Qed.

Lemma keys_note_host hv o :
  Dict.keys (note_host hv o)
  = fold_left add_key
      (match key_of o with Some k => [k] | None => [] end) (Dict.keys hv).
Proof.
  unfold note_host. destruct (key_of o) as [k|]; [|reflexivity]. simpl.
  destruct (Dict.mem k hv) eqn:M.
  - unfold add_key. now rewrite <- mem_existsb, M.
  - apply keys_set.
Qed.

Lemma keys_note_hosts objects : forall hv,
  Dict.keys (note_hosts hv objects)
  = fold_left add_key (keys_of objects) (Dict.keys hv).
Proof.
  unfold note_hosts, keys_of.
  induction objects as [|o objects IH]; intros hv; simpl; [reflexivity|].
  rewrite IH, keys_note_host, fold_left_app. reflexivity.
Qed.

Lemma nodup_keys_get {V : Type} (d : Dict.t (V:=V)) k v :
  NoDup (Dict.keys d) -> In (k, v) d -> Dict.get k d = Some v.
Proof.
  induction d as [|[k0 v0] d IH]; simpl; intros N Hin; [destruct Hin|].
  inversion N as [|? ? Hnot N']; subst.
  destruct Hin as [E|Hin].
  - inversion E; subst. now rewrite String.eqb_refl.
  - destruct (String.eqb_spec k0 k) as [->|_]; [|now apply IH].
    exfalso. apply Hnot. apply in_map_iff. now exists (k, v).
Qed.

(* ================================================================== *)
(** * The closing loop and the shape of a live run *)

Lemma collect_hostvars_loop_result (l : list string) :
  forall cr s snap s' hv0,
    for_fold
      (fun cr host =>
         fun s =>
           match inv_get_host host (st_inventory s) with
           | None => (Raise AttributeError, s)
           | Some (name, vars) => (record_hostvars cr name vars, s)
           end)
      l cr s = (Ok snap, s') ->
    Dict.get "_meta" cr = Some (Meta hv0) ->
    s' = s
    /\ (forall g, g <> "_meta" -> Dict.get g snap = Dict.get g cr)
    /\ exists hv,
         Dict.get "_meta" snap = Some (Meta hv)
         /\ Dict.keys hv = fold_left add_key l (Dict.keys hv0)
         /\ (forall h, In h l ->
             Dict.get h hv = Dict.get h (inv_hosts (st_inventory s)))
         /\ (forall h, ~ In h l -> Dict.get h hv = Dict.get h hv0).
Proof.
  induction l as [|x l IH]; intros cr s snap s' hv0 E G; cbn [for_fold] in E.
  - inversion E; subst. repeat split; auto.
    exists hv0. repeat split; auto. intros h [].
  - apply bind_ok_inv in E as (cr1 & s1 & E1 & E).
    unfold inv_get_host in E1.
    destruct (Dict.get x (inv_hosts (st_inventory s))) as [vars|] eqn:Gx;
      [|discriminate].
    unfold record_hostvars in E1. rewrite G in E1.
    inversion E1; subst cr1 s1. clear E1.
    destruct (IH _ _ _ _ (Dict.set hv0 x vars) E (get_set_same _ _ _))
      as (Hs & Hother & hv & Gm & Hk & Hin & Hout).
    split; [assumption|]. split.
    + intros g N. rewrite Hother by assumption.
      now apply get_set_other.
    + exists hv. split; [assumption|]. split; [|split].
      * simpl. now rewrite Hk, keys_set.
      * intros h Hh. destruct (in_dec string_dec h l) as [Hl|Hl];
          [now apply Hin|].
        destruct Hh as [<-|Hh]; [|contradiction].
        rewrite Hout by assumption. now rewrite get_set_same.
      * intros h Hh. rewrite Hout by (intros C; apply Hh; now right).
        apply get_set_other. intros ->. apply Hh. now left.
Qed.

Section LiveRunFacts.
Variable cfg : options.
Variable be : backend.

(** A live run that returns went through the builder, the tag pass, the
    loop over the objects and the closing loop. *)
Lemma populate_live_inv s snap s' :
  populate_live cfg be s = (Ok snap, s') ->
  exists s1 loc1 s2 loc2,
    _get_vm_filter_spec cfg be s = (Ok (expected_filter_spec cfg be), s1)
    /\ st_log s2 = (st_log s1 ++ [ListedVMs (expected_filter_spec cfg be)])%list
    /\ hostvars loc1 = []
    /\ grows [("_meta", Meta [])] (cacheable_results loc1)
    /\ Dict.get "_meta" (cacheable_results loc1) = Some (Meta [])
    /\ tags_info loc1 = (if opt_with_tags cfg then tag_table be else [])
    /\ (opt_with_tags cfg = true ->
        forall t, In t (be_tag_list be) ->
        Dict.mem (tag_name (be_tag_get be t)) (cacheable_results loc1) = true)
    /\ process_objects cfg be
         (be_vm_list be (expected_filter_spec cfg be)) loc1 s2
       = (Ok loc2, s')
    /\ collect_hostvars loc2 s' = (Ok snap, s').
Proof.
  unfold populate_live. intros E.
  apply bind_ok_inv in E as (spec & s1 & Ef & E).
  pose proof (get_vm_filter_spec_result cfg be _ _ _ Ef) as ->.
  unfold enumerate in E.
  apply bind_ok_inv in E as ([] & s1' & Ee & E).
  apply bind_ok_inv in E as (loc1 & s2 & E1 & E).
  apply bind_ok_inv in E as (loc2 & s3 & E2 & E).
  set (loc0 := {| cacheable_results := [("_meta", Meta [])];
                  hostvars := []; tags_info := [] |}) in *.
  inversion Ee; subst s1'. clear Ee.
  assert (Hc : s' = s3).
  { unfold collect_hostvars in E.
    assert (Gm : exists hv0,
               Dict.get "_meta" (cacheable_results loc2) = Some (Meta hv0)).
    { apply (process_objects_grows cfg be) in E2.
      assert (G1 : Dict.get "_meta" (cacheable_results loc1)
                   = Some (Meta [])).
      { destruct (opt_with_tags cfg).
        - apply load_tags_result in E1 as (Hg & _).
          now apply (grows_meta _ _ _ _ Hg).
        - now inversion E1. }
      exists []. now apply (grows_meta _ _ _ _ E2). }
    destruct Gm as (hv0 & Gm).
    now destruct (collect_hostvars_loop_result _ _ _ _ _ _ E Gm). }
  subst s3.
  exists s1, loc1, s2, loc2.
  destruct (opt_with_tags cfg).
  - apply load_tags_result in E1 as (Hg & Hv & Ht & Hm & Hl).
    split; [assumption|]. split; [assumption|]. split; [assumption|].
    split; [exact Hg|].
    repeat split; auto.
    now apply (grows_meta _ _ _ _ Hg).
  - inversion E1; subst loc1 s2.
    split; [assumption|]. split; [reflexivity|]. split; [reflexivity|].
    split; [apply grows_refl|].
    repeat split; auto. discriminate.
Qed.
End LiveRunFacts.

Lemma resolved_in list_by_name names r :
  In r (resolved list_by_name names) <->
  exists name others, In name names /\ list_by_name name = r :: others.
Proof.
  unfold resolved. rewrite in_flat_map. split.
  - intros (name & Hin & Hr).
    destruct (list_by_name name) as [|first others] eqn:E; [destruct Hr|].
    destruct Hr as [<-|[]]. now exists name, others.
  - intros (name & others & Hin & E). exists name. split; [assumption|].
    rewrite E. now left.
Qed.

Lemma dimension_references list_by_name names refs :
  dimension list_by_name names = Some refs ->
  NoDup refs
  /\ forall r, In r refs <->
       exists name others, In name names /\ list_by_name name = r :: others.
Proof.
  unfold dimension. destruct (is_set names); [|discriminate].
  intros E. inversion E; subst refs. unfold py_set. split.
  - apply NoDup_nodup.
  - intros r. rewrite nodup_In. apply resolved_in.
Qed.

(** C7.  A configured filter name without a match: under the error policy
    the run aborts with the fatal error that names the first such category
    and name, and the state is the one the run started from, so nothing
    was enumerated and nothing was added.  Under the silent policy, which
    is the default, the builder returns without any trace and the run goes
    on to the enumeration with the filter it built: every category keeps
    the first match of each of its names that has one and nothing for a
    name that has none, so its reference set is the one of the names that
    do match.  The sets of the datacenter and cluster names are the
    datacenters and clusters dimensions; the folders dimension holds the
    set of the last configured category among folders, host systems and
    resource pools. *)
Theorem unresolved_name_policy (cfg : options) (be : backend)
    (source_data : option snapshot) (s : state) :
  (opt_no_object_failure cfg = "error" ->
   (forall what name rest,
      unresolved cfg be = (what, name) :: rest ->
      _populate_from_source cfg be source_data false s
      = (Raise (AnsibleError (not_found_message what name)), s))
   /\ (forall what name,
         In (what, name) (unresolved cfg be) ->
         exists what' name',
           In (what', name') (unresolved cfg be)
           /\ _populate_from_source cfg be source_data false s
              = (Raise (AnsibleError (not_found_message what' name')), s)))
  /\ (opt_no_object_failure cfg = "silent" ->
      _get_vm_filter_spec cfg be s = (Ok (expected_filter_spec cfg be), s)
      /\ _populate_from_source cfg be source_data false s
         = enumerate cfg be (expected_filter_spec cfg be) s
      /\ fs_datacenters (expected_filter_spec cfg be)
         = (if is_set (opt_datacenters cfg)
            then Some (py_set (resolved (be_datacenters be)
                                 (opt_datacenters cfg)))
            else None)
      /\ fs_clusters (expected_filter_spec cfg be)
         = (if is_set (opt_clusters cfg)
            then Some (py_set (resolved (be_clusters be) (opt_clusters cfg)))
            else None)
      /\ fs_folders (expected_filter_spec cfg be)
         = (if is_set (opt_resource_pools cfg)
            then Some (py_set (resolved (be_resource_pools be)
                                 (opt_resource_pools cfg)))
            else if is_set (opt_esxi_hostsystems cfg)
            then Some (py_set (resolved (be_hosts be)
                                 (opt_esxi_hostsystems cfg)))
            else if is_set (opt_folders cfg)
            then Some (py_set (resolved (be_folders be) (opt_folders cfg)))
            else None)
      /\ (forall list_by_name what names s0,
            collect_references cfg list_by_name what names s0
            = (Ok (resolved list_by_name names), s0))
      /\ (forall list_by_name names r,
            In r (py_set (resolved list_by_name names)) <->
            exists name others,
              In name names /\ list_by_name name = r :: others))
  /\ opt_no_object_failure default_options = "silent".
Proof.
  split; [|split; [|reflexivity]].
  - intros P.
    assert (Hfirst : forall what name rest,
      unresolved cfg be = (what, name) :: rest ->
      _populate_from_source cfg be source_data false s
      = (Raise (AnsibleError (not_found_message what name)), s)).
    { intros what name rest U. simpl. unfold populate_live.
      pose proof (get_vm_filter_spec_error cfg be s _ _ _ P U) as E.
      now rewrite (bind_raise _ E). }
    split; [exact Hfirst|].
    intros what name Hin.
    destruct (unresolved cfg be) as [|[w n] rest] eqn:U; [destruct Hin|].
    exists w, n. split; [now left|]. now apply (Hfirst w n rest).
  - intros P.
    assert (E : _get_vm_filter_spec cfg be s
                = (Ok (expected_filter_spec cfg be), s)).
    { apply get_vm_filter_spec_quiet; rewrite P; discriminate. }
    split; [exact E|].
    split; [simpl; unfold populate_live; now rewrite (bind_ok _ E)|].
    split; [reflexivity|]. split; [reflexivity|].
    split.
    { unfold expected_filter_spec, dimension. simpl.
      destruct (is_set (opt_resource_pools cfg)); [reflexivity|].
      destruct (is_set (opt_esxi_hostsystems cfg)); reflexivity. }
    split.
    + intros. now apply collect_references_silent.
    + intros list_by_name names r. unfold py_set. rewrite nodup_In.
      apply resolved_in.
Qed.

Lemma unresolved_name_policy_witness :
  _populate_from_source
    (with_filters sample_options ["dev"; "nope"] ["esx1"] [] "error")
    (sample_backend [web1]) None false initial_state
  = (Raise (AnsibleError "Unable to find folder nope"), initial_state)
  /\ _get_vm_filter_spec
       (with_filters sample_options ["dev"; "nope"; "dev"] [] [] "silent")
       (sample_backend [web1]) initial_state
     = (Ok {| fs_datacenters := None; fs_clusters := None;
              fs_folders := Some ["group-v1"];
              fs_hosts := None; fs_resource_pools := None |},
        initial_state).
Proof.
  split.
  - exact (proj1 (proj1 (unresolved_name_policy
             (with_filters sample_options ["dev"; "nope"] ["esx1"] [] "error")
             (sample_backend [web1]) None initial_state) eq_refl)
             "folder" "nope" [] eq_refl).
  - exact (proj1 (proj1 (proj2 (unresolved_name_policy
             (with_filters sample_options ["dev"; "nope"; "dev"] [] []
                "silent")
             (sample_backend [web1]) None initial_state)) eq_refl)).
Defined.

(** X1.  Whenever the filter-spec builder returns, under any policy, the
    filter it returns is the expected one: the datacenter and cluster
    dimensions hold the references of their own names, the folders
    dimension holds those of the last configured category among folders,
    host systems and resource pools, and the hosts and resource-pools
    dimensions are unset whatever names are configured.  The datacenters
    dimension is unset exactly when no datacenter name is configured, the
    clusters dimension exactly when no cluster name is, and the folders
    dimension exactly when no folder, host-system and resource-pool name
    is. *)
Theorem filter_spec_is_expected (cfg : options) (be : backend)
    (s : state) (spec : filter_spec) (s' : state) :
  _get_vm_filter_spec cfg be s = (Ok spec, s') ->
  spec = expected_filter_spec cfg be
  /\ (fs_datacenters spec = None <-> opt_datacenters cfg = [])
  /\ (fs_clusters spec = None <-> opt_clusters cfg = [])
  /\ (fs_folders spec = None <->
      opt_folders cfg = [] /\ opt_esxi_hostsystems cfg = []
      /\ opt_resource_pools cfg = [])
  /\ fs_hosts spec = None
  /\ fs_resource_pools spec = None.
Proof.
  intros E. apply get_vm_filter_spec_result in E. subst spec.
  split; [reflexivity|].
  unfold expected_filter_spec, dimension. simpl.
  destruct (opt_datacenters cfg), (opt_clusters cfg), (opt_folders cfg),
    (opt_esxi_hostsystems cfg), (opt_resource_pools cfg); simpl;
    repeat split; try reflexivity; try discriminate;
    try (intros (? & ? & ?)); try discriminate.
Qed.

Lemma filter_spec_is_expected_witness :
  expected_filter_spec
    (with_filters sample_options ["dev"; "nope"] ["esx1"; "gone"] [] "warn")
    (sample_backend [])
  = {| fs_datacenters := None; fs_clusters := None;
       fs_folders := Some ["host-1"];
       fs_hosts := None; fs_resource_pools := None |}.
Proof.
  symmetry.
  exact (proj1 (filter_spec_is_expected
                  (with_filters sample_options ["dev"; "nope"]
                     ["esx1"; "gone"] [] "warn")
                  (sample_backend []) initial_state _ _ eq_refl)).
Defined.

(** X2.  Under the warn policy the builder never aborts: it returns the
    expected filter and shows one warning for every configured name
    without a match, in the order of the lookups, and nothing else. *)
Theorem warn_policy_reports_each_miss (cfg : options) (be : backend)
    (s : state) :
  opt_no_object_failure cfg = "warn" ->
  _get_vm_filter_spec cfg be s
  = (Ok (expected_filter_spec cfg be), log_more s (warnings_of cfg be)).
Proof. apply get_vm_filter_spec_warn. Qed.

Lemma warn_policy_reports_each_miss_witness :
  snd (_get_vm_filter_spec
         (with_filters sample_options ["dev"; "nope"] ["esx1"; "gone"] []
            "warn")
         (sample_backend []) initial_state)
  = log_more initial_state
      [Warning "Unable to find folder nope";
       Warning "Unable to find esxi hostsystem gone"].
Proof.
  rewrite (warn_policy_reports_each_miss
             (with_filters sample_options ["dev"; "nope"] ["esx1"; "gone"] []
                "warn")
             (sample_backend []) initial_state eq_refl).
  reflexivity.
Defined.

(** X3.  Only the words warn and error select a policy: with any other
    value of no_object_failure the builder behaves as under silent, it
    returns the expected filter and leaves no trace. *)
Theorem other_policy_words_are_silent (cfg : options) (be : backend)
    (s : state) :
  opt_no_object_failure cfg <> "warn" ->
  opt_no_object_failure cfg <> "error" ->
  _get_vm_filter_spec cfg be s = (Ok (expected_filter_spec cfg be), s).
Proof. apply get_vm_filter_spec_quiet. Qed.

Lemma other_policy_words_are_silent_witness :
  _get_vm_filter_spec
    (with_filters sample_options ["nope"] [] [] "Error")
    (sample_backend []) initial_state
  = (Ok {| fs_datacenters := None; fs_clusters := None;
           fs_folders := Some [];
           fs_hosts := None; fs_resource_pools := None |}, initial_state).
Proof.
  rewrite (other_policy_words_are_silent
             (with_filters sample_options ["nope"] [] [] "Error")
             (sample_backend []) initial_state).
  - reflexivity.
  - discriminate.
  - discriminate.
Defined.

(** X4.  In the filter the builder returns, the datacenter dimension and
    the cluster dimension hold no reference twice, and a reference is in
    the dimension exactly when it is the first match of a configured
    name. *)
Theorem filter_dimension_references (cfg : options) (be : backend)
    (s : state) (spec : filter_spec) (s' : state) :
  _get_vm_filter_spec cfg be s = (Ok spec, s') ->
  (forall refs, fs_datacenters spec = Some refs ->
     NoDup refs
     /\ forall r, In r refs <->
          exists name others,
            In name (opt_datacenters cfg)
            /\ be_datacenters be name = r :: others)
  /\ (forall refs, fs_clusters spec = Some refs ->
        NoDup refs
        /\ forall r, In r refs <->
             exists name others,
               In name (opt_clusters cfg)
               /\ be_clusters be name = r :: others).
Proof.
  intros E. apply get_vm_filter_spec_result in E. subst spec. simpl.
  split; intros refs; apply dimension_references.
Qed.

Lemma filter_dimension_references_witness :
  NoDup ["datacenter-1"]
  /\ (In "datacenter-1" ["datacenter-1"] <->
      exists name others,
        In name ["dc1"; "dc1"; "zz"]
        /\ by_name "dc1" "datacenter-1" name = "datacenter-1" :: others).
Proof.
  destruct (proj1 (filter_dimension_references
                     (with_datacenters sample_options ["dc1"; "dc1"; "zz"] [])
                     (sample_backend []) initial_state _ _ eq_refl)
              ["datacenter-1"] eq_refl) as [N I].
  split; [exact N | exact (I "datacenter-1")].
Defined.

Section LiveHostvars.
Variable cfg : options.
Variable be : backend.

(** What a live run that returns has in [_meta], [hostvars]. *)
Lemma live_run_hostvars s snap s' :
  populate_live cfg be s = (Ok snap, s') ->
  exists hv,
    Dict.get "_meta" snap = Some (Meta hv)
    /\ Dict.keys hv
       = key_order (keys_of (be_vm_list be (expected_filter_spec cfg be)))
    /\ NoDup (Dict.keys hv)
    /\ forall h, Dict.mem h hv = true ->
         Dict.get h hv = Dict.get h (inv_hosts (st_inventory s')).
Proof.
  intros E.
  apply populate_live_inv in E
    as (s1 & loc1 & s2 & loc2 & _ & _ & Hv & _ & Gm & _ & _ & Ep & Ec).
  pose proof (process_objects_grows cfg be _ _ _ _ _ Ep) as Hg.
  apply (grows_meta _ _ _ _ Hg) in Gm.
  apply process_objects_hostvars in Ep as [Eh _]. rewrite Hv in Eh.
  unfold collect_hostvars in Ec.
  destruct (collect_hostvars_loop_result _ _ _ _ _ _ Ec Gm)
    as (_ & _ & hv & G & Hk & Hin & Hout).
  assert (Hkeys : Dict.keys hv
            = key_order
                (keys_of (be_vm_list be (expected_filter_spec cfg be)))).
  { rewrite Hk, Eh, keys_note_hosts. simpl.
    change (fold_left add_key
              (fold_left add_key
                 (keys_of (be_vm_list be (expected_filter_spec cfg be))) [])
              [])
      with (key_order
              (key_order
                 (keys_of (be_vm_list be (expected_filter_spec cfg be))))).
    apply key_order_idem. }
  exists hv. split; [assumption|]. split; [assumption|]. split.
  - rewrite Hkeys. apply key_order_nodup.
  - intros h Hm. apply Hin.
    apply mem_in_keys in Hm. rewrite Hk in Hm.
    apply fold_add_key_in in Hm as [[]|Hm]. assumption.
Qed.
End LiveHostvars.

(* ================================================================== *)
(** * What a live run returns *)

(** X5.  In the snapshot of a live run, the keys of _meta, hostvars are
    the host keys of the listed machines that have a configuration, each
    once, in the order of their first appearance; and the variables
    stored for a host are the ones the inventory holds for it when the
    run ends. *)
Theorem live_hostvars_keys (cfg : options) (be : backend)
    (source_data : option snapshot) (s : state) (snap : snapshot)
    (s' : state) :
  _populate_from_source cfg be source_data false s = (Ok snap, s') ->
  exists hv,
    Dict.get "_meta" snap = Some (Meta hv)
    /\ Dict.keys hv
       = key_order (keys_of (be_vm_list be (expected_filter_spec cfg be)))
    /\ NoDup (Dict.keys hv)
    /\ forall h, Dict.mem h hv = true ->
         Dict.get h hv = Dict.get h (inv_hosts (st_inventory s')).
Proof.
  simpl. apply live_run_hostvars.
Qed.

Lemma live_hostvars_keys_witness :
  exists hv,
    Dict.get "_meta"
      [("_meta",
        Meta [("web1_u1", [("ansible_host", PStr "10.0.0.5");
                           ("name", PStr "web1")]);
              ("web2_u2", [("name", PStr "web2")])]);
       ("poweredOn", Group ["web1_u1"]);
       ("otherLinux64Guest", Group ["web1_u1"]);
       ("poweredOff", Group ["web2_u2"]);
       ("windows9Server64Guest", Group ["web2_u2"])]
    = Some (Meta hv)
    /\ Dict.keys hv = ["web1_u1"; "web2_u2"].
Proof.
  destruct (live_hostvars_keys
              (with_properties sample_options false ["name"])
              (sample_backend [web1; orphan_vm; web2; web1])
              None initial_state _ _ eq_refl) as (hv & G & K & _).
  exists hv. split; [exact G | exact K].
Defined.

(** X6.  A machine that is listed before any other machine with its key
    ends up, in the snapshot of a live run, among the members of the
    group named after its power state and of the group named after its
    guest id, and with tags enabled among the members of the group of
    every tag attached to it. *)
Theorem first_seen_host_joins_groups (cfg : options) (be : backend)
    (source_data : option snapshot) (s : state) (snap : snapshot)
    (s' : state) (xs ys : list vm) (o : vm) (c : vm_config) :
  _populate_from_source cfg be source_data false s = (Ok snap, s') ->
  be_vm_list be (expected_filter_spec cfg be) = (xs ++ o :: ys)%list ->
  vm_config_of o = Some c ->
  (forall x, In x xs -> key_of x <> key_of o) ->
  (exists hosts,
     Dict.get (vm_powerState o) snap = Some (Group hosts)
     /\ In (host_key (vm_name o) (cfg_uuid c)) hosts)
  /\ (exists g hosts,
        cfg_guestId c = Some g
        /\ Dict.get g snap = Some (Group hosts)
        /\ In (host_key (vm_name o) (cfg_uuid c)) hosts)
  /\ (opt_with_tags cfg = true ->
      forall t, In t (be_attached_tags be (vm_moid o)) ->
      exists name hosts,
        Dict.get t (tag_table be) = Some name
        /\ Dict.get name snap = Some (Group hosts)
        /\ In (host_key (vm_name o) (cfg_uuid c)) hosts).
Proof.
  simpl. intros E Hl Hc Hfirst.
  apply populate_live_inv in E
    as (s1 & loc1 & s2 & loc2 & _ & _ & Hv & _ & Gm & Ht & _ & Ep & Ec).
  rewrite Hl in Ep. unfold process_objects in Ep.
  rewrite for_fold_app in Ep.
  apply bind_ok_inv in Ep as (la & sa & Ea & Ep). cbn [for_fold] in Ep.
  apply bind_ok_inv in Ep as (lb & sb & Eb & Ep).
  pose proof (process_objects_grows cfg be xs _ _ _ _ Ea) as Ga.
  pose proof (process_objects_grows cfg be ys _ _ _ _ Ep) as Gb.
  apply (process_objects_hostvars cfg be) in Ea as [Eh Et].
  assert (Hnew : Dict.mem (host_key (vm_name o) (cfg_uuid c)) (hostvars la)
                 = false).
  { destruct (Dict.mem (host_key (vm_name o) (cfg_uuid c)) (hostvars la))
      eqn:Hm; [|reflexivity].
    rewrite Eh, Hv in Hm.
    apply note_hosts_inv in Hm as [Hm|(x & Hin & K)]; [discriminate|].
    exfalso. apply (Hfirst x Hin). rewrite K. unfold key_of.
    now rewrite Hc. }
  destruct (process_vm_first cfg be la o c sa lb sb Hc Hnew Eb)
    as (Gv & (hp & Pp & Ip) & (g & hg & Eg & Pg & Ig) & Htags).
  assert (Gmeta : Dict.get "_meta" (cacheable_results loc2)
                  = Some (Meta [])).
  { apply (grows_meta _ _ _ _ Gb). apply (grows_meta _ _ _ _ Gv).
    now apply (grows_meta _ _ _ _ Ga). }
  unfold collect_hostvars in Ec.
  destruct (collect_hostvars_loop_result _ _ _ _ _ _ Ec Gmeta)
    as (_ & Hother & _).
  assert (Hsnap : forall name hosts h,
            Dict.get name (cacheable_results lb) = Some (Group hosts) ->
            In h hosts ->
            exists hosts', Dict.get name snap = Some (Group hosts')
                           /\ In h hosts').
  { intros name hosts h G Hin.
    destruct (grows_member _ _ _ _ _ Gb G Hin) as (hosts' & G' & Hin').
    exists hosts'. split; [|assumption].
    rewrite Hother; [assumption|]. intros ->. congruence. }
  split; [|split].
  - now apply (Hsnap _ hp).
  - destruct (Hsnap _ _ _ Pg Ig) as (hosts' & G' & Hin').
    exists g, hosts'. auto.
  - intros Hw t Hin. destruct (Htags Hw t Hin) as (name & hosts & Gt & Gn & Hh).
    destruct (Hsnap _ _ _ Gn Hh) as (hosts' & G' & Hin').
    exists name, hosts'. split; [|auto].
    rewrite Et, Ht, Hw in Gt. exact Gt.
Qed.

Lemma first_seen_host_joins_groups_witness :
  exists name hosts,
    Dict.get "tag-1" (tag_table (sample_backend [web2; web1])) = Some name
    /\ Dict.get name
         [("_meta",
           Meta [("web2_u2", [("name", PStr "web2")]);
                 ("web1_u1", [("ansible_host", PStr "10.0.0.5");
                              ("name", PStr "web1")])]);
          ("prod", Group ["web1_u1"]);
          ("poweredOff", Group ["web2_u2"]);
          ("windows9Server64Guest", Group ["web2_u2"]);
          ("poweredOn", Group ["web1_u1"]);
          ("otherLinux64Guest", Group ["web1_u1"])]
       = Some (Group hosts)
    /\ In "web1_u1" hosts.
Proof.
  refine (proj2 (proj2
            (first_seen_host_joins_groups
               (with_properties sample_options true ["name"])
               (sample_backend [web2; web1]) None initial_state _ _
               [web2] [] web1
               {| cfg_uuid := "u1"; cfg_guestId := Some "otherLinux64Guest" |}
               eq_refl eq_refl eq_refl _))
            eq_refl "tag-1" (or_introl eq_refl)).
  intros x [<-|[]]. discriminate.
Defined.

(** X7.  With tags enabled, every tag the backend lists has an entry in
    the snapshot of a live run, whether or not a machine carries it. *)
Theorem tag_groups_exist (cfg : options) (be : backend)
    (source_data : option snapshot) (s : state) (snap : snapshot)
    (s' : state) :
  opt_with_tags cfg = true ->
  _populate_from_source cfg be source_data false s = (Ok snap, s') ->
  forall t, In t (be_tag_list be) ->
    Dict.mem (tag_name (be_tag_get be t)) snap = true.
Proof.
  simpl. intros Hw E t Hin.
  apply populate_live_inv in E
    as (s1 & loc1 & s2 & loc2 & _ & _ & _ & _ & Gm & _ & Hm & Ep & Ec).
  pose proof (process_objects_grows cfg be _ _ _ _ _ Ep) as Hg.
  specialize (Hm Hw t Hin). apply (grows_mem _ _ _ Hg) in Hm.
  apply (grows_meta _ _ _ _ Hg) in Gm.
  unfold collect_hostvars in Ec.
  destruct (collect_hostvars_loop_result _ _ _ _ _ _ Ec Gm)
    as (_ & Hother & hv & G & _).
  unfold Dict.mem in *.
  destruct (string_dec (tag_name (be_tag_get be t)) "_meta") as [->|N].
  - now rewrite G.
  - now rewrite Hother.
Qed.

Lemma tag_groups_exist_witness :
  Dict.mem "prod"
    [("_meta", Meta [("web2_u2", [("name", PStr "web2")])]);
     ("prod", Group []);
     ("poweredOff", Group ["web2_u2"]);
     ("windows9Server64Guest", Group ["web2_u2"])]
  = true.
Proof.
  exact (tag_groups_exist
           (with_properties sample_options true ["name"])
           (sample_backend [web2]) None initial_state _ _
           eq_refl eq_refl "tag-1" (or_introl eq_refl)).
Defined.

(** X8.  A live run for which the backend lists no machine is not an
    error: with tags disabled it returns the snapshot that holds nothing
    but an empty _meta, hostvars entry, after one enumeration request and
    without touching the inventory. *)
Theorem no_matching_vm_gives_empty_result (cfg : options) (be : backend)
    (source_data : option snapshot) (s : state) (spec : filter_spec)
    (s1 : state) :
  _get_vm_filter_spec cfg be s = (Ok spec, s1) ->
  be_vm_list be spec = [] ->
  opt_with_tags cfg = false ->
  _populate_from_source cfg be source_data false s
  = (Ok [("_meta", Meta [])], log_more s1 [ListedVMs spec]).
Proof.
  intros Ef Hl Hw. simpl. unfold populate_live.
  rewrite (bind_ok _ Ef). unfold enumerate. rewrite Hl, Hw.
  reflexivity.
Qed.

Lemma no_matching_vm_gives_empty_result_witness :
  _populate_from_source
    (with_filters sample_options ["nope"] [] [] "warn")
    (sample_backend []) None false initial_state
  = (Ok [("_meta", Meta [])],
     log_more
       (log_more initial_state [Warning "Unable to find folder nope"])
       [ListedVMs {| fs_datacenters := None; fs_clusters := None;
                     fs_folders := Some [];
                     fs_hosts := None; fs_resource_pools := None |}]).
Proof.
  exact (no_matching_vm_gives_empty_result
           (with_filters sample_options ["nope"] [] [] "warn")
           (sample_backend []) None initial_state _ _
           eq_refl eq_refl eq_refl).
Defined.

(** X9.  A listed machine without a configuration, an orphan, is skipped:
    the loop over the objects ends as it does on the list without it,
    with the same local variables, the same inventory and the same
    outcome. *)
Theorem orphans_are_skipped (cfg : options) (be : backend)
    (xs ys : list vm) (o : vm) (loc : locals) (s : state) :
  vm_config_of o = None ->
  process_objects cfg be (xs ++ o :: ys) loc s
  = process_objects cfg be (xs ++ ys) loc s.
Proof.
  intros Hc. unfold process_objects. rewrite !for_fold_app.
  destruct (for_fold (process_vm cfg be) xs loc s) as [[loc1|e] s1] eqn:E.
  - rewrite !(bind_ok _ E). cbn [for_fold].
    unfold process_vm at 1. rewrite Hc. reflexivity.
  - now rewrite !(bind_raise _ E).
Qed.

Lemma orphans_are_skipped_witness :
  process_objects sample_options (sample_backend [])
    ([web1] ++ orphan_vm :: [web2])
    {| cacheable_results := [("_meta", Meta [])]; hostvars := [];
       tags_info := [] |} initial_state
  = process_objects sample_options (sample_backend [])
      ([web1] ++ [web2])
      {| cacheable_results := [("_meta", Meta [])]; hostvars := [];
         tags_info := [] |} initial_state.
Proof.
  exact (orphans_are_skipped sample_options (sample_backend [])
           [web1] [web2] orphan_vm _ initial_state eq_refl).
Defined.

(* ================================================================== *)
(** * Properties of the state that a run keeps *)

Lemma preserves_ret {A} (P : state -> Prop) (a : A) : preserves P (ret a).
Proof. intros s r s' H E. inversion E. now subst. Qed.

Lemma preserves_raise {A} (P : state -> Prop) (e : exn) :
  preserves P (@raise A e).
Proof. intros s r s' H E. inversion E. now subst. Qed.

Lemma preserves_lift {A} (P : state -> Prop) (o : outcome A) :
  preserves P (lift o).
Proof. intros s r s' H E. inversion E. now subst. Qed.

Lemma preserves_bind_val {A B} (P : state -> Prop) (m : M A) (k : A -> M B) :
  preserves P m ->
  (forall a, (exists s s', m s = (Ok a, s')) -> preserves P (k a)) ->
  preserves P (bind m k).
Proof.
  intros Hm Hk s r s' H E. unfold bind in E.
  destruct (m s) as [[a|e] s1] eqn:Em.
  - apply (Hk a (ex_intro _ s (ex_intro _ s1 Em)) s1 r s');
      [now apply (Hm s (Ok a) s1) | assumption].
  - inversion E; subst. now apply (Hm s (Raise e) s').
Qed.

Lemma preserves_bind {A B} (P : state -> Prop) (m : M A) (k : A -> M B) :
  preserves P m -> (forall a, preserves P (k a)) -> preserves P (bind m k).
Proof. intros Hm Hk. apply preserves_bind_val; auto. Qed.

Lemma preserves_for_fold {A S} (P : state -> Prop) (f : S -> A -> M S) l :
  (forall acc x, In x l -> preserves P (f acc x)) ->
  forall acc, preserves P (for_fold f l acc).
Proof.
  induction l as [|x l IH]; intros Hf acc; cbn [for_fold].
  - apply preserves_ret.
  - apply preserves_bind; [apply Hf; now left|].
    intros acc'. apply IH. intros a y Hy. apply Hf. now right.
Qed.

Lemma preserves_for_each {A} (P : state -> Prop) (f : A -> M unit) l :
  (forall x, In x l -> preserves P (f x)) -> preserves P (for_each f l).
Proof.
  intros Hf. unfold for_each. apply preserves_for_fold. intros _ x. apply Hf.
Qed.

Lemma preserves_on_inventory (P : state -> Prop) f :
  (forall s, P s ->
     P {| st_inventory := f (st_inventory s); st_log := st_log s |}) ->
  preserves P (on_inventory f).
Proof. intros Hf s r s' H E. inversion E. now apply Hf. Qed.

Lemma preserves_emit (P : state -> Prop) e :
  (forall s, P s -> P (log_more s [e])) -> preserves P (emit e).
Proof. intros Hf s r s' H E. inversion E. now apply Hf. Qed.

(* ================================================================== *)
(** * Values that reach the inventory *)

Lemma get_object_prop_json_from (W : world) (attributes : list string) :
  forall root v,
    json_dumps_ok root = true ->
    _get_object_prop W root attributes = Ok v ->
    json_dumps_ok v = true.
Proof.
  induction attributes as [|a rest IH]; intros root v J; simpl.
  - intros E. inversion E. now subst.
  - destruct (py_getattr W root a) as [r|e].
    + destruct (_process_object_types W r 0) as [r'|e'] eqn:F;
        [|discriminate].
      apply process_object_types_ok in F as (J' & _). now apply IH.
    + destruct (is_attr_or_index e); [|discriminate].
      intros E. inversion E. reflexivity.
Qed.

Lemma get_object_prop_json (W : world) (a : string) (rest : list string)
    root v :
  _get_object_prop W root (a :: rest) = Ok v -> json_dumps_ok v = true.
Proof.
  simpl. destruct (py_getattr W root a) as [r|e].
  - destruct (_process_object_types W r 0) as [r'|e'] eqn:F;
      [|discriminate].
    apply process_object_types_ok in F as (J' & _).
    now apply get_object_prop_json_from.
  - destruct (is_attr_or_index e); [|discriminate].
    intros E. inversion E. reflexivity.
Qed.

Lemma split_dot_aux_cons s : forall cur,
  exists a rest, split_dot_aux s cur = a :: rest.
Proof.
  induction s as [|c s IH]; intros cur; simpl.
  - now exists cur, [].
  - destruct (Ascii.eqb c "."%char); [|apply IH].
    now exists cur, (split_dot_aux s "").
Qed.

Lemma split_dot_cons s : exists a rest, split_dot s = a :: rest.
Proof. apply split_dot_aux_cons. Qed.

Lemma inventory_json_add_group g i :
  inventory_json i -> inventory_json (inv_add_group g i).
Proof.
  unfold inv_add_group. now destruct (Dict.mem g (inv_groups i)).
Qed.

Lemma inventory_json_add_child g c i :
  inventory_json i -> inventory_json (inv_add_child g c i).
Proof. intros H. exact H. Qed.

Lemma inventory_json_add_host h group i :
  inventory_json i -> inventory_json (inv_add_host h group i).
Proof.
  intros H. unfold inv_add_host.
  assert (H' : inventory_json
                 (if Dict.mem h (inv_hosts i) then i
                  else {| inv_groups := inv_groups i;
                          inv_hosts := Dict.set (inv_hosts i) h [] |})).
  { destruct (Dict.mem h (inv_hosts i)); [assumption|].
    intros h' vars k v Hin Hk. simpl in Hin.
    apply in_set in Hin as [[_ ->]|Hin]; [destruct Hk|].
    now apply (H h' vars k v). }
  destruct group; [now apply inventory_json_add_child | assumption].
Qed.

Lemma inventory_json_set_variable h k v i :
  json_dumps_ok v = true ->
  inventory_json i -> inventory_json (inv_set_variable h k v i).
Proof.
  intros J H h' vars k' v' Hin Hk. unfold inv_set_variable in Hin.
  simpl in Hin. apply in_set in Hin as [[_ ->]|Hin].
  - apply in_set in Hk as [[_ ->]|Hk]; [assumption|].
    destruct (Dict.get h (inv_hosts i)) as [vars0|] eqn:G; [|destruct Hk].
    apply get_in in G. now apply (H h vars0 k' v').
  - now apply (H h' vars k' v').
Qed.

Section JsonFacts.
Variable cfg : options.
Variable be : backend.

Lemma populate_host_properties_json o host :
  preserves state_json (_populate_host_properties cfg be o host).
Proof.
  unfold _populate_host_properties. apply preserves_for_each.
  intros p _. destruct (p =? "customValue").
  - apply preserves_for_each. intros cv _.
    destruct (filter (fun y => Z.eqb (fst y) (fst cv)) (be_field_mgr be));
      [apply preserves_raise|].
    apply preserves_on_inventory. intros ?.
    now apply inventory_json_set_variable.
  - apply preserves_bind_val; [apply preserves_lift|].
    intros v (s & s' & E). unfold lift in E. injection E as G _.
    apply preserves_on_inventory. intros ?.
    apply inventory_json_set_variable.
    destruct (split_dot_cons p) as (a & rest & Hp). rewrite Hp in G.
    now apply get_object_prop_json in G.
Qed.

Lemma process_vm_json loc o : preserves state_json (process_vm cfg be loc o).
Proof.
  unfold process_vm. destruct (vm_config_of o) as [c|];
    [|apply preserves_ret].
  destruct (negb (Dict.mem (host_key (vm_name o) (cfg_uuid c))
                    (hostvars loc))); [|apply preserves_ret].
  apply preserves_bind.
  { apply preserves_on_inventory. intros ?.
    now apply inventory_json_add_host. }
  intros _. apply preserves_bind.
  { destruct (vm_guest_ipAddress o) as [ip|]; [|apply preserves_ret].
    destruct (truthy (Some ip)); [|apply preserves_ret].
    apply preserves_on_inventory. intros ?.
    now apply inventory_json_set_variable. }
  intros _. apply preserves_bind; [apply populate_host_properties_json|].
  intros _. apply preserves_bind.
  { unfold tag_groups. destruct (opt_with_tags cfg); [|apply preserves_ret].
    apply preserves_for_fold. intros cr t _.
    destruct (Dict.get t (tags_info loc)); [|apply preserves_raise].
    apply preserves_bind; [|intros; apply preserves_lift].
    apply preserves_on_inventory. intros ?.
    now apply inventory_json_add_child. }
  intros cr1. apply preserves_bind.
  { unfold power_group. apply preserves_bind.
    - destruct (negb (Dict.mem (vm_powerState o) cr1));
        [|apply preserves_ret].
      apply preserves_bind; [|intros; apply preserves_ret].
      apply preserves_on_inventory. intros ?.
      now apply inventory_json_add_group.
    - intros cr. apply preserves_bind; [apply preserves_lift|].
      intros cr'. apply preserves_bind; [|intros; apply preserves_ret].
      apply preserves_on_inventory. intros ?.
      now apply inventory_json_add_child. }
  intros cr2. apply preserves_bind; [|intros; apply preserves_ret].
  unfold guest_group. apply preserves_bind.
  - destruct (cfg_guestId c) as [g|]; [|apply preserves_ret].
    destruct (truthy (Some g) && negb (Dict.mem g cr2));
      [|apply preserves_ret].
    apply preserves_bind; [|intros; apply preserves_ret].
    apply preserves_on_inventory. intros ?.
    now apply inventory_json_add_group.
  - intros cr. destruct (cfg_guestId c) as [g|]; [|apply preserves_raise].
    apply preserves_bind; [apply preserves_lift|].
    intros cr'. apply preserves_bind; [|intros; apply preserves_ret].
    apply preserves_on_inventory. intros ?.
    now apply inventory_json_add_child.
Qed.

Lemma collect_hostvars_json (l : list string) :
  forall cr s snap s',
    for_fold
      (fun cr host =>
         fun s =>
           match inv_get_host host (st_inventory s) with
           | None => (Raise AttributeError, s)
           | Some (name, vars) => (record_hostvars cr name vars, s)
           end)
      l cr s = (Ok snap, s') ->
    inventory_json (st_inventory s) ->
    meta_json cr -> meta_json snap.
Proof.
  induction l as [|x l IH]; intros cr s snap s' E Hi Hm; cbn [for_fold] in E.
  - inversion E; now subst.
  - apply bind_ok_inv in E as (cr1 & s1 & E1 & E).
    unfold inv_get_host in E1.
    destruct (Dict.get x (inv_hosts (st_inventory s))) as [vars|] eqn:Gx;
      [|discriminate].
    unfold record_hostvars in E1.
    destruct (Dict.get "_meta" cr) as [[hs|hv0]|] eqn:G; try discriminate.
    inversion E1; subst cr1 s1. clear E1.
    apply (IH _ _ _ _ E Hi).
    intros g hv h vars' k v Hg Hh Hk.
    apply in_set in Hg as [[_ Eq]|Hg].
    + inversion Eq; subst hv. apply in_set in Hh as [[_ ->]|Hh].
      * apply get_in in Gx. now apply (Hi x vars k v).
      * apply get_in in G. now apply (Hm "_meta" hv0 h vars' k v).
    + now apply (Hm g hv h vars' k v).
Qed.

Lemma populate_live_json s snap s' :
  inventory_json (st_inventory s) ->
  populate_live cfg be s = (Ok snap, s') ->
  meta_json snap.
Proof.
  intros Hi E.
  assert (Hs' : state_json s').
  { destruct (populate_live cfg be s) as [r t] eqn:Er.
    inversion E; subst r t.
    refine (_ s (Ok snap) s' Hi Er).
    unfold populate_live. apply preserves_bind.
    - unfold _get_vm_filter_spec.
      repeat (apply preserves_bind;
              [|intros; try apply preserves_ret]).
      all: match goal with
           | |- preserves _ (if ?b then _ else _) =>
               destruct b; [|apply preserves_ret];
               apply preserves_bind; [|intros; apply preserves_ret];
               unfold collect_references; apply preserves_for_fold;
               intros acc x _;
               match goal with
               | |- preserves _ (match ?l with _ => _ end) =>
                   destruct l; [|apply preserves_ret]
               end;
               apply preserves_bind; [|intros; apply preserves_ret];
               unfold _handle_error;
               destruct (opt_no_object_failure cfg =? "warn");
               [ apply preserves_emit; intros s0 H0; exact H0
               | destruct (opt_no_object_failure cfg =? "error");
                 [apply preserves_raise | apply preserves_ret] ]
           end.
    - intros spec. unfold enumerate. apply preserves_bind.
      { apply preserves_emit. intros s0 H0. exact H0. }
      intros _. apply preserves_bind.
      { destruct (opt_with_tags cfg); [|apply preserves_ret].
        unfold load_tags. apply preserves_for_fold. intros loc t _.
        cbv zeta.
        destruct (negb (Dict.mem (tag_name (be_tag_get be t))
                          (cacheable_results loc)));
          [|apply preserves_ret].
        apply preserves_bind; [|intros; apply preserves_ret].
        apply preserves_on_inventory. intros ?.
        now apply inventory_json_add_group. }
      intros loc1. apply preserves_bind.
      { unfold process_objects. apply preserves_for_fold.
        intros loc o _. apply process_vm_json. }
      intros loc2. unfold collect_hostvars. apply preserves_for_fold.
      intros cr h _ s0 r0 s0' H0 E0.
      destruct (inv_get_host h (st_inventory s0)) as [[name vars]|];
        inversion E0; now subst. }
  apply populate_live_inv in E
    as (s1 & loc1 & s2 & loc2 & _ & _ & _ & G0 & _ & _ & _ & Ep & Ec).
  pose proof (process_objects_grows cfg be _ _ _ _ _ Ep) as Hg.
  assert (Hcr : meta_json (cacheable_results loc2)).
  { intros g hv h vars k v Hin Hh.
    apply (grows_no_new_meta _ _ _ _ Hg) in Hin.
    apply (grows_no_new_meta _ _ _ _ G0) in Hin.
    destruct Hin as [Eq|[]]. inversion Eq; subst hv. destruct Hh. }
  unfold collect_hostvars in Ec.
  now apply (collect_hostvars_json _ _ _ _ _ Ec).
Qed.
End JsonFacts.

Lemma json_dumps_ok_strings (l : list string) :
  forallb json_dumps_ok (map PStr l) = true.
Proof. induction l; simpl; auto. Qed.

Lemma snapshot_value_json (snap : snapshot) :
  meta_json snap -> json_dumps_ok (snapshot_value snap) = true.
Proof.
  intros Hm. unfold snapshot_value. simpl. apply forallb_forall.
  intros x Hx. apply in_map_iff in Hx as ([g e] & <- & Hin). simpl.
  destruct e as [hosts|hv]; simpl.
  - now rewrite json_dumps_ok_strings.
  - rewrite andb_true_r. apply forallb_forall.
    intros y Hy. apply in_map_iff in Hy as ([h vars] & <- & Hh). simpl.
    apply forallb_forall. intros [k v] Hk. simpl.
    now apply (Hm g hv h vars k v).
Qed.

(** X10.  When the variables the inventory holds before the run are
    JSON-serializable, the snapshot a live run returns is
    JSON-serializable as a whole: json.dumps accepts it, so it can be
    stored in the cache. *)
Theorem live_snapshot_is_json (cfg : options) (be : backend)
    (source_data : option snapshot) (s : state) (snap : snapshot)
    (s' : state) :
  inventory_json (st_inventory s) ->
  _populate_from_source cfg be source_data false s = (Ok snap, s') ->
  json_dumps_ok (snapshot_value snap) = true.
Proof.
  simpl. intros Hi E. apply snapshot_value_json.
  now apply (populate_live_json cfg be s snap s').
Qed.

Lemma live_snapshot_is_json_witness :
  json_dumps_ok
    (snapshot_value
       [("_meta",
         Meta [("web1_u1", [("ansible_host", PStr "10.0.0.5");
                            ("name", PStr "web1");
                            ("config",
                             PDict [("hardware", PDict [("numcpu", PInt 2)]);
                                    ("uuid", PStr "u1")]);
                            ("owner", PStr "alice")])]);
        ("poweredOn", Group ["web1_u1"]);
        ("otherLinux64Guest", Group ["web1_u1"])])
  = true.
Proof.
  apply (live_snapshot_is_json
           (with_properties sample_options false
              ["name"; "config"; "customValue"])
           (sample_backend [web1]) None initial_state _
           (snd (_populate_from_source
                   (with_properties sample_options false
                      ["name"; "config"; "customValue"])
                   (sample_backend [web1]) None false initial_state))).
  - intros h vars k v [].
  - reflexivity.
Defined.

(* ================================================================== *)
(** * Tags disabled *)

Lemma for_fold_ext {A S} (f g : S -> A -> M S) (l : list A) :
  (forall acc x s, f acc x s = g acc x s) ->
  forall acc s, for_fold f l acc s = for_fold g l acc s.
Proof.
  intros H. induction l as [|x l IH]; intros acc s; cbn [for_fold];
    [reflexivity|].
  unfold bind. rewrite H. destruct (g acc x s) as [[acc'|e] s1]; auto.
Qed.

Lemma bind_ext {A B} (m : M A) (k k' : A -> M B) s :
  (forall a s1, k a s1 = k' a s1) -> bind m k s = bind m k' s.
Proof.
  intros H. unfold bind. destruct (m s) as [[a|e] s1]; auto.
Qed.

Lemma process_vm_tags_off cfg be tags get attached loc o s :
  opt_with_tags cfg = false ->
  process_vm cfg (with_tag_service be tags get attached) loc o s
  = process_vm cfg be loc o s.
Proof.
  intros H. unfold process_vm, tag_groups. rewrite H. reflexivity.
Qed.

(** X11.  With tags disabled the tag service is never consulted: a run
    gives the same result and leaves the same state whatever the tag
    listing, the tag lookup and the tag associations of the backend
    are. *)
Theorem tags_off_ignores_tag_service (cfg : options) (be : backend)
    (tags : list string) (get : string -> tag_model)
    (attached : string -> list string)
    (source_data : option snapshot) (using_current_cache : bool)
    (s : state) :
  opt_with_tags cfg = false ->
  _populate_from_source cfg (with_tag_service be tags get attached)
    source_data using_current_cache s
  = _populate_from_source cfg be source_data using_current_cache s.
Proof.
  intros H. unfold _populate_from_source.
  destruct using_current_cache; [reflexivity|].
  unfold populate_live.
  change (_get_vm_filter_spec cfg (with_tag_service be tags get attached))
    with (_get_vm_filter_spec cfg be).
  apply bind_ext. intros spec s1. unfold enumerate. rewrite H.
  change (be_vm_list (with_tag_service be tags get attached) spec)
    with (be_vm_list be spec).
  apply bind_ext. intros _ s2. apply bind_ext. intros loc s3.
  unfold process_objects, bind.
  rewrite (for_fold_ext
             (process_vm cfg (with_tag_service be tags get attached))
             (process_vm cfg be));
    [reflexivity|].
  intros acc x s0. now apply process_vm_tags_off.
Qed.

Lemma tags_off_ignores_tag_service_witness :
  _populate_from_source sample_options
    (with_tag_service (sample_backend [web1; web2]) ["tag-7"]
       (fun id => {| tag_id := id; tag_name := "_meta" |})
       (fun _ => ["tag-unknown"]))
    None false initial_state
  = _populate_from_source sample_options (sample_backend [web1; web2])
      None false initial_state.
Proof.
  exact (tags_off_ignores_tag_service sample_options
           (sample_backend [web1; web2]) ["tag-7"]
           (fun id => {| tag_id := id; tag_name := "_meta" |})
           (fun _ => ["tag-unknown"]) None false initial_state eq_refl).
Defined.

(* ================================================================== *)
(** * Replaying the cache into the inventory *)

Lemma inv_le_refl i : inv_le i i.
Proof. repeat split; eauto. Qed.

Lemma inv_le_trans i1 i2 i3 : inv_le i1 i2 -> inv_le i2 i3 -> inv_le i1 i3.
Proof.
  intros (A1 & B1 & C1 & D1) (A2 & B2 & C2 & D2).
  split; [|split; [|split]]; auto.
  intros h vars k G M. destruct (D1 h vars k G M) as (vars1 & G1 & M1).
  now apply (D2 h vars1 k).
Qed.

Lemma inv_le_add_group g i : inv_le i (inv_add_group g i).
Proof.
  unfold inv_add_group. destruct (Dict.mem g (inv_groups i)) eqn:M;
    [apply inv_le_refl|].
  split; [|split; [|split]]; simpl.
  - intros g0. apply mem_set_mono.
  - auto.
  - intros g0 child (members & G & Hin). exists members. split; [|assumption].
    simpl. rewrite get_set_other; [assumption|].
    intros ->. unfold Dict.mem in M. now rewrite G in M.
  - eauto.
Qed.

Lemma inv_member_add_child g c i : inv_member (inv_add_child g c i) g c.
Proof.
  unfold inv_member, inv_add_child. simpl. rewrite get_set_same.
  eexists. split; [reflexivity|].
  destruct (existsb (String.eqb c)
              match Dict.get g (inv_groups i) with
              | Some m => m
              | None => []
              end) eqn:E.
  - now apply existsb_eqb_in in E.
  - apply in_or_app. right. now left.
Qed.

Lemma inv_le_add_child g c i : inv_le i (inv_add_child g c i).
Proof.
  unfold inv_add_child. split; [|split; [|split]]; simpl.
  - intros g0. apply mem_set_mono.
  - auto.
  - intros g0 child (members & G & Hin). unfold inv_member. simpl.
    destruct (string_dec g0 g) as [->|N].
    + rewrite get_set_same, G. eexists. split; [reflexivity|].
      destruct (existsb (String.eqb c) members); [assumption|].
      apply in_or_app. now left.
    + rewrite get_set_other by assumption. now exists members.
  - eauto.
Qed.

Lemma inv_le_add_host h group i : inv_le i (inv_add_host h group i).
Proof.
  unfold inv_add_host.
  assert (H : inv_le i
                (if Dict.mem h (inv_hosts i) then i
                 else {| inv_groups := inv_groups i;
                         inv_hosts := Dict.set (inv_hosts i) h [] |})).
  { destruct (Dict.mem h (inv_hosts i)) eqn:M; [apply inv_le_refl|].
    split; [|split; [|split]]; simpl; auto.
    - intros h0. apply mem_set_mono.
    - intros h0 vars k G Hk. exists vars. split; [|assumption].
      rewrite get_set_other; [assumption|].
      intros ->. unfold Dict.mem in M. now rewrite G in M. }
  destruct group as [g|]; [|assumption].
  eapply inv_le_trans; [exact H | apply inv_le_add_child].
Qed.

Lemma inv_add_host_known h g i :
  Dict.mem h (inv_hosts (inv_add_host h (Some g) i)) = true
  /\ inv_member (inv_add_host h (Some g) i) g h.
Proof.
  unfold inv_add_host. split; [|apply inv_member_add_child].
  simpl. destruct (Dict.mem h (inv_hosts i)) eqn:M; simpl; [assumption|].
  apply mem_set_same.
Qed.

Lemma inv_le_set_variable h k v i : inv_le i (inv_set_variable h k v i).
Proof.
  unfold inv_set_variable. split; [|split; [|split]]; simpl; auto.
  - intros h0. apply mem_set_mono.
  - intros h0 vars k0 G Hk. destruct (string_dec h0 h) as [->|N].
    + rewrite get_set_same, G. eexists. split; [reflexivity|].
      now apply mem_set_mono.
    + rewrite get_set_other by assumption. eauto.
Qed.

Lemma registered_mono i i' g e :
  inv_le i i' -> registered i g e -> registered i' g e.
Proof.
  intros (A & B & C & _) (Hg & Hall & Hh). split; [|split]; auto.
  intros h Hin. destruct (Hh h Hin). auto.
Qed.

(** Every primitive the replay uses only adds to the inventory. *)
Lemma on_inventory_extends i0 f :
  (forall i, inv_le i (f i)) ->
  preserves (fun t => inv_le i0 (st_inventory t)) (on_inventory f).
Proof.
  intros Hf. apply preserves_on_inventory. intros t H. simpl.
  eapply inv_le_trans; [exact H | apply Hf].
Qed.

Lemma populate_host_vars_extends i0 hosts variables group :
  preserves (fun t => inv_le i0 (st_inventory t))
    (_populate_host_vars hosts variables group).
Proof.
  unfold _populate_host_vars. apply preserves_for_each. intros h _.
  apply preserves_bind.
  - apply on_inventory_extends. intros i. apply inv_le_add_host.
  - intros _. apply preserves_for_each. intros kv _.
    apply on_inventory_extends. intros i. apply inv_le_set_variable.
Qed.

Lemma for_each_post {A} (f : A -> M unit) (Q : A -> state -> Prop) l :
  (forall x s s', In x l -> f x s = (Ok tt, s') -> Q x s') ->
  (forall x y, preserves (Q x) (f y)) ->
  forall s s', for_each f l s = (Ok tt, s') ->
  forall x, In x l -> Q x s'.
Proof.
  intros Hest Hkeep. unfold for_each.
  induction l as [|a l IH]; intros s s' E x Hin; [destruct Hin|].
  cbn [for_fold] in E. apply bind_ok_inv in E as ([] & s1 & E1 & E).
  destruct Hin as [<-|Hin].
  - apply (preserves_for_each (Q a) f l (fun y _ => Hkeep a y) s1 (Ok tt) s');
      [|exact E].
    apply (Hest a s s1); [now left | assumption].
  - apply (IH (fun y t t' Hy => Hest y t t' (or_intror Hy)) s1 s' E x Hin).
Qed.

Lemma populate_host_vars_registers h variables g s s' :
  _populate_host_vars [h] variables g s = (Ok tt, s') ->
  Dict.mem h (inv_hosts (st_inventory s')) = true
  /\ inv_member (st_inventory s') g h.
Proof.
  unfold _populate_host_vars, for_each. cbn [for_fold]. intros E.
  apply bind_ok_inv in E as ([] & s1 & E1 & E). inversion E; subst s1.
  clear E. apply bind_ok_inv in E1 as ([] & s1 & E0 & E1).
  inversion E0; subst s1. clear E0.
  destruct (inv_add_host_known h g (st_inventory s)) as [Hm Hg].
  assert (Hle : inv_le (inv_add_host h (Some g) (st_inventory s))
                  (st_inventory s')).
  { refine (preserves_for_fold
              (fun t => inv_le (inv_add_host h (Some g) (st_inventory s))
                          (st_inventory t))
              _ variables _ tt _ (Ok tt) s' _ E1).
    - intros _ kv _. apply on_inventory_extends. intros i.
      apply inv_le_set_variable.
    - apply inv_le_refl. }
  destruct Hle as (_ & B & C & _). auto.
Qed.

Lemma inv_add_group_known g i :
  Dict.mem g (inv_groups (inv_add_group g i)) = true.
Proof.
  unfold inv_add_group. destruct (Dict.mem g (inv_groups i)) eqn:M;
    [assumption|].
  simpl. apply mem_set_same.
Qed.

(** One turn of the replay loop, for the entry [ge] of the snapshot. *)
Lemma replay_turn_extends i0 (hostvars : Dict.t (V:=Dict.t (V:=pyval)))
    (ge : string * entry) :
  preserves (fun t => inv_le i0 (st_inventory t))
    (let group := fst ge in
     if group =? "all" then ret tt
     else
       on_inventory (inv_add_group group) ;;;
       let hosts := match snd ge with Group hs => hs | Meta _ => [] end in
       for_each
         (fun host =>
            _populate_host_vars [host]
              (match Dict.get host hostvars with
               | Some vars => vars
               | None => []
               end)
              group)
         hosts ;;;
       on_inventory (inv_add_child "all" group)).
Proof.
  cbv zeta. destruct (fst ge =? "all"); [apply preserves_ret|].
  apply preserves_bind.
  { apply on_inventory_extends. intros i. apply inv_le_add_group. }
  intros _. apply preserves_bind.
  { apply preserves_for_each. intros h _. apply populate_host_vars_extends. }
  intros _. apply on_inventory_extends. intros i. apply inv_le_add_child.
Qed.

Lemma replay_turn_registers (hostvars : Dict.t (V:=Dict.t (V:=pyval)))
    (ge : string * entry) s s' :
  (let group := fst ge in
   if group =? "all" then ret tt
   else
     on_inventory (inv_add_group group) ;;;
     let hosts := match snd ge with Group hs => hs | Meta _ => [] end in
     for_each
       (fun host =>
          _populate_host_vars [host]
            (match Dict.get host hostvars with
             | Some vars => vars
             | None => []
             end)
            group)
       hosts ;;;
     on_inventory (inv_add_child "all" group)) s = (Ok tt, s') ->
  fst ge = "all" \/ registered (st_inventory s') (fst ge) (snd ge).
Proof.
  cbv zeta. destruct (String.eqb_spec (fst ge) "all") as [Ha|Ha];
    [now left|].
  intros E. right.
  apply bind_ok_inv in E as ([] & s1 & E1 & E).
  apply bind_ok_inv in E as ([] & s2 & E2 & E).
  inversion E1; subst s1. clear E1. inversion E; subst s'. clear E.
  simpl st_inventory.
  assert (Hle : inv_le (inv_add_group (fst ge) (st_inventory s))
                  (st_inventory s2)).
  { refine (preserves_for_each
              (fun t => inv_le (inv_add_group (fst ge) (st_inventory s))
                          (st_inventory t))
              _ _ _ _ (Ok tt) s2 _ E2).
    - intros h _. apply populate_host_vars_extends.
    - apply inv_le_refl. }
  destruct (inv_le_add_child "all" (fst ge) (st_inventory s2))
    as (A2 & B2 & C2 & _).
  split; [|split].
  - apply A2. destruct Hle as (A & _). apply A. apply inv_add_group_known.
  - apply inv_member_add_child.
  - intros h Hin.
    assert (Hh : Dict.mem h (inv_hosts (st_inventory s2)) = true
                 /\ inv_member (st_inventory s2) (fst ge) h).
    { refine (for_each_post _
                (fun h t => Dict.mem h (inv_hosts (st_inventory t)) = true
                            /\ inv_member (st_inventory t) (fst ge) h)
                _ _ _ _ _ E2 h Hin).
      - intros x t t' _ Ex. now apply populate_host_vars_registers in Ex.
      - intros x y t r t' [Hm Hg] Ey.
        assert (Hxy : inv_le (st_inventory t) (st_inventory t')).
        { refine (populate_host_vars_extends (st_inventory t) _ _ _
                    t r t' _ Ey). apply inv_le_refl. }
        destruct Hxy as (_ & B & C & _). auto. }
    destruct Hh as [Hm Hg]. auto.
Qed.

Section ReplayFacts.
Variable cfg : options.
Variable be : backend.

Lemma populate_from_cache_extends i0 source_data :
  preserves (fun t => inv_le i0 (st_inventory t))
    (_populate_from_cache source_data).
Proof.
  unfold _populate_from_cache. apply preserves_bind;
    [|intros; apply preserves_ret].
  apply preserves_for_each. intros ge _. apply replay_turn_extends.
Qed.

Lemma populate_from_cache_log L source_data :
  preserves (fun t => st_log t = L) (_populate_from_cache source_data).
Proof.
  unfold _populate_from_cache. apply preserves_bind;
    [|intros; apply preserves_ret].
  apply preserves_for_each. intros ge _. cbv zeta.
  destruct (fst ge =? "all"); [apply preserves_ret|].
  apply preserves_bind; [now apply preserves_on_inventory|].
  intros _. apply preserves_bind; [|intros; now apply preserves_on_inventory].
  apply preserves_for_each. intros h _.
  unfold _populate_host_vars. apply preserves_for_each. intros h' _.
  apply preserves_bind; [now apply preserves_on_inventory|].
  intros _. apply preserves_for_each. intros kv _.
  now apply preserves_on_inventory.
Qed.

Lemma populate_from_cache_registers source_data s r s' :
  _populate_from_cache source_data s = (r, s') ->
  forall g e,
    In (g, e) source_data -> g <> "_meta" -> g <> "all" ->
    registered (st_inventory s') g e.
Proof.
  intros E g e Hin Nm Na.
  destruct (populate_from_cache_returns source_data s) as (s0 & E0).
  rewrite E0 in E. inversion E; subst r s0. clear E.
  unfold _populate_from_cache in E0.
  apply bind_ok_inv in E0 as ([] & s1 & E1 & E0).
  inversion E0; subst s1. clear E0.
  assert (Hin' : In (g, e) (Dict.remove "_meta" source_data)).
  { unfold Dict.remove. apply filter_In. split; [assumption|]. simpl.
    apply negb_true_iff. now apply String.eqb_neq. }
  assert (H : fst (g, e) = "all"
              \/ registered (st_inventory s') (fst (g, e)) (snd (g, e))).
  { refine (for_each_post _
              (fun ge t => fst ge = "all"
                           \/ registered (st_inventory t) (fst ge) (snd ge))
              _ _ _ _ _ E1 (g, e) Hin').
    - intros x t t' _ Ex. now apply replay_turn_registers in Ex.
    - intros x y t r t' [Hx|Hx] Ey; [now left | right].
      apply (registered_mono (st_inventory t)); [|assumption].
      refine (replay_turn_extends (st_inventory t) _ y t r t' _ Ey).
      apply inv_le_refl. }
  destruct H as [H|H]; [contradiction | exact H].
Qed.
End ReplayFacts.

Lemma in_mem {V : Type} (d : Dict.t (V:=V)) k v :
  In (k, v) d -> Dict.mem k d = true.
Proof.
  intros H. apply mem_in_keys. apply in_map_iff. now exists (k, v).
Qed.

Lemma holds_variable_add_group h k v g i :
  holds_variable h k v i -> holds_variable h k v (inv_add_group g i).
Proof.
  unfold inv_add_group. now destruct (Dict.mem g (inv_groups i)).
Qed.

Lemma holds_variable_add_child h k v g c i :
  holds_variable h k v i -> holds_variable h k v (inv_add_child g c i).
Proof. intros H. exact H. Qed.

Lemma holds_variable_add_host h k v h' group i :
  holds_variable h k v i -> holds_variable h k v (inv_add_host h' group i).
Proof.
  intros (vars & G & Gk). unfold inv_add_host.
  assert (H : holds_variable h k v
                (if Dict.mem h' (inv_hosts i) then i
                 else {| inv_groups := inv_groups i;
                         inv_hosts := Dict.set (inv_hosts i) h' [] |})).
  { destruct (Dict.mem h' (inv_hosts i)) eqn:M; [now exists vars|].
    exists vars. split; [|assumption]. simpl.
    rewrite get_set_other; [assumption|].
    intros ->. unfold Dict.mem in M. now rewrite G in M. }
  destruct group; [now apply holds_variable_add_child | assumption].
Qed.

(** Setting a variable keeps every other variable of every host. *)
Lemma holds_variable_set_variable h k v h' k' v' i :
  (h' = h -> k' <> k) ->
  holds_variable h k v i ->
  holds_variable h k v (inv_set_variable h' k' v' i).
Proof.
  intros N (vars & G & Gk). unfold holds_variable, inv_set_variable. simpl.
  destruct (string_dec h' h) as [->|Nh].
  - rewrite get_set_same, G. eexists. split; [reflexivity|].
    rewrite get_set_other; [assumption|]. intros E. now apply N.
  - rewrite get_set_other by (intros E; now apply Nh). now exists vars.
Qed.

Lemma stored_variables_hostvars (source_data : snapshot) (h : string) :
  match
    Dict.get h
      (match Dict.get "_meta" source_data with
       | Some (Meta hv) => hv
       | _ => []
       end)
  with
  | Some vars => vars
  | None => []
  end = stored_variables source_data h.
Proof.
  unfold stored_variables.
  now destruct (Dict.get "_meta" source_data) as [[hosts|hv]|].
Qed.

(** The replay overwrites a variable of a host only with what the
    snapshot stores for that host under that name. *)
Lemma populate_from_cache_keeps_variable source_data h k v :
  Dict.mem k (stored_variables source_data h) = false ->
  preserves (fun t => holds_variable h k v (st_inventory t))
    (_populate_from_cache source_data).
Proof.
  intros Hk. unfold _populate_from_cache. apply preserves_bind;
    [|intros; apply preserves_ret].
  apply preserves_for_each. intros ge _. cbv zeta.
  destruct (fst ge =? "all"); [apply preserves_ret|].
  apply preserves_bind.
  { apply preserves_on_inventory. intros t H.
    now apply holds_variable_add_group. }
  intros _. apply preserves_bind.
  2:{ intros _. apply preserves_on_inventory. intros t H.
      now apply holds_variable_add_child. }
  apply preserves_for_each. intros host _.
  rewrite stored_variables_hostvars.
  unfold _populate_host_vars. apply preserves_for_each.
  intros h' [<-|[]]. apply preserves_bind.
  { apply preserves_on_inventory. intros t H.
    now apply holds_variable_add_host. }
  intros _. apply preserves_for_each. intros [k' v'] Hkv.
  apply preserves_on_inventory. intros t H. simpl.
  apply holds_variable_set_variable; [|assumption].
  intros -> ->. apply in_mem in Hkv. congruence.
Qed.

(** X12.  A cache replay shows no warning and asks the backend for
    nothing, whatever the snapshot holds and however the replay ends: the
    log of warnings and enumeration requests is the one it started
    with. *)
Theorem cache_replay_leaves_no_trace (cfg : options) (be : backend)
    (source_data : snapshot) (s : state) (r : outcome snapshot)
    (s' : state) :
  _populate_from_source cfg be (Some source_data) true s = (r, s') ->
  st_log s' = st_log s.
Proof.
  simpl. intros E.
  exact (populate_from_cache_log (st_log s) source_data s r s' eq_refl E).
Qed.

Lemma cache_replay_leaves_no_trace_witness :
  st_log
    (snd (_populate_from_source sample_options (sample_backend [web1])
            (Some sample_snapshot) true
            (log_more initial_state [Warning "earlier"])))
  = [Warning "earlier"].
Proof.
  exact (cache_replay_leaves_no_trace sample_options (sample_backend [web1])
           sample_snapshot (log_more initial_state [Warning "earlier"])
           _ _ eq_refl).
Defined.

(** X13.  However a replay ends, what the inventory held before is still
    there: every group, every host, every membership, every variable of
    every host under its name, and the value of every variable that the
    snapshot does not store for that host.  After a replay that returns,
    every group of the snapshot other than _meta and all is a group of
    the inventory and a child of the group all, and every host the
    snapshot lists under it is a host of the inventory and a member of
    the group. *)
Theorem cache_replay_registers_groups (cfg : options) (be : backend)
    (source_data : snapshot) (s : state) (r : outcome snapshot)
    (s' : state) :
  _populate_from_source cfg be (Some source_data) true s = (r, s') ->
  inv_le (st_inventory s) (st_inventory s')
  /\ (forall h vars k v,
        Dict.get h (inv_hosts (st_inventory s)) = Some vars ->
        Dict.get k vars = Some v ->
        Dict.mem k (stored_variables source_data h) = false ->
        exists vars',
          Dict.get h (inv_hosts (st_inventory s')) = Some vars'
          /\ Dict.get k vars' = Some v)
  /\ (forall snap, r = Ok snap ->
      forall g e,
        In (g, e) source_data -> g <> "_meta" -> g <> "all" ->
        Dict.mem g (inv_groups (st_inventory s')) = true
        /\ inv_member (st_inventory s') "all" g
        /\ forall h, In h (entry_hosts e) ->
             Dict.mem h (inv_hosts (st_inventory s')) = true
             /\ inv_member (st_inventory s') g h).
Proof.
  simpl. intros E. split; [|split].
  - refine (populate_from_cache_extends (st_inventory s) source_data
              s r s' _ E). apply inv_le_refl.
  - intros h vars k v G Gk Hk.
    refine (populate_from_cache_keeps_variable source_data h k v Hk
              s r s' _ E).
    now exists vars.
  - intros snap _ g e Hin Nm Na.
    exact (populate_from_cache_registers source_data s r s' E g e Hin Nm Na).
Qed.

Lemma cache_replay_registers_groups_witness :
  inv_member
    (st_inventory
       (snd (_populate_from_source sample_options (sample_backend [])
               (Some sample_snapshot) true initial_state)))
    "poweredOn" "web1_u1".
Proof.
  refine (proj2 (proj2 (proj2 (proj2 (proj2
            (cache_replay_registers_groups sample_options (sample_backend [])
               sample_snapshot initial_state _ _ eq_refl))
            _ eq_refl "poweredOn" (Group ["web1_u1"]) _ _ _)) "web1_u1" _)).
  - right. now left.
  - discriminate.
  - discriminate.
  - now left.
Defined.

(* ================================================================== *)
(** * Host entries *)

Lemma bind_on_inventory {B} f (k : unit -> M B) s :
  bind (on_inventory f) k s
  = k tt {| st_inventory := f (st_inventory s); st_log := st_log s |}.
Proof. reflexivity. Qed.

Lemma inv_add_host_idem h i :
  inv_add_host h None (inv_add_host h None i) = inv_add_host h None i.
Proof.
  unfold inv_add_host. destruct (Dict.mem h (inv_hosts i)) eqn:M.
  - now rewrite M.
  - simpl. now rewrite mem_set_same.
Qed.

Lemma host_known_kept k :
  kept_by_primitives (fun i => Dict.mem k (inv_hosts i) = true).
Proof.
  split; [|split; [|split]].
  - intros g i. destruct (inv_le_add_group g i) as (_ & B & _). apply B.
  - intros g c i. destruct (inv_le_add_child g c i) as (_ & B & _). apply B.
  - intros h group i.
    destruct (inv_le_add_host h group i) as (_ & B & _). apply B.
  - intros h k0 v i.
    destruct (inv_le_set_variable h k0 v i) as (_ & B & _). apply B.
Qed.

Lemma hosts_nodup_kept :
  kept_by_primitives (fun i => NoDup (Dict.keys (inv_hosts i))).
Proof.
  split; [|split; [|split]].
  - intros g i. unfold inv_add_group.
    now destruct (Dict.mem g (inv_groups i)).
  - intros g c i H. exact H.
  - intros h group i H. unfold inv_add_host.
    assert (H' : NoDup (Dict.keys (inv_hosts
                   (if Dict.mem h (inv_hosts i) then i
                    else {| inv_groups := inv_groups i;
                            inv_hosts := Dict.set (inv_hosts i) h [] |})))).
    { destruct (Dict.mem h (inv_hosts i)); [assumption|]. simpl.
      rewrite keys_set. now apply add_key_nodup. }
    destruct group; assumption.
  - intros h k v i H. unfold inv_set_variable. simpl.
    rewrite keys_set. now apply add_key_nodup.
Qed.

Lemma keys_of_in objects o k :
  In o objects -> key_of o = Some k -> In k (keys_of objects).
Proof.
  intros Hin K. unfold keys_of. apply in_flat_map. exists o.
  split; [assumption|]. rewrite K. now left.
Qed.

Lemma key_order_in l x : In x (key_order l) <-> In x l.
Proof.
  unfold key_order. rewrite fold_add_key_in. simpl. tauto.
Qed.

Section HostEntryFacts.
Variable cfg : options.
Variable be : backend.

Section Kept.
Variable Q : inventory -> Prop.
Hypothesis HQ : kept_by_primitives Q.

Lemma populate_host_properties_keeps o host :
  preserves (fun t => Q (st_inventory t))
    (_populate_host_properties cfg be o host).
Proof.
  destruct HQ as (Qg & Qc & Qh & Qv).
  unfold _populate_host_properties. apply preserves_for_each.
  intros p _. destruct (p =? "customValue").
  - apply preserves_for_each. intros cv _.
    destruct (filter (fun y => Z.eqb (fst y) (fst cv)) (be_field_mgr be));
      [apply preserves_raise|].
    apply preserves_on_inventory. intros t H. now apply Qv.
  - apply preserves_bind; [apply preserves_lift|].
    intros v. apply preserves_on_inventory. intros t H. now apply Qv.
Qed.

Lemma process_vm_keeps loc o :
  preserves (fun t => Q (st_inventory t)) (process_vm cfg be loc o).
Proof.
  pose proof HQ as (Qg & Qc & Qh & Qv).
  unfold process_vm. destruct (vm_config_of o) as [c|];
    [|apply preserves_ret].
  destruct (negb (Dict.mem (host_key (vm_name o) (cfg_uuid c))
                    (hostvars loc))); [|apply preserves_ret].
  apply preserves_bind.
  { apply preserves_on_inventory. intros t H. now apply Qh. }
  intros _. apply preserves_bind.
  { destruct (vm_guest_ipAddress o) as [ip|]; [|apply preserves_ret].
    destruct (truthy (Some ip)); [|apply preserves_ret].
    apply preserves_on_inventory. intros t H. now apply Qv. }
  intros _. apply preserves_bind; [apply populate_host_properties_keeps|].
  intros _. apply preserves_bind.
  { unfold tag_groups. destruct (opt_with_tags cfg); [|apply preserves_ret].
    apply preserves_for_fold. intros cr t _.
    destruct (Dict.get t (tags_info loc)); [|apply preserves_raise].
    apply preserves_bind; [|intros; apply preserves_lift].
    apply preserves_on_inventory. intros t0 H. now apply Qc. }
  intros cr1. apply preserves_bind.
  { unfold power_group. apply preserves_bind.
    - destruct (negb (Dict.mem (vm_powerState o) cr1));
        [|apply preserves_ret].
      apply preserves_bind; [|intros; apply preserves_ret].
      apply preserves_on_inventory. intros t H. now apply Qg.
    - intros cr. apply preserves_bind; [apply preserves_lift|].
      intros cr'. apply preserves_bind; [|intros; apply preserves_ret].
      apply preserves_on_inventory. intros t H. now apply Qc. }
  intros cr2. apply preserves_bind; [|intros; apply preserves_ret].
  unfold guest_group. apply preserves_bind.
  - destruct (cfg_guestId c) as [g|]; [|apply preserves_ret].
    destruct (truthy (Some g) && negb (Dict.mem g cr2));
      [|apply preserves_ret].
    apply preserves_bind; [|intros; apply preserves_ret].
    apply preserves_on_inventory. intros t H. now apply Qg.
  - intros cr. destruct (cfg_guestId c) as [g|]; [|apply preserves_raise].
    apply preserves_bind; [apply preserves_lift|].
    intros cr'. apply preserves_bind; [|intros; apply preserves_ret].
    apply preserves_on_inventory. intros t H. now apply Qc.
Qed.

(** A live run only uses the primitives of the inventory. *)
Lemma populate_live_keeps :
  preserves (fun t => Q (st_inventory t)) (populate_live cfg be).
Proof.
  pose proof HQ as (Qg & Qc & Qh & Qv).
  unfold populate_live. apply preserves_bind.
  - unfold _get_vm_filter_spec.
    repeat (apply preserves_bind;
            [|intros; try apply preserves_ret]).
    all: match goal with
         | |- preserves _ (if ?b then _ else _) =>
             destruct b; [|apply preserves_ret];
             apply preserves_bind; [|intros; apply preserves_ret];
             unfold collect_references; apply preserves_for_fold;
             intros acc x _;
             match goal with
             | |- preserves _ (match ?l with _ => _ end) =>
                 destruct l; [|apply preserves_ret]
             end;
             apply preserves_bind; [|intros; apply preserves_ret];
             unfold _handle_error;
             destruct (opt_no_object_failure cfg =? "warn");
             [ apply preserves_emit; intros s0 H0; exact H0
             | destruct (opt_no_object_failure cfg =? "error");
               [apply preserves_raise | apply preserves_ret] ]
         end.
  - intros spec. unfold enumerate. apply preserves_bind.
    { apply preserves_emit. intros s0 H0. exact H0. }
    intros _. apply preserves_bind.
    { destruct (opt_with_tags cfg); [|apply preserves_ret].
      unfold load_tags. apply preserves_for_fold. intros loc t _.
      cbv zeta.
      destruct (negb (Dict.mem (tag_name (be_tag_get be t))
                        (cacheable_results loc)));
        [|apply preserves_ret].
      apply preserves_bind; [|intros; apply preserves_ret].
      apply preserves_on_inventory. intros t0 H. now apply Qg. }
    intros loc1. apply preserves_bind.
    { unfold process_objects. apply preserves_for_fold.
      intros loc o _. apply process_vm_keeps. }
    intros loc2. unfold collect_hostvars. apply preserves_for_fold.
    intros cr h _ s0 r0 s0' H0 E0.
    destruct (inv_get_host h (st_inventory s0)) as [[name vars]|];
      inversion E0; now subst.
Qed.
End Kept.

(** The turn of a machine whose key is new adds the key to [hostvars]
    and the host to the inventory. *)
Lemma process_vm_adds_host loc o k s loc' s' :
  key_of o = Some k ->
  Dict.mem k (hostvars loc) = false ->
  process_vm cfg be loc o s = (Ok loc', s') ->
  Dict.mem k (hostvars loc') = true
  /\ Dict.mem k (inv_hosts (st_inventory s')) = true.
Proof.
  intros K Hnew E. split.
  - apply process_vm_hostvars in E as [-> _]. now apply note_host_here.
  - set (s0 := {| st_inventory := inv_add_host k None (st_inventory s);
                  st_log := st_log s |}).
    assert (E0 : process_vm cfg be loc o s0 = process_vm cfg be loc o s).
    { unfold process_vm. unfold key_of in K.
      destruct (vm_config_of o) as [c|]; [|discriminate].
      inversion K; subst k. rewrite Hnew. cbn [negb].
      rewrite (bind_on_inventory _ _ s), (bind_on_inventory _ _ s0).
      unfold s0. cbn [st_inventory st_log].
      now rewrite inv_add_host_idem. }
    rewrite <- E0 in E.
    refine (process_vm_keeps _ (host_known_kept k) loc o s0 _ s' _ E).
    unfold s0. cbn [st_inventory].
    unfold inv_add_host. destruct (Dict.mem k (inv_hosts (st_inventory s)))
      eqn:M; [assumption | apply mem_set_same].
Qed.

(** Every listed machine that has a configuration is, after a live run
    that returns, a host of the inventory and a key of [_meta],
    [hostvars]. *)
Lemma live_run_host_entries s snap s' o k :
  populate_live cfg be s = (Ok snap, s') ->
  In o (be_vm_list be (expected_filter_spec cfg be)) ->
  key_of o = Some k ->
  Dict.mem k (inv_hosts (st_inventory s')) = true
  /\ exists hv,
       Dict.get "_meta" snap = Some (Meta hv)
       /\ Dict.mem k hv = true /\ NoDup (Dict.keys hv).
Proof.
  intros E Hin K.
  destruct (live_run_hostvars cfg be s snap s' E) as (hv & G & Hk & N & Hv).
  assert (Hm : Dict.mem k hv = true).
  { apply mem_in_keys. rewrite Hk. apply key_order_in.
    now apply (keys_of_in _ o). }
  split; [|now exists hv].
  specialize (Hv k Hm). unfold Dict.mem in *. rewrite <- Hv.
  exact Hm.
Qed.

(** A machine whose key was met earlier in the loop is skipped when the
    loop comes to it. *)
Lemma process_vm_seen_in_run objs loc s loc1 s1 o o' k :
  process_objects cfg be objs loc s = (Ok loc1, s1) ->
  In o objs -> key_of o = Some k -> key_of o' = Some k ->
  process_vm cfg be loc1 o' s1 = (Ok loc1, s1).
Proof.
  intros E Hin K K'. apply (process_vm_seen cfg be loc1 o' k); [assumption|].
  apply process_objects_hostvars in E as [-> _].
  now apply (note_hosts_seen objs _ o).
Qed.

(** A run over a list in which a machine comes again is the run over the
    list without the second encounter. *)
Lemma populate_live_skips_seen objs o o' more k s :
  In o objs -> key_of o = Some k -> key_of o' = Some k ->
  populate_live cfg (with_vm_list be (objs ++ o' :: more)) s
  = populate_live cfg (with_vm_list be (objs ++ more)) s.
Proof.
  intros Hin K K'. unfold populate_live.
  change (_get_vm_filter_spec cfg (with_vm_list be (objs ++ o' :: more)))
    with (_get_vm_filter_spec cfg be).
  change (_get_vm_filter_spec cfg (with_vm_list be (objs ++ more)))
    with (_get_vm_filter_spec cfg be).
  apply bind_ext. intros spec s1. unfold enumerate.
  change (be_vm_list (with_vm_list be (objs ++ o' :: more)) spec)
    with (objs ++ o' :: more)%list.
  change (be_vm_list (with_vm_list be (objs ++ more)) spec)
    with (objs ++ more)%list.
  apply bind_ext. intros _ s2.
  change (load_tags (with_vm_list be (objs ++ o' :: more)))
    with (load_tags be).
  change (load_tags (with_vm_list be (objs ++ more))) with (load_tags be).
  apply bind_ext. intros loc s3.
  change (process_objects cfg (with_vm_list be (objs ++ o' :: more)))
    with (process_objects cfg be).
  change (process_objects cfg (with_vm_list be (objs ++ more)))
    with (process_objects cfg be).
  unfold bind.
  now rewrite (process_objects_skips_seen cfg be objs o o' more k).
Qed.
End HostEntryFacts.

(** C6.  The host key is the display name, an underscore and the unique
    id, so machines that share a name and differ in the unique id have
    different keys.  The turn of a machine whose key is new makes the key
    a host of the inventory.  After a live run that returns, every listed
    machine that has a configuration is a host of the inventory under its
    key and has an entry under that key in _meta, hostvars, where no key
    comes twice; the run adds no second entry for a host to the
    inventory.  A machine whose key was met earlier in the same run is
    skipped: its turn returns the local variables, the inventory and the
    log as they were, so no host is added, no group changes and no
    property is read again, and the run is the run over the list without
    that encounter. *)
Theorem host_keys_processed_once (cfg : options) (be : backend) :
  (forall name uuid, host_key name uuid = name ++ "_" ++ uuid)
  /\ (forall name u1 u2, u1 <> u2 -> host_key name u1 <> host_key name u2)
  /\ (forall loc o k s loc' s',
        key_of o = Some k -> Dict.mem k (hostvars loc) = false ->
        process_vm cfg be loc o s = (Ok loc', s') ->
        Dict.mem k (hostvars loc') = true
        /\ Dict.mem k (inv_hosts (st_inventory s')) = true)
  /\ (forall source_data s snap s',
        _populate_from_source cfg be source_data false s = (Ok snap, s') ->
        (forall o k,
           In o (be_vm_list be (expected_filter_spec cfg be)) ->
           key_of o = Some k ->
           Dict.mem k (inv_hosts (st_inventory s')) = true
           /\ exists hv,
                Dict.get "_meta" snap = Some (Meta hv)
                /\ Dict.mem k hv = true /\ NoDup (Dict.keys hv))
        /\ (NoDup (Dict.keys (inv_hosts (st_inventory s))) ->
            NoDup (Dict.keys (inv_hosts (st_inventory s')))))
  /\ (forall objs loc s loc1 s1 o o' k,
        process_objects cfg be objs loc s = (Ok loc1, s1) ->
        In o objs -> key_of o = Some k -> key_of o' = Some k ->
        process_vm cfg be loc1 o' s1 = (Ok loc1, s1))
  /\ (forall objs o o' more k loc s,
        In o objs -> key_of o = Some k -> key_of o' = Some k ->
        process_objects cfg be (objs ++ o' :: more) loc s
        = process_objects cfg be (objs ++ more) loc s)
  /\ (forall objs o o' more k source_data s,
        In o objs -> key_of o = Some k -> key_of o' = Some k ->
        _populate_from_source cfg (with_vm_list be (objs ++ o' :: more))
          source_data false s
        = _populate_from_source cfg (with_vm_list be (objs ++ more))
            source_data false s).
Proof.
  split; [reflexivity|].
  split; [intros name u1 u2 N E; apply N; now apply host_key_inj in E|].
  split; [intros; now apply (process_vm_adds_host cfg be loc o k s)|].
  split; [|split; [|split]].
  - intros source_data s snap s' E. simpl in E. split.
    + intros o k Hin K. now apply (live_run_host_entries cfg be s snap s' o).
    + intros N.
      exact (populate_live_keeps cfg be _ hosts_nodup_kept s _ s' N E).
  - intros. now apply (process_vm_seen_in_run cfg be objs loc s loc1 s1 o o' k).
  - intros. now apply (process_objects_skips_seen cfg be objs o o' more k).
  - intros. simpl.
    now apply (populate_live_skips_seen cfg be objs o o' more k).
Qed.

Lemma host_keys_processed_once_witness :
  host_key "web1" "u1" <> host_key "web1" "u3"
  /\ Dict.mem "web1_u1"
       (inv_hosts
          (st_inventory
             (snd (_populate_from_source sample_options
                     (sample_backend [web1; web1_clone; web1])
                     None false initial_state)))) = true
  /\ Dict.mem "web1_u3"
       (inv_hosts
          (st_inventory
             (snd (_populate_from_source sample_options
                     (sample_backend [web1; web1_clone; web1])
                     None false initial_state)))) = true
  /\ _populate_from_source sample_options
       (with_vm_list (sample_backend []) ([web1; web1_clone] ++ web1 :: [web2]))
       None false initial_state
     = _populate_from_source sample_options
         (with_vm_list (sample_backend []) ([web1; web1_clone] ++ [web2]))
         None false initial_state.
Proof.
  pose proof (host_keys_processed_once sample_options
                (sample_backend [web1; web1_clone; web1]))
    as (_ & Hdiff & _ & Hrun & _).
  destruct (_populate_from_source sample_options
              (sample_backend [web1; web1_clone; web1])
              None false initial_state) as [[snap|e] s'] eqn:E;
    [|vm_compute in E; discriminate E].
  destruct (Hrun None initial_state snap s' E) as (Hhosts & _).
  split; [apply Hdiff; discriminate|].
  split; [|split].
  - apply (Hhosts web1 "web1_u1"); [now left | reflexivity].
  - apply (Hhosts web1_clone "web1_u3"); [right; now left | reflexivity].
  - apply (proj2 (proj2 (proj2 (proj2 (proj2 (proj2
             (host_keys_processed_once sample_options (sample_backend []))))))))
      with (o := web1) (k := "web1_u1").
    + now left.
    + reflexivity.
    + reflexivity.
Defined.

(* ================================================================== *)
(** * More on the flattener and the getter *)



Lemma insert_sorted_in x y l : In y (insert_sorted x l) <-> y = x \/ In y l.
Proof.
  induction l as [|z l IH]; simpl.
  - intuition.
  - destruct (x <=? z)%string; simpl; [intuition|].
    rewrite IH. intuition.
Qed.

Lemma sorted_in x l : In x (sorted l) <-> In x l.
Proof.
  unfold sorted. induction l as [|y l IH]; simpl; [tauto|].
  rewrite insert_sorted_in, IH. intuition.
Qed.

Lemma public_properties_in properties prop :
  In prop (public_properties properties) ->
  startswith_underscore prop = false /\ denied prop = false.
Proof.
  unfold public_properties. rewrite sorted_in, !filter_In.
  intros ((_ & Hu) & Hd).
  apply negb_true_iff in Hu. apply negb_true_iff in Hd. auto.
Qed.

Lemma fold_left_ext_in {A X} (f g : A -> X -> A) (l : list X) :
  (forall a x, In x l -> f a x = g a x) ->
  forall a, fold_left f l a = fold_left g l a.
Proof.
  induction l as [|x l IH]; intros H a; simpl; [reflexivity|].
  rewrite H by now left. apply IH. intros a' y Hy. apply H. now right.
Qed.

Lemma process_object_types_fuel_view (W W' : world) :
  same_public_view W W' ->
  forall fuel vobj level,
    process_object_types_fuel W fuel vobj level
    = process_object_types_fuel W' fuel vobj level.
Proof.
  intros (Hdir & Hcall & Hget).
  induction fuel as [|fuel IH]; intros vobj level;
    rewrite !process_object_types_fuel_unfold;
    (destruct (json_dumps_ok vobj); [reflexivity|]);
    rewrite <- Hdir;
    (destruct (py_dir W vobj) as [properties|e0]; [|reflexivity]);
    match goal with
    | |- match fold_left ?f ?l ?a with _ => _ end
         = match fold_left ?g ?l ?a with _ => _ end =>
        rewrite (fold_left_ext_in f g l); [reflexivity|]
    end;
    intros acc prop Hin;
    apply public_properties_in in Hin as [Hu Hd];
    unfold flatten_body; destruct acc as [rdata|e]; try reflexivity;
    rewrite <- (Hget vobj prop Hu Hd);
    (destruct (py_getattr W vobj prop) as [p|e]; [|reflexivity]);
    rewrite <- Hcall;
    (destruct (py_callable W p); [reflexivity|]);
    (destruct (level + 1 <=? 2)%nat; [|reflexivity]).
  - reflexivity.
  - now rewrite IH.
Qed.

Lemma same_public_view_without_private W :
  same_public_view W (without_private W).
Proof.
  split; [|split]; simpl; auto.
  intros v name Hu Hd. now rewrite Hu, Hd.
Qed.

(** X14.  Flattening is idempotent: what the flattener returns, it
    returns unchanged when it is given it again, at any level. *)
Theorem flatten_idempotent (W : world) (vobj r : pyval) (level level' : nat) :
  _process_object_types W vobj level = Ok r ->
  _process_object_types W r level' = Ok r.
Proof.
  intros E. apply process_object_types_ok in E as (J & _).
  now apply process_object_types_json.
Qed.

Lemma flatten_idempotent_witness :
  _process_object_types sample_world
    (PDict [("config", PDict [("hardware", PDict []); ("uuid", PStr "u1")]);
            ("name", PStr "web1")]) 2
  = Ok (PDict [("config", PDict [("hardware", PDict []); ("uuid", PStr "u1")]);
               ("name", PStr "web1")]).
Proof.
  exact (flatten_idempotent sample_world sample_vm _ 0 2 eq_refl).
Defined.



(** X16.  Whatever property name is configured, the value the getter
    hands over for it is JSON-serializable: a dotted name always has at
    least one component, and after the first component the getter only
    holds flattened values or null. *)
Theorem extracted_values_are_json (W : world) (root : pyval)
    (vm_prop : string) (v : pyval) :
  _get_object_prop W root (split_dot vm_prop) = Ok v ->
  json_dumps_ok v = true.
Proof.
  destruct (split_dot_cons vm_prop) as (a & rest & ->).
  apply get_object_prop_json.
Qed.

Lemma extracted_values_are_json_witness :
  json_dumps_ok
    (PDict [("hardware", PDict [("numcpu", PInt 2)]); ("uuid", PStr "u1")])
  = true.
Proof.
  exact (extracted_values_are_json sample_world sample_vm "config" _ eq_refl).
Defined.

(** X17.  The flattener reads no private and no deny-listed attribute:
    in two worlds that list the same names, agree on what is callable and
    answer alike for every name that neither starts with an underscore
    nor is on the deny-list, it returns the same value. *)
Theorem flattener_reads_public_attributes_only (W W' : world)
    (vobj : pyval) (level : nat) :
  same_public_view W W' ->
  _process_object_types W vobj level = _process_object_types W' vobj level.
Proof.
  intros H. unfold _process_object_types.
  now apply process_object_types_fuel_view.
Qed.

Lemma flattener_reads_public_attributes_only_witness :
  _process_object_types (without_private sample_world) sample_vm 0
  = Ok (PDict [("config", PDict [("hardware", PDict []); ("uuid", PStr "u1")]);
               ("name", PStr "web1")]).
Proof.
  rewrite <- (flattener_reads_public_attributes_only sample_world
                (without_private sample_world) sample_vm 0
                (same_public_view_without_private sample_world)).
  reflexivity.
Defined.

(* ================================================================== *)
(** * Requirements and sessions *)

Lemma string_app_assoc (a b c : string) : (a ++ b) ++ c = a ++ (b ++ c).
Proof. induction a as [|ch a IH]; simpl; [reflexivity | now rewrite IH]. Qed.

(** X18.  The version gate compares numbers, not text, and looks at the
    first two components only: with the libraries present, a version
    major.minor... is refused as too old exactly when major is below 2,
    or major is 2 and minor is below 3; a version that has a major
    component only is refused exactly when it is at most 2. *)
Theorem version_gate_is_numeric (py_int : string -> option Z)
    (env : environment) (c : connection) (a : string) (major : Z) :
  HAS_REQUESTS env = true ->
  HAS_PYVMOMI env = true ->
  py_int a = Some major ->
  (forall b rest minor,
     split_dot (requests_version env) = a :: b :: rest ->
     py_int b = Some minor ->
     (check_requirements py_int env c
      = Failed (ParserError
                  ("'requests' library version should be >= 2.3, found: "
                   ++ requests_version env ++ "."))
      <-> (major < 2 \/ (major = 2 /\ minor < 3))%Z))
  /\ (split_dot (requests_version env) = [a] ->
      (check_requirements py_int env c
       = Failed (ParserError
                   ("'requests' library version should be >= 2.3, found: "
                    ++ requests_version env ++ "."))
       <-> (major <= 2)%Z)).
Proof.
  intros Hr Hp Ha. split.
  - intros b rest minor Hs Hb. unfold check_requirements.
    rewrite Hr, Hp, Hs. simpl. rewrite Ha, Hb. simpl.
    destruct (Z.ltb_spec major 2).
    + split; [intros _; lia | reflexivity].
    + destruct (Z.ltb_spec 2 major).
      * split; [|lia].
        destruct (negb (HAS_VSPHERE env) && conn_with_tags c);
          [discriminate|].
        destruct (negb _); discriminate.
      * destruct (Z.ltb_spec minor 3).
        -- split; [intros _; lia | reflexivity].
        -- destruct (Z.ltb_spec 3 minor);
             (split; [|lia]);
             (destruct (negb (HAS_VSPHERE env) && conn_with_tags c);
              [discriminate|]);
             destruct (negb _); discriminate.
  - intros Hs. unfold check_requirements.
    rewrite Hr, Hp, Hs. simpl. rewrite Ha. simpl.
    destruct (Z.ltb_spec major 2).
    + split; [intros _; lia | reflexivity].
    + destruct (Z.ltb_spec 2 major).
      * split; [|lia].
        destruct (negb (HAS_VSPHERE env) && conn_with_tags c);
          [discriminate|].
        destruct (negb _); discriminate.
      * split; [intros _; lia | reflexivity].
Qed.

Lemma version_gate_is_numeric_witness :
  check_requirements decimal_int (with_version sample_environment "2.10.0")
    (BaseVMwareInventory sample_login_options false)
  <> Failed (ParserError
               ("'requests' library version should be >= 2.3, found: "
                ++ "2.10.0" ++ ".")).
Proof.
  intros E.
  apply (proj1 (version_gate_is_numeric decimal_int
                  (with_version sample_environment "2.10.0")
                  (BaseVMwareInventory sample_login_options false)
                  "2" 2 eq_refl eq_refl eq_refl)
           "10" ["0"] 10%Z eq_refl eq_refl) in E.
  lia.
Defined.

(** X19.  The enumeration login never lets a failure of the connection
    through as it is: when SmartConnect raises, or returns no session,
    the login fails with a parser error whose message names the host and
    the port, and the connection attempt is the only call it has made, so
    no disconnect is registered. *)
Theorem login_fault_is_reported (env : environment) (net : network)
    (c : connection) :
  conn_validate_certs c && negb (has_SSLContext env) = false ->
  (forall service_instance,
     smart_connect net (conn_hostname c) (conn_username c) (conn_password c)
       (login_context env c) (conn_port c)
     <> Connected (Some service_instance)) ->
  exists msg,
    _login env net c
    = (Failed (ParserError msg),
       [SmartConnect (conn_hostname c) (conn_username c) (conn_password c)
          (login_context env c) (conn_port c)])
    /\ mentions msg (conn_hostname c)
    /\ mentions msg (str_port (conn_port c)).
Proof.
  intros Hssl Hfail. unfold _login. rewrite Hssl. cbv zeta.
  fold (login_context env c).
  destruct (smart_connect net (conn_hostname c) (conn_username c)
              (conn_password c) (login_context env c) (conn_port c))
    as [[service_instance|]|[msg|msg|text|text|msg|text]] eqn:E.
  - exfalso. now apply (Hfail service_instance).
  - eexists. split; [reflexivity|]. split.
    + eexists _, _. reflexivity.
    + exists ("Unknown error while connecting to vCenter or ESXi API at "
              ++ conn_hostname c ++ ":"), "".
      rewrite !string_app_assoc. simpl. repeat f_equal.
      induction (str_port (conn_port c)); simpl; congruence.
  - eexists. split; [reflexivity|]. split.
    + eexists _, _. reflexivity.
    + exists ("Unable to log on to vCenter or ESXi API at "
              ++ conn_hostname c ++ ":"), (" as " ++ conn_username c ++ ": "
                                           ++ msg).
      now rewrite !string_app_assoc.
  - eexists. split; [reflexivity|]. split.
    + exists ("User " ++ conn_username c ++ " does not have required permission"
              ++ " to log on to vCenter or ESXi API at "),
        (":" ++ str_port (conn_port c) ++ " : " ++ msg).
      now rewrite !string_app_assoc.
    + exists ("User " ++ conn_username c ++ " does not have required permission"
              ++ " to log on to vCenter or ESXi API at "
              ++ conn_hostname c ++ ":"), (" : " ++ msg).
      now rewrite !string_app_assoc.
  - eexists. split; [reflexivity|]. split.
    + eexists _, _. reflexivity.
    + exists ("Unable to connect to vCenter or ESXi API at "
              ++ conn_hostname c ++ " on TCP/"), (": " ++ text).
      now rewrite !string_app_assoc.
  - eexists. split; [reflexivity|]. split.
    + eexists _, _. reflexivity.
    + exists ("Unable to connect to vCenter or ESXi API at "
              ++ conn_hostname c ++ " on TCP/"), (": " ++ text).
      now rewrite !string_app_assoc.
  - eexists. split; [reflexivity|]. split.
    + eexists _, _. reflexivity.
    + exists ("Failed to get a response from server "
              ++ conn_hostname c ++ ":"),
        (" as request is malformed: " ++ msg).
      now rewrite !string_app_assoc.
  - eexists. split; [reflexivity|]. split.
    + eexists _, _. reflexivity.
    + exists ("Unknown error while connecting to vCenter or ESXi API at "
              ++ conn_hostname c ++ ":"), (" : " ++ text).
      now rewrite !string_app_assoc.
Qed.

Lemma login_fault_is_reported_witness :
  exists msg,
    fst (_login sample_environment sample_network
           (BaseVMwareInventory (with_password sample_login_options "wrong")
              false))
    = Failed (ParserError msg)
    /\ mentions msg "vcenter.example" /\ mentions msg "443".
Proof.
  destruct (login_fault_is_reported sample_environment sample_network
              (BaseVMwareInventory (with_password sample_login_options "wrong")
                 false)
              eq_refl
              (fun service_instance E =>
                 eq_ind (Fault (InvalidLogin "Cannot complete login."))
                   (fun a => match a with
                             | Fault _ => True
                             | Connected _ => False
                             end) I _ E))
    as (msg & E & Hh & Hp).
  exists msg. rewrite E. auto.
Defined.

Section DoLoginFacts.
Variable py_int : string -> option Z.
Variable env : environment.
Variable net : network.
Variable c : connection.

Lemma login_inv r calls :
  _login env net c = (r, calls) ->
  (calls = [] /\ conn_validate_certs c && negb (has_SSLContext env) = true
   /\ exists e, r = Failed e)
  \/ (conn_validate_certs c && negb (has_SSLContext env) = false
      /\ exists rest,
           calls = SmartConnect (conn_hostname c) (conn_username c)
                     (conn_password c) (login_context env c) (conn_port c)
                   :: rest
           /\ ((rest = [] /\ exists e, r = Failed e)
               \/ exists service_instance,
                    smart_connect net (conn_hostname c) (conn_username c)
                      (conn_password c) (login_context env c) (conn_port c)
                    = Connected (Some service_instance)
                    /\ rest = [RegisterDisconnect service_instance;
                               RetrieveContent service_instance]
                    /\ r = Done (service_instance,
                                 retrieve_content net service_instance))).
Proof.
  unfold _login.
  destruct (conn_validate_certs c && negb (has_SSLContext env)) eqn:Hssl.
  - intros E. inversion E. left. eauto.
  - cbv zeta. fold (login_context env c). intros E. right.
    split; [reflexivity|].
    destruct (smart_connect net (conn_hostname c) (conn_username c)
                (conn_password c) (login_context env c) (conn_port c))
      as [[service_instance|]|[msg|msg|text|text|msg|text]] eqn:Ea;
      inversion E; subst; eexists; (split; [reflexivity|]);
      try (left; split; [reflexivity | eauto]).
    right. exists service_instance. auto.
Qed.

Lemma login_vapi_inv r calls :
  _login_vapi net c = (r, calls) ->
  calls = ((if negb (conn_validate_certs c) then [DisableWarnings] else [])
           ++ [CreateClient (rest_server c) (conn_username c)
                 (conn_password c) (conn_validate_certs c)])%list
  /\ ((exists e, r = Failed e)
      \/ exists client,
           r = Done client
           /\ create_vsphere_client net (rest_server c) (conn_username c)
                (conn_password c) (conn_validate_certs c) = Some client).
Proof.
  unfold _login_vapi. cbv zeta. fold (rest_server c).
  destruct (create_vsphere_client net (rest_server c) (conn_username c)
              (conn_password c) (conn_validate_certs c)) as [client|] eqn:E;
    intros H; inversion H; subst; split; eauto.
Qed.

(** A login is the requirements check, then the enumeration login, then
    the REST login, each only when the one before succeeded. *)
Lemma do_login_inv r calls :
  do_login py_int env net c = (r, calls) ->
  (exists e, check_requirements py_int env c = Failed e
             /\ r = Failed e /\ calls = [])
  \/ (check_requirements py_int env c = Done tt
      /\ exists r1 calls1,
           _login env net c = (r1, calls1)
           /\ ((exists e, r1 = Failed e /\ r = Failed e /\ calls = calls1)
               \/ exists service_instance cont r2 calls2,
                    r1 = Done (service_instance, cont)
                    /\ _login_vapi net c = (r2, calls2)
                    /\ calls = (calls1 ++ calls2)%list
                    /\ ((exists e, r2 = Failed e /\ r = Failed e)
                        \/ exists client,
                             r2 = Done client
                             /\ r = Done {| si := service_instance;
                                            content := cont;
                                            rest_content := client |}))).
Proof.
  unfold do_login.
  destruct (check_requirements py_int env c) as [[]|e] eqn:Ec.
  - intros E. right. split; [reflexivity|].
    destruct (_login env net c) as [[[service_instance cont]|e1] calls1]
      eqn:E1.
    + destruct (_login_vapi net c) as [[client|e2] calls2] eqn:E2;
        inversion E; subst; eexists _, _; (split; [reflexivity|]);
        right; eexists _, _, _, _; repeat split; eauto.
    + inversion E; subst. eexists _, _. split; [reflexivity|]. left. eauto.
  - intros E. inversion E. left. eauto.
Qed.
End DoLoginFacts.

(** X20.  A login runs in order and stops at the first failure: when the
    requirements are not met nothing is called at all; the REST client is
    created only after the enumeration login has returned a session and
    the disconnect of that session has been registered, and it is created
    for the host, followed by a colon and the port when a port is set;
    and the login succeeds only with all three steps done. *)
Theorem rest_login_follows_enumeration_login (py_int : string -> option Z)
    (env : environment) (net : network) (c : connection)
    (r : result sessions) (calls : list call) :
  do_login py_int env net c = (r, calls) ->
  (forall e, check_requirements py_int env c = Failed e ->
             r = Failed e /\ calls = [])
  /\ (forall server user pwd verify,
        In (CreateClient server user pwd verify) calls ->
        server = rest_server c
        /\ exists service_instance,
             smart_connect net (conn_hostname c) (conn_username c)
               (conn_password c) (login_context env c) (conn_port c)
             = Connected (Some service_instance)
             /\ In (RegisterDisconnect service_instance) calls)
  /\ (forall sess, r = Done sess ->
        check_requirements py_int env c = Done tt
        /\ smart_connect net (conn_hostname c) (conn_username c)
             (conn_password c) (login_context env c) (conn_port c)
           = Connected (Some (si sess))
        /\ content sess = retrieve_content net (si sess)
        /\ create_vsphere_client net (rest_server c) (conn_username c)
             (conn_password c) (conn_validate_certs c)
           = Some (rest_content sess)).
Proof.
  intros E. apply do_login_inv in E
    as [(e & Ec & -> & ->)
       |(Ec & r1 & calls1 & E1 & [(e & -> & -> & ->)
                                 |(service_instance & cont & r2 & calls2
                                   & -> & E2 & -> & Hr)])].
  - split; [|split].
    + intros e' Ec'. rewrite Ec in Ec'. inversion Ec'. auto.
    + intros ? ? ? ? [].
    + intros sess Hs. discriminate Hs.
  - split; [|split].
    + intros e' Ec'. rewrite Ec in Ec'. discriminate.
    + intros server user pwd verify Hin. exfalso.
      apply login_inv in E1
        as [(-> & _)|(_ & rest & -> & [(-> & _)|(x & _ & _ & Bad)])].
      * destruct Hin.
      * destruct Hin as [Bad|[]]. discriminate.
      * discriminate.
    + intros sess Hs. discriminate Hs.
  - apply login_inv in E1
      as [(_ & _ & e & Bad)
         |(_ & rest & -> & [(_ & e & Bad)|(x & Ea & -> & Ed)])];
      try discriminate.
    inversion Ed; subst x cont. clear Ed.
    apply login_vapi_inv in E2 as (-> & Hc).
    split; [|split].
    + intros e' Ec'. rewrite Ec in Ec'. discriminate.
    + intros server user pwd verify Hin. split.
      * simpl in Hin. destruct Hin as [Bad|[Bad|[Bad|Hin]]];
          try discriminate.
        apply in_app_or in Hin as [Hin|[Eq|[]]].
        -- destruct (negb (conn_validate_certs c)); [|destruct Hin].
           destruct Hin as [Bad|[]]. discriminate.
        -- now inversion Eq.
      * exists service_instance. split; [assumption|]. simpl. auto.
    + intros sess Hs.
      destruct Hr as [(e & _ & Bad)|(client & -> & ->)];
        [rewrite Bad in Hs; discriminate|].
      inversion Hs; subst sess. simpl.
      destruct Hc as [(e & Bad)|(client' & Eq & Hcl)]; [discriminate|].
      inversion Eq; subst client'. auto.
Qed.

Lemma rest_login_follows_enumeration_login_witness :
  do_login decimal_int sample_environment sample_network
    (BaseVMwareInventory sample_login_options true)
  = (Done {| si := 7; content := 8; rest_content := 9 |},
     [SmartConnect "vcenter.example" "admin" "secret"
        (Some PermissiveContext) (Some 443%Z);
      RegisterDisconnect 7; RetrieveContent 7; DisableWarnings;
      CreateClient "vcenter.example:443" "admin" "secret" false])
  /\ rest_server (BaseVMwareInventory sample_login_options true)
     = "vcenter.example:443".
Proof.
  split; [reflexivity|]. symmetry.
  apply (proj1 (proj2 (rest_login_follows_enumeration_login decimal_int
                         sample_environment sample_network
                         (BaseVMwareInventory sample_login_options true)
                         _ _ eq_refl))
           _ "admin" "secret" false).
  simpl. tauto.
Defined.

(** X21.  Certificate validation follows validate_certs in both sessions:
    the enumeration login passes the permissive TLS context exactly when
    validation is switched off, and no context of its own when it is on;
    the REST session verifies certificates exactly when validation is on,
    and the warnings about unverified requests are silenced only when it
    is off. *)
Theorem tls_validation_follows_validate_certs (py_int : string -> option Z)
    (env : environment) (net : network) (c : connection)
    (r : result sessions) (calls : list call) :
  do_login py_int env net c = (r, calls) ->
  (forall host user pwd ctx port,
     In (SmartConnect host user pwd ctx port) calls ->
     (conn_validate_certs c = true ->
      ctx = None /\ has_SSLContext env = true)
     /\ (conn_validate_certs c = false -> has_SSLContext env = true ->
         ctx = Some PermissiveContext))
  /\ (forall server user pwd verify,
        In (CreateClient server user pwd verify) calls ->
        verify = conn_validate_certs c)
  /\ (In DisableWarnings calls -> conn_validate_certs c = false).
Proof.
  intros E.
  assert (Hcalls : exists calls1 calls2,
            calls = (calls1 ++ calls2)%list
            /\ (calls1 = []
                \/ conn_validate_certs c && negb (has_SSLContext env) = false
                   /\ exists rest,
                        calls1 = SmartConnect (conn_hostname c)
                                   (conn_username c) (conn_password c)
                                   (login_context env c) (conn_port c)
                                 :: rest
                        /\ forall x, In x rest ->
                             (exists i, x = RegisterDisconnect i)
                             \/ exists i, x = RetrieveContent i)
            /\ (calls2 = []
                \/ calls2
                   = ((if negb (conn_validate_certs c)
                       then [DisableWarnings] else [])
                      ++ [CreateClient (rest_server c) (conn_username c)
                            (conn_password c) (conn_validate_certs c)])%list)).
  { apply do_login_inv in E
      as [(e & Ec & -> & ->)
         |(Ec & r1 & calls1 & E1 & [(e & -> & -> & ->)
                                   |(service_instance & cont & r2 & calls2
                                     & -> & E2 & -> & Hr)])].
    - exists [], []. auto.
    - exists calls1, []. rewrite app_nil_r. split; [reflexivity|].
      split; [|now left].
      apply login_inv in E1
        as [(-> & _)|(Hs & rest & -> & [(-> & _)|(x & _ & -> & _)])];
        [now left | right | right]; (split; [assumption|]);
        eexists; (split; [reflexivity|]).
      + intros x [].
      + intros y [<-|[<-|[]]]; eauto.
    - exists calls1, calls2. split; [reflexivity|]. split.
      + apply login_inv in E1
          as [(-> & _)|(Hs & rest & -> & [(-> & _)|(x & _ & -> & _)])];
          [now left | right | right]; (split; [assumption|]);
          eexists; (split; [reflexivity|]).
        * intros x [].
        * intros y [<-|[<-|[]]]; eauto.
      + right. now apply login_vapi_inv in E2 as (-> & _). }
  destruct Hcalls as (calls1 & calls2 & -> & H1 & H2).
  split; [|split].
  - intros host user pwd ctx port Hin.
    apply in_app_or in Hin as [Hin|Hin].
    + destruct H1 as [->|(Hs & rest & -> & Hrest)]; [destruct Hin|].
      destruct Hin as [Eq|Hin].
      * inversion Eq; subst. unfold login_context.
        destruct (conn_validate_certs c), (has_SSLContext env);
          simpl in *; try discriminate; split; intros; auto; discriminate.
      * destruct (Hrest _ Hin) as [(i & Bad)|(i & Bad)]; discriminate.
    + destruct H2 as [->| ->]; [destruct Hin|].
      apply in_app_or in Hin as [Hin|[Bad|[]]]; [|discriminate].
      destruct (negb (conn_validate_certs c)); [|destruct Hin].
      destruct Hin as [Bad|[]]. discriminate.
  - intros server user pwd verify Hin.
    apply in_app_or in Hin as [Hin|Hin].
    + destruct H1 as [->|(Hs & rest & -> & Hrest)]; [destruct Hin|].
      destruct Hin as [Bad|Hin]; [discriminate|].
      destruct (Hrest _ Hin) as [(i & Bad)|(i & Bad)]; discriminate.
    + destruct H2 as [->| ->]; [destruct Hin|].
      apply in_app_or in Hin as [Hin|[Eq|[]]]; [|now inversion Eq].
      destruct (negb (conn_validate_certs c)); [|destruct Hin].
      destruct Hin as [Bad|[]]. discriminate.
  - intros Hin. apply in_app_or in Hin as [Hin|Hin].
    + destruct H1 as [->|(Hs & rest & -> & Hrest)]; [destruct Hin|].
      destruct Hin as [Bad|Hin]; [discriminate|].
      destruct (Hrest _ Hin) as [(i & Bad)|(i & Bad)]; discriminate.
    + destruct H2 as [->| ->]; [destruct Hin|].
      destruct (conn_validate_certs c); [|reflexivity].
      simpl in Hin. destruct Hin as [Bad|[]]. discriminate.
Qed.

Lemma tls_validation_follows_validate_certs_witness :
  In (SmartConnect "vcenter.example" "admin" "secret"
        (login_context sample_environment
           (BaseVMwareInventory sample_login_options true)) (Some 443%Z))
    (snd (do_login decimal_int sample_environment sample_network
            (BaseVMwareInventory sample_login_options true)))
  /\ login_context sample_environment
       (BaseVMwareInventory sample_login_options true)
     = Some PermissiveContext.
Proof.
  assert (Hin : In (SmartConnect "vcenter.example" "admin" "secret"
                      (login_context sample_environment
                         (BaseVMwareInventory sample_login_options true))
                      (Some 443%Z))
                  (snd (do_login decimal_int sample_environment
                          sample_network
                          (BaseVMwareInventory sample_login_options true)))).
  { left. reflexivity. }
  split; [exact Hin|].
  destruct (tls_validation_follows_validate_certs decimal_int
              sample_environment sample_network
              (BaseVMwareInventory sample_login_options true) _ _ eq_refl)
    as (Hctx & _).
  exact (proj2 (Hctx _ _ _ _ _ Hin) eq_refl eq_refl).
Defined.

(* ================================================================== *)
(** * The entry points *)




Section ParseFacts.
Variable py_int : string -> option Z.
Variable env : environment.
Variable net : network.
Variable lo : login_options.
Variable cfg : options.
Variable be : backend.

Lemma do_login_done_requirements c sess calls :
  do_login py_int env net c = (Done sess, calls) ->
  check_requirements py_int env c = Done tt.
Proof.
  intros E. apply do_login_inv in E
    as [(e & _ & Bad & _)|(Ec & _)]; [discriminate | assumption].
Qed.

(** [parse] after a login that succeeded. *)
Lemma parse_after_login sess calls cache opt_cache cached s :
  do_login py_int env net (BaseVMwareInventory lo (opt_with_tags cfg))
  = (Done sess, calls) ->
  parse py_int env net lo cfg be cache opt_cache cached s
  = (match
       _populate_from_source cfg be
         (if cache && opt_cache then cached else None)
         (cache && opt_cache
          && match cached with Some _ => true | None => false end) s
     with
     | (Ok cacheable_results, s') =>
         Populated (Ok cacheable_results)
           (if cache && opt_cache
               && match cached with Some _ => false | None => true end
            then Some cacheable_results else None) s'
     | (Raise e, s') => Populated (Raise e) None s'
     end, calls).
Proof.
  intros E. unfold parse. rewrite E.
  rewrite (do_login_done_requirements _ _ _ E).
  destruct cache, opt_cache, cached as [d|]; cbn [fst snd andb negb];
    match goal with
    | |- context [_populate_from_source ?a ?b ?c ?d ?e] =>
        destruct (_populate_from_source a b c d e) as [[x|x] s']
    end; reflexivity.
Qed.
End ParseFacts.

(** X23.  How [parse] uses the cache.  When it ends in a population, the
    login succeeded.  The cache is written only when caching is on for the
    call and in the options, the cache held nothing under the key and the
    live run returned a snapshot, which is then the value written; a run
    that fails writes nothing.  On a hit nothing is written, the backend
    is not asked for the machines and the result is the stored snapshot
    without its _meta entry.  With caching off, what the cache holds plays
    no part.  A failed login ends the run before anything is populated. *)
Theorem parse_cache_decision (py_int : string -> option Z)
    (env : environment) (net : network) (lo : login_options)
    (cfg : options) (be : backend) (cache opt_cache : bool)
    (cached : option snapshot) (s : state) (res : parse_result)
    (calls : list call) :
  parse py_int env net lo cfg be cache opt_cache cached s = (res, calls) ->
  (forall e, res = LoginFailed e ->
     do_login py_int env net (BaseVMwareInventory lo (opt_with_tags cfg))
     = (Failed e, calls))
  /\ (forall r cache_write s',
        res = Populated r cache_write s' ->
        (exists sess,
           do_login py_int env net
             (BaseVMwareInventory lo (opt_with_tags cfg))
           = (Done sess, calls))
        /\ (forall d, cache_write = Some d ->
              cache = true /\ opt_cache = true /\ cached = None
              /\ _populate_from_source cfg be None false s = (Ok d, s'))
        /\ (cache = true -> opt_cache = true -> cached = None ->
            _populate_from_source cfg be None false s = (r, s')
            /\ forall d, r = Ok d -> cache_write = Some d)
        /\ (cache = true -> opt_cache = true ->
            forall d, cached = Some d ->
              r = Ok (Dict.remove "_meta" d) /\ cache_write = None
              /\ st_log s' = st_log s)
        /\ (cache && opt_cache = false ->
            cache_write = None
            /\ _populate_from_source cfg be None false s = (r, s'))).
Proof.
  intros E.
  destruct (do_login py_int env net
              (BaseVMwareInventory lo (opt_with_tags cfg)))
    as [[sess|e0] calls0] eqn:El.
  - rewrite (parse_after_login _ _ _ _ _ _ _ _ _ _ _ _ El) in E.
    split.
    + intros e ->.
      destruct (_populate_from_source cfg be
                  (if cache && opt_cache then cached else None)
                  (cache && opt_cache
                   && match cached with Some _ => true | None => false end)
                  s) as [[x|x] s0]; discriminate.
    + intros r cache_write s' ->. split.
      { exists sess. f_equal.
        destruct (_populate_from_source cfg be
                    (if cache && opt_cache then cached else None)
                    (cache && opt_cache
                     && match cached with Some _ => true | None => false end)
                    s) as [[x|x] s0]; now inversion E. }
      destruct cache, opt_cache, cached as [d0|]; cbn [andb] in E;
        try (destruct (populate_from_cache_returns d0 s) as (s1 & E1);
             pose proof (populate_from_cache_log (st_log s) d0 s _ s1
                           eq_refl E1) as Hlog;
             change (_populate_from_source cfg be (Some d0) true s)
               with (_populate_from_cache d0 s) in E;
             rewrite E1 in E; inversion E; subst;
             repeat split; intros; try discriminate;
             repeat match goal with
                    | H : Some _ = Some _ |- _ => inversion H; subst; clear H
                    end; auto; fail);
        destruct (_populate_from_source cfg be None false s)
          as [[x|x] s0] eqn:Ep;
        inversion E; subst;
        repeat split; intros; try discriminate;
        repeat match goal with
               | H : Some _ = Some _ |- _ => inversion H; subst; clear H
               | H : Ok _ = Ok _ |- _ => inversion H; subst; clear H
               end; auto.
  - unfold parse in E. rewrite El in E. inversion E; subst. split.
    + intros e Eq. now inversion Eq.
    + intros r cache_write s' Bad. discriminate.
Qed.


Lemma parse_cache_decision_witness :
  match
    fst (parse decimal_int sample_environment sample_network
           sample_login_options sample_options (sample_backend [web1]) true true
           None initial_state)
  with
  | Populated r cache_write _ => exists d, r = Ok d /\ cache_write = Some d
  | LoginFailed _ => False
  end.
Proof.
  destruct (parse decimal_int sample_environment sample_network
              sample_login_options sample_options (sample_backend [web1]) true true
              None initial_state) as [res calls] eqn:E.
  destruct (parse_cache_decision _ _ _ _ _ _ _ _ _ _ _ _ E) as (_ & H).
  cbn [fst]. destruct res as [e|r cache_write s'].
  - vm_compute in E. discriminate E.
  - destruct (H r cache_write s' eq_refl) as (_ & _ & (Ep & Hw) & _);
      try reflexivity.
    destruct r as [d|x].
    + exists d. split; [reflexivity|]. now apply Hw.
    + vm_compute in Ep. discriminate Ep.
Defined.
